(** * Task manager: the state reducer, its validator and the memoized selectors

    A shallow embedding of the validator ([utils/validation.ts]), the
    reducer ([state/reducer.ts]), the id generator ([utils/idGenerator.ts]),
    the error feedback ([utils/errorFeedback.ts]) and the selectors
    ([state/selectors.ts]); the module names are those of the [import]
    statements of the sources. The provider that queues the dispatches
    ([state/context.tsx]), the date utilities ([utils/dateUtils.ts]) and
    the contrast thresholds ([utils/colorContrast.ts]) follow.

    The validator is written against untyped input (it is full of [typeof]
    tests), and UPDATE_TASK spreads an unvalidated object into a task, so
    action payloads and tasks are modelled as JavaScript values: objects are
    finite maps from property names to values.  The UI part of the state only
    ever receives validated payloads and keeps the types of [UIState].  What
    a call reads from its surroundings (the clock, [Math.random]) is an
    argument; the reports a reducer call schedules are a second result. *)

From Stdlib Require Import Ascii QArith Qround.
From stdpp Require Import gmap strings list fin_maps pretty sorting.

Close Scope Q_scope.
Set Warnings "-clear-no-such-hyp".

(** ** JavaScript values *)

(** Numbers: the finite doubles are read as rationals; [-0] is not
    distinguished from [0] (no code below observes the difference). *)
Inductive JsNum :=
  | NaN
  | PosInf
  | NegInf
  | Fin (q : Q).

#[warnings="-register-all"]
Inductive JsVal :=
  | VUndef
  | VNull
  | VBool (b : bool)
  | VNum (n : JsNum)
  | VStr (s : string)
  | VArr (l : list JsVal)
  | VObj (o : gmap string JsVal).

(** A plain object: property name to value; key order is not modelled. *)
Abbreviation Obj := (gmap string JsVal).

Definition num_of_Z (z : Z) : JsNum := Fin (inject_Z z).
Definition num_of_nat (n : nat) : JsNum := num_of_Z (Z.of_nat n).

Module Num.

(** [a < b] on numbers; every comparison with [NaN] is false. *)
Definition ltb (a b : JsNum) : bool :=
  match a, b with
  | NaN, _ | _, NaN => false
  | PosInf, _ => false
  | _, NegInf => false
  | NegInf, _ => true
  | _, PosInf => true
  | Fin x, Fin y => negb (Qle_bool y x)
  end.

(** [a <= b]. *)
Definition leb (a b : JsNum) : bool :=
  match a, b with
  | NaN, _ | _, NaN => false
  | NegInf, _ => true
  | _, PosInf => true
  | PosInf, _ => false
  | _, NegInf => false
  | Fin x, Fin y => Qle_bool x y
  end.

(** [a >= b] is [b <= a]. *)
Definition geb (a b : JsNum) : bool := leb b a.

(** [a === b] on numbers. *)
Definition eqb (a b : JsNum) : bool :=
  match a, b with
  | PosInf, PosInf | NegInf, NegInf => true
  | Fin x, Fin y => Qeq_bool x y
  | _, _ => false
  end.

(** [Number.isFinite]. *)
Definition isFinite (a : JsNum) : bool :=
  match a with Fin _ => true | _ => false end.

(** [Number.isInteger]. *)
Definition isInteger (a : JsNum) : bool :=
  match a with
  | Fin q => Qeq_bool q (inject_Z (Qfloor q))
  | _ => false
  end.

(** The integer an integral number stands for (truncation otherwise). *)
Definition toZ (a : JsNum) : Z :=
  match a with
  | Fin q => Z.quot (Qnum q) (Z.pos (Qden q))
  | _ => 0%Z
  end.

End Num.

(** [typeof v]. Functions, symbols and bigints are outside the value
    universe. *)
Definition typeof (v : JsVal) : string :=
  match v with
  | VUndef => "undefined"
  | VNull => "object"
  | VBool _ => "boolean"
  | VNum _ => "number"
  | VStr _ => "string"
  | VArr _ => "object"
  | VObj _ => "object"
  end.

(** ToBoolean: what [!v], [v || w] and [if (v)] look at. *)
Definition truthy (v : JsVal) : bool :=
  match v with
  | VUndef | VNull => false
  | VBool b => b
  | VNum NaN => false
  | VNum (Fin q) => negb (Qeq_bool q 0)
  | VNum _ => true
  | VStr s => negb (String.eqb s "")
  | VArr _ | VObj _ => true
  end.

Definition isArray (v : JsVal) : bool :=
  match v with VArr _ => true | _ => false end.

(** [a || b] and [a ?? b]. *)
Definition js_or (a b : JsVal) : JsVal := if truthy a then a else b.
Definition js_nullish (a b : JsVal) : JsVal :=
  match a with VUndef | VNull => b | _ => a end.

(** The own enumerable properties of a value, as the object spread
    [{...v}] copies them: the entries of an object, the indices of an
    array, nothing for a primitive that passes no [typeof v === 'object']
    test. *)
Definition own_props (v : JsVal) : Obj :=
  match v with
  | VObj o => o
  | VArr l => list_to_map (imap (fun i x => (pretty i, x)) l)
  | _ => ∅
  end.

(** Property read [v.k]. Reads on [null] and [undefined] throw in
    JavaScript; every read below is guarded by a truthiness test. *)
Definition prop (v : JsVal) (k : string) : JsVal :=
  match v with
  | VObj o => default VUndef (o !! k)
  | VArr l =>
      if String.eqb k "length" then VNum (num_of_nat (length l))
      else default VUndef (own_props v !! k)
  | VStr s => if String.eqb k "length" then VNum (num_of_nat (String.length s)) else VUndef
  | _ => VUndef
  end.

(** [v === s] for a string [s]. *)
Definition is_str (v : JsVal) (s : string) : bool :=
  match v with VStr s' => String.eqb s' s | _ => false end.

(** Strict equality [a === b]. Two primitives are compared by value. An
    object or array is equal only to itself; every comparison in the code
    modelled here has a primitive on one side, so for them the answer is
    [false]. *)
Definition strict_eq (a b : JsVal) : bool :=
  match a, b with
  | VUndef, VUndef | VNull, VNull => true
  | VBool x, VBool y => Bool.eqb x y
  | VNum x, VNum y => Num.eqb x y
  | VStr x, VStr y => String.eqb x y
  | _, _ => false
  end.

(** ** Strings *)

(** Strings are sequences of one-byte code units; [String.length] is the
    JavaScript [.length]. White space as [String.prototype.trim] sees it in
    that range: TAB, LF, VT, FF, CR, SP and NBSP. *)
Definition isWhite (c : ascii) : bool :=
  let n := nat_of_ascii c in
  ((9 <=? n) && (n <=? 13)) || (n =? 32) || (n =? 160).

Fixpoint trimStart (s : string) : string :=
  match s with
  | EmptyString => EmptyString
  | String c s' => if isWhite c then trimStart s' else s
  end.

Fixpoint trimEnd (s : string) : string :=
  match s with
  | EmptyString => EmptyString
  | String c s' =>
      match trimEnd s' with
      | EmptyString => if isWhite c then EmptyString else String c EmptyString
      | r => String c r
      end
  end.

(** [s.trim()]. *)
Definition trim (s : string) : string := trimEnd (trimStart s).

(** [s.includes(sub)]. *)
Definition includes (s sub : string) : bool :=
  match String.index 0 sub s with Some _ => true | None => false end.

(** Empty or white space only. *)
Definition blank (s : string) : Prop := trim s = "".

(** ** The validator ([utils/validation.ts]) *)

(** [{ isValid: true }] or [{ isValid: false, error }]. *)
Inductive ValidationResult :=
  | Valid
  | Invalid (error : string).

Definition isValid (r : ValidationResult) : bool :=
  match r with Valid => true | Invalid _ => false end.

Definition validateTaskDescription (description : JsVal) : ValidationResult :=
  match description with
  | VStr d =>
      let trimmed := trim d in
      if String.length trimmed =? 0 then Invalid "Task description cannot be empty"
      else if 500 <? String.length trimmed then
        Invalid "Task description too long (max 500 characters)"
      else Valid
  | _ => Invalid "Task description must be a string"
  end.

Definition validatePriority (priority : JsVal) : bool :=
  is_str priority "low" || is_str priority "medium" ||
  is_str priority "high" || is_str priority "critical".

Definition validateDueDate (dueDate : JsVal) : ValidationResult :=
  match dueDate with
  | VNull | VUndef => Valid
  | VNum n =>
      if Num.ltb n (num_of_Z 0) then Invalid "Due date cannot be negative"
      else if negb (Num.isFinite n) then Invalid "Due date must be a finite number"
      else Valid
  | _ => Invalid "Due date must be a number (Unix timestamp) or null"
  end.

(** The body of the [for (const tag of tags)] loop, first failure wins. *)
Fixpoint validateTagList (tags : list JsVal) : ValidationResult :=
  match tags with
  | [] => Valid
  | tag :: rest =>
      match tag with
      | VStr t =>
          if String.length (trim t) =? 0 then Invalid "Tags cannot be empty"
          else if 50 <? String.length t then Invalid "Tag too long (max 50 characters)"
          else validateTagList rest
      | _ => Invalid "All tags must be strings"
      end
  end.

Definition validateTags (tags : JsVal) : ValidationResult :=
  match tags with
  | VUndef => Valid
  | VArr l =>
      if 20 <? length l then Invalid "Too many tags (max 20)"
      else validateTagList l
  | _ => Invalid "Tags must be an array"
  end.

Definition validateTaskInput (input : JsVal) : ValidationResult :=
  match validateTaskDescription (prop input "description") with
  | Invalid e => Invalid e
  | Valid =>
      if negb (strict_eq (prop input "priority") VUndef)
         && negb (validatePriority (prop input "priority"))
      then Invalid "Invalid priority level"
      else
        match validateDueDate (prop input "dueDate") with
        | Invalid e => Invalid e
        | Valid =>
            match validateTags (prop input "tags") with
            | Invalid e => Invalid e
            | Valid => Valid
            end
        end
  end.

Definition validateTaskId (id : JsVal) : ValidationResult :=
  match id with
  | VStr i =>
      if String.length (trim i) =? 0 then Invalid "Task ID cannot be empty"
      else Valid
  | _ => Invalid "Task ID must be a string"
  end.

Definition validateViewType (view : JsVal) : bool :=
  is_str view "all" || is_str view "today" || is_str view "upcoming" ||
  is_str view "priority" || is_str view "completed".

Definition validateReorderIndices (fromIndex toIndex : JsVal) (arrayLength : nat)
  : ValidationResult :=
  match fromIndex, toIndex with
  | VNum f, VNum t =>
      if negb (Num.isInteger f) || negb (Num.isInteger t) then
        Invalid "Indices must be integers"
      else if Num.ltb f (num_of_Z 0) || Num.geb f (num_of_nat arrayLength) then
        Invalid "From index out of bounds"
      else if Num.ltb t (num_of_Z 0) || Num.geb t (num_of_nat arrayLength) then
        Invalid "To index out of bounds"
      else Valid
  | _, _ => Invalid "Indices must be numbers"
  end.

(** The [for (const id of action.payload)] loop of the batch cases. *)
Fixpoint validateIdList (ids : list JsVal) : ValidationResult :=
  match ids with
  | [] => Valid
  | id :: rest =>
      match validateTaskId id with
      | Invalid e => Invalid e
      | Valid => validateIdList rest
      end
  end.

(** [!v || typeof v !== 'object'] *)
Definition not_an_object (v : JsVal) : bool :=
  negb (truthy v) || negb (String.eqb (typeof v) "object").

Definition validateAction (action : JsVal) : ValidationResult :=
  if not_an_object action then Invalid "Action must be an object"
  else
    match prop action "type" with
    | VStr type =>
        if String.eqb type "" then Invalid "Action must have a type string"
        else
          let payload := prop action "payload" in
          if String.eqb type "ADD_TASK" then
            if not_an_object payload then Invalid "ADD_TASK requires a payload object"
            else validateTaskInput payload
          else if String.eqb type "UPDATE_TASK" then
            if not_an_object payload then Invalid "UPDATE_TASK requires a payload object"
            else
              match validateTaskId (prop payload "id") with
              | Invalid e => Invalid e
              | Valid =>
                  if not_an_object (prop payload "updates") then
                    Invalid "UPDATE_TASK requires updates object"
                  else Valid
              end
          else if String.eqb type "DELETE_TASK" || String.eqb type "TOGGLE_COMPLETE"
                  || String.eqb type "TOGGLE_TASK_SELECTION" then
            validateTaskId payload
          else if String.eqb type "REORDER_TASKS" then
            if not_an_object payload then Invalid "REORDER_TASKS requires a payload object"
            else Valid
          else if String.eqb type "SET_VIEW" then
            if negb (validateViewType payload) then Invalid "Invalid view type" else Valid
          else if String.eqb type "SET_REORDER_MODE" then
            if negb (String.eqb (typeof payload) "boolean") then
              Invalid "SET_REORDER_MODE requires boolean payload"
            else Valid
          else if String.eqb type "SET_EDITING_TASK" then
            if negb (strict_eq payload VNull) then validateTaskId payload else Valid
          else if String.eqb type "SET_TAG_FILTER" then
            if negb (strict_eq payload VNull) && negb (String.eqb (typeof payload) "string")
            then Invalid "SET_TAG_FILTER requires string or null payload"
            else Valid
          else if String.eqb type "BATCH_DELETE" || String.eqb type "BATCH_COMPLETE" then
            match payload with
            | VArr ids => validateIdList ids
            | _ => Invalid "Batch actions require array payload"
            end
          else if String.eqb type "SET_THEME" then
            if not_an_object payload then Invalid "SET_THEME requires theme config object"
            else Valid
          else if String.eqb type "TOGGLE_MULTI_SELECT" || String.eqb type "CLEAR_SELECTIONS"
          then Valid
          else Invalid ("Unknown action type: " +:+ type)
    | _ => Invalid "Action must have a type string"
    end.

(** The fifteen action types of [Action] in [types/State.ts]. *)
Definition action_types : list string :=
  [ "ADD_TASK"; "UPDATE_TASK"; "DELETE_TASK"; "TOGGLE_COMPLETE"; "REORDER_TASKS";
    "SET_VIEW"; "TOGGLE_MULTI_SELECT"; "TOGGLE_TASK_SELECTION"; "CLEAR_SELECTIONS";
    "SET_REORDER_MODE"; "SET_EDITING_TASK"; "SET_THEME"; "BATCH_DELETE";
    "BATCH_COMPLETE"; "SET_TAG_FILTER" ].

(** ** Error feedback ([utils/errorFeedback.ts]) *)

Inductive ErrorSeverity := info | warning | error.

(** What [reportError] publishes; the timestamp and the id of the feedback
    entry are left out. The reducer schedules every report with
    [setTimeout(..., 0)], so reports are an output next to the new state. *)
Record ErrorFeedback := Feedback { message : string; severity : ErrorSeverity }.

Definition mapValidationError (error : string) : string :=
  if includes error "empty" then "Please enter a valid task description"
  else if includes error "too long" then "Task description is too long"
  else if includes error "priority" then "Please select a valid priority level"
  else if includes error "due date" then "Please select a valid due date"
  else if includes error "tag" then "Please check your tags"
  else if includes error "not found" || includes error "non-existent" then "Task not found"
  else "Something went wrong. Please try again".

(** ** Id generation ([utils/idGenerator.ts]) *)

(** What one reducer call reads from its surroundings: the clock reading
    taken inside [generateId], the nine base-36 digits that
    [Math.random().toString(36).substr(2, 9)] yields, and the later clock
    reading stored in [createdAt]. *)
Record World := {
  idTimestamp : Z;
  randomSuffix : string;
  createdNow : Z;
}.

Definition generateId (w : World) : string :=
  "task_" +:+ pretty (idTimestamp w) +:+ "_" +:+ randomSuffix w.

(** ** The state ([types/State.ts], [types/Task.ts]) *)

(** ['all' | 'today' | 'upcoming' | 'priority' | 'completed'] *)
Inductive ViewType := All | Today | Upcoming | Priority | Completed.

Record UIState := {
  selectedView : ViewType;
  multiSelectMode : bool;
  selectedTaskIds : gset string;
  reorderMode : bool;
  editingTaskId : option string;
  selectedTag : option string;
}.

Record AppState := {
  tasks : list Obj;
  ui : UIState;
  theme : JsVal;
}.

(** [task.k] for a task object. *)
Definition field (task : Obj) (k : string) : JsVal := default VUndef (task !! k).

(** [{ ...state, tasks }], [{ ...state, ui }] and [{ ...state, theme }]. *)
Definition with_tasks (state : AppState) (ts : list Obj) : AppState :=
  {| tasks := ts; ui := ui state; theme := theme state |}.
Definition with_ui (state : AppState) (u : UIState) : AppState :=
  {| tasks := tasks state; ui := u; theme := theme state |}.
Definition with_theme (state : AppState) (th : JsVal) : AppState :=
  {| tasks := tasks state; ui := ui state; theme := th |}.

(** The single-field updates [{ ...state.ui, field: value }]. *)
Definition ui_view (u : UIState) (v : ViewType) : UIState :=
  {| selectedView := v; multiSelectMode := multiSelectMode u;
     selectedTaskIds := selectedTaskIds u; reorderMode := reorderMode u;
     editingTaskId := editingTaskId u; selectedTag := selectedTag u |}.
Definition ui_selection (u : UIState) (multi : bool) (sel : gset string) : UIState :=
  {| selectedView := selectedView u; multiSelectMode := multi;
     selectedTaskIds := sel; reorderMode := reorderMode u;
     editingTaskId := editingTaskId u; selectedTag := selectedTag u |}.
Definition ui_reorder (u : UIState) (b : bool) : UIState :=
  {| selectedView := selectedView u; multiSelectMode := multiSelectMode u;
     selectedTaskIds := selectedTaskIds u; reorderMode := b;
     editingTaskId := editingTaskId u; selectedTag := selectedTag u |}.
Definition ui_editing (u : UIState) (sel : gset string) (e : option string) : UIState :=
  {| selectedView := selectedView u; multiSelectMode := multiSelectMode u;
     selectedTaskIds := sel; reorderMode := reorderMode u;
     editingTaskId := e; selectedTag := selectedTag u |}.
Definition ui_tag (u : UIState) (t : option string) : UIState :=
  {| selectedView := selectedView u; multiSelectMode := multiSelectMode u;
     selectedTaskIds := selectedTaskIds u; reorderMode := reorderMode u;
     editingTaskId := editingTaskId u; selectedTag := t |}.

(** [initialState] of [state/context.tsx]; the theme is opaque here. *)
Definition initialState (defaultTheme : JsVal) : AppState :=
  {| tasks := [];
     ui := {| selectedView := All; multiSelectMode := false; selectedTaskIds := ∅;
              reorderMode := false; editingTaskId := None; selectedTag := None |};
     theme := defaultTheme |}.

(** Typed payloads read back once [validateAction] has accepted them. *)
Definition viewType_of (v : JsVal) : option ViewType :=
  match v with
  | VStr s =>
      if String.eqb s "all" then Some All
      else if String.eqb s "today" then Some Today
      else if String.eqb s "upcoming" then Some Upcoming
      else if String.eqb s "priority" then Some Priority
      else if String.eqb s "completed" then Some Completed
      else None
  | _ => None
  end.

Definition string_or_null (v : JsVal) : option string :=
  match v with VStr s => Some s | _ => None end.

Definition val_of_option (o : option string) : JsVal :=
  match o with Some s => VStr s | None => VNull end.

(** [v.trim()] on a string (the call throws on anything else). *)
Definition js_trim (v : JsVal) : JsVal :=
  match v with VStr s => VStr (trim s) | _ => VUndef end.

(** [tasks.some(task => task.id === id)], which is also
    [new Set(tasks.map(task => task.id)).has(id)] for a string [id]. *)
Definition taskExists (ts : list Obj) (id : JsVal) : bool :=
  existsb (fun task => strict_eq (field task "id") id) ts.

(** [new Set(ids).has(v)] for a list of id strings. *)
Definition set_has (ids : list JsVal) (v : JsVal) : bool :=
  existsb (fun id => strict_eq id v) ids.

(** [const [removed] = arr.splice(i, 1)]: the array without position [i]. *)
Definition splice_out (i : nat) (l : list Obj) : list Obj := take i l ++ drop (S i) l.

(** [arr.splice(i, 0, x)]: [x] inserted at position [i]. *)
Definition splice_in (i : nat) (x : Obj) (l : list Obj) : list Obj :=
  take i l ++ x :: drop i l.

(** ** The reducer ([state/reducer.ts]) *)

(** A reducer call yields the next state and the reports it scheduled. *)
Definition Step : Type := AppState * list ErrorFeedback.

Definition unchanged (state : AppState) (r : ErrorFeedback) : Step := (state, [r]).
Definition next (state : AppState) : Step := (state, []).

Definition notFound : ErrorFeedback := Feedback "Task not found" warning.

Definition addTask (w : World) (state : AppState) (payload : JsVal) : Step :=
  let newTask : Obj :=
    list_to_map
      [ ("id", VStr (generateId w));
        ("description", js_trim (prop payload "description"));
        ("completed", VBool false);
        ("createdAt", VNum (num_of_Z (createdNow w)));
        ("priority", js_or (prop payload "priority") (VStr "medium"));
        ("dueDate", js_nullish (prop payload "dueDate") VNull);
        ("tags", js_or (prop payload "tags") (VArr [])) ] in
  next (with_tasks state (tasks state ++ [newTask])).

Definition updateTask (state : AppState) (payload : JsVal) : Step :=
  let id := prop payload "id" in
  if negb (taskExists (tasks state) id) then unchanged state notFound
  else
    next (with_tasks state
            (map (fun task =>
                    if strict_eq (field task "id") id
                    then own_props (prop payload "updates") ∪ task
                    else task)
                 (tasks state))).

Definition deleteTask (state : AppState) (payload : JsVal) : Step :=
  if negb (taskExists (tasks state) payload) then unchanged state notFound
  else
    next {| tasks := List.filter (fun task => negb (strict_eq (field task "id") payload))
                                 (tasks state);
            ui := ui_editing (ui state)
                    (filter (fun id => strict_eq (VStr id) payload = false)
                            (selectedTaskIds (ui state)))
                    (if strict_eq (val_of_option (editingTaskId (ui state))) payload
                     then None else editingTaskId (ui state));
            theme := theme state |}.

Definition toggleComplete (state : AppState) (payload : JsVal) : Step :=
  if negb (taskExists (tasks state) payload) then unchanged state notFound
  else
    next (with_tasks state
            (map (fun task =>
                    if strict_eq (field task "id") payload
                    then <["completed" := VBool (negb (truthy (field task "completed")))]> task
                    else task)
                 (tasks state))).

Definition reorderTasks (state : AppState) (payload : JsVal) : Step :=
  let fromIndex := prop payload "fromIndex" in
  let toIndex := prop payload "toIndex" in
  match validateReorderIndices fromIndex toIndex (length (tasks state)) with
  | Invalid _ => unchanged state (Feedback "Cannot reorder tasks" warning)
  | Valid =>
      match fromIndex, toIndex with
      | VNum f, VNum t =>
          let i := Z.to_nat (Num.toZ f) in
          let j := Z.to_nat (Num.toZ t) in
          match tasks state !! i with
          | Some removed =>
              next (with_tasks state (splice_in j removed (splice_out i (tasks state))))
          | None => next state
          end
      | _, _ => next state
      end
  end.

Definition toggleMultiSelect (state : AppState) : Step :=
  next (with_ui state
          (ui_selection (ui state)
             (negb (multiSelectMode (ui state)))
             (if multiSelectMode (ui state) then ∅ else selectedTaskIds (ui state)))).

Definition toggleTaskSelection (state : AppState) (payload : JsVal) : Step :=
  if negb (taskExists (tasks state) payload) then unchanged state notFound
  else
    match payload with
    | VStr id =>
        let selected := selectedTaskIds (ui state) in
        let newSelectedIds :=
          if decide (id ∈ selected) then selected ∖ {[ id ]} else selected ∪ {[ id ]} in
        next (with_ui state
                (ui_selection (ui state) (multiSelectMode (ui state)) newSelectedIds))
    | _ => next state
    end.

Definition setEditingTask (state : AppState) (payload : JsVal) : Step :=
  if negb (strict_eq payload VNull) && negb (taskExists (tasks state) payload)
  then unchanged state notFound
  else
    next (with_ui state
            (ui_editing (ui state) (selectedTaskIds (ui state)) (string_or_null payload))).

Definition batchDelete (state : AppState) (payload : list JsVal) : Step :=
  let validIdsToDelete := List.filter (taskExists (tasks state)) payload in
  if length validIdsToDelete =? 0 then
    unchanged state (Feedback "No tasks to delete" info)
  else
    next {| tasks := List.filter (fun task => negb (set_has validIdsToDelete (field task "id")))
                                 (tasks state);
            ui := ui_selection (ui state) false ∅;
            theme := theme state |}.

Definition batchComplete (state : AppState) (payload : list JsVal) : Step :=
  let validIdsToComplete := List.filter (taskExists (tasks state)) payload in
  if length validIdsToComplete =? 0 then
    unchanged state (Feedback "No tasks to complete" info)
  else
    next {| tasks := map (fun task =>
                            if set_has validIdsToComplete (field task "id")
                            then <["completed" := VBool true]> task
                            else task)
                         (tasks state);
            ui := ui_selection (ui state) false ∅;
            theme := theme state |}.

(** [appReducer(state, action)]. The typed reads ([viewType_of], the
    [VBool] and [VArr] matches) cannot fail once [validateAction] has
    accepted the action; their fall-through returns the state as the
    [default:] branch of the source does. *)
Definition appReducer (w : World) (state : AppState) (action : JsVal) : Step :=
  match validateAction action with
  | Invalid validationError =>
      unchanged state (Feedback (mapValidationError validationError) error)
  | Valid =>
      let payload := prop action "payload" in
      match prop action "type" with
      | VStr type =>
          if String.eqb type "ADD_TASK" then addTask w state payload
          else if String.eqb type "UPDATE_TASK" then updateTask state payload
          else if String.eqb type "DELETE_TASK" then deleteTask state payload
          else if String.eqb type "TOGGLE_COMPLETE" then toggleComplete state payload
          else if String.eqb type "REORDER_TASKS" then reorderTasks state payload
          else if String.eqb type "SET_VIEW" then
            match viewType_of payload with
            | Some v => next (with_ui state (ui_view (ui state) v))
            | None => next state
            end
          else if String.eqb type "TOGGLE_MULTI_SELECT" then toggleMultiSelect state
          else if String.eqb type "TOGGLE_TASK_SELECTION" then toggleTaskSelection state payload
          else if String.eqb type "CLEAR_SELECTIONS" then
            next (with_ui state (ui_selection (ui state) (multiSelectMode (ui state)) ∅))
          else if String.eqb type "SET_REORDER_MODE" then
            match payload with
            | VBool b => next (with_ui state (ui_reorder (ui state) b))
            | _ => next state
            end
          else if String.eqb type "SET_EDITING_TASK" then setEditingTask state payload
          else if String.eqb type "SET_THEME" then next (with_theme state payload)
          else if String.eqb type "BATCH_DELETE" then
            match payload with
            | VArr ids => batchDelete state ids
            | _ => next state
            end
          else if String.eqb type "BATCH_COMPLETE" then
            match payload with
            | VArr ids => batchComplete state ids
            | _ => next state
            end
          else if String.eqb type "SET_TAG_FILTER" then
            next (with_ui state (ui_tag (ui state) (string_or_null payload)))
          else next state
      | _ => next state
      end
  end.

(** The state after dispatching [action]. *)
Definition reduce (w : World) (state : AppState) (action : JsVal) : AppState :=
  fst (appReducer w state action).

(** The state after a sequence of dispatches, each with its own
    surroundings. *)
Definition run (state : AppState) (trace : list (World * JsVal)) : AppState :=
  foldl (fun s wa => reduce (fst wa) s (snd wa)) state trace.

(** Action literals. *)
Definition action (type : string) (payload : JsVal) : JsVal :=
  VObj (list_to_map [("type", VStr type); ("payload", payload)]).
Definition action0 (type : string) : JsVal :=
  VObj (list_to_map [("type", VStr type)]).

(** ** The selectors ([state/selectors.ts]) *)

(** Identity of heap objects. The selectors compare arrays and tasks with
    [===], which for objects is identity, not contents: a value of
    [Ref A] is an object with contents [target] living at address [addr]. *)
Record Ref (A : Type) := ref { addr : nat; target : A }.
Arguments ref {A} addr target.
Arguments addr {A} r.
Arguments target {A} r.

(** [x === y] for two objects. *)
Definition same_ref {A : Type} (x y : Ref A) : bool := addr x =? addr y.

(** An [AppState] object as a selector receives it: [state.tasks] is an
    array object holding task objects. *)
Record Snapshot := {
  tasksRef : Ref (list (Ref Obj));
  uiOf : UIState;
  themeOf : JsVal;
}.

(** The [AppState] value a snapshot holds. *)
Definition snapshot_state (snap : Snapshot) : AppState :=
  {| tasks := map target (target (tasksRef snap)); ui := uiOf snap; theme := themeOf snap |}.

(** What a result function may read besides its input: the clock
    ([new Date()]) and the offset of local time from UTC, in
    milliseconds. *)
Record Clock := { nowMs : Z; tzOffsetMs : Z }.

(** [defaultEqualityFn]: [prev === next], on objects and on primitive
    values. *)
Definition defaultEqualityFn {A : Type} (prev next : Ref A) : bool := same_ref prev next.
Definition defaultEqualityFn_val (prev next : JsVal) : bool := strict_eq prev next.

(** The loop of [arrayEqualityFn]; the lengths are equal when it runs. *)
Fixpoint elements_identical {A : Type} (prev next : list (Ref A)) : bool :=
  match prev, next with
  | p :: prev', n :: next' => if negb (same_ref p n) then false else elements_identical prev' next'
  | _, _ => true
  end.

Definition arrayEqualityFn {A : Type} (prev next : Ref (list (Ref A))) : bool :=
  if same_ref prev next then true
  else if negb (length (target prev) =? length (target next)) then false
  else elements_identical (target prev) (target next).

Section CreateSelector.

Context {State Input Result : Type}.

(** [input === undefined], for the input type at hand. *)
Variable isUndefined : Input → bool.
Variable inputSelector : State → Input.
Variable resultFn : Clock → Input → Result.
Variable equalityFn : Input → Input → bool.

(** The three variables the returned closure captures; [None] is the
    [undefined] a variable holds before its first assignment. *)
Record Cache := {
  lastInput : option Input;
  lastResult : option Result;
  hasRun : bool;
}.

Definition emptyCache : Cache :=
  {| lastInput := None; lastResult := None; hasRun := false |}.

(** What a call hands back: the stored [lastResult] itself, or the
    result of a fresh run of [resultFn]. *)
Inductive Outcome :=
  | Cached (r : option Result)
  | Computed (r : Result).

Definition value (o : Outcome) : option Result :=
  match o with Cached r => r | Computed r => Some r end.

Definition computed (o : Outcome) : bool :=
  match o with Cached _ => false | Computed _ => true end.

(** One call of the selector [createSelector] returns. *)
Definition createSelector (cache : Cache) (now : Clock) (state : State) : Outcome * Cache :=
  let currentInput := inputSelector state in
  if hasRun cache
     && match lastInput cache with
        | Some input => negb (isUndefined input) && equalityFn input currentInput
        | None => false
        end
  then (Cached (lastResult cache), cache)
  else
    let currentResult := resultFn now currentInput in
    (Computed currentResult,
     {| lastInput := Some currentInput; lastResult := Some currentResult; hasRun := true |}).

(** Successive calls of one selector, oldest first. *)
Fixpoint calls (cache : Cache) (inputs : list (Clock * State)) : list Outcome :=
  match inputs with
  | [] => []
  | (now, state) :: rest =>
      let '(o, cache') := createSelector cache now state in
      o :: calls cache' rest
  end.

(** How often [resultFn] ran. *)
Definition computeCount (os : list Outcome) : nat := length (List.filter computed os).

End CreateSelector.

(** *** Dates *)

Definition msPerDay : Z := 86400000.

(** A [Date] object: its time value, [None] for an invalid date. *)
Definition Date : Type := option Z.

(** [new Date(v)] for a number [v]: the time value is the number truncated,
    or invalid beyond 8.64e15 ms. [Task.dueDate] is [number | null] and
    the selectors build dates from truthy due dates only. Numbers are the
    only values converted here: a host also converts [true], date strings
    and arrays, which an UPDATE_TASK can store in spite of the type, so
    what is stated below about the dates of the views is stated of tasks
    whose [dueDate] is a number, [null] or [undefined]; for those the date
    is the one the code builds. *)
Definition Date_of (v : JsVal) : Date :=
  match v with
  | VNum (Fin q) =>
      let t := Num.toZ (Fin q) in
      if (Z.abs t <=? 8640000000000000)%Z then Some t else None
  | _ => None
  end.

(** [startOfDay]: [setHours(0, 0, 0, 0)], midnight of the local day. *)
Definition startOfDay (c : Clock) (date : Date) : Date :=
  match date with
  | Some t => Some (t - (t + tzOffsetMs c) `mod` msPerDay)%Z
  | None => None
  end.

(** [addDays]: [setDate(getDate() + days)]. Local days are taken to be 24
    hours long (a fixed offset from UTC, no daylight saving shift). *)
Definition addDays (date : Date) (days : Z) : Date :=
  match date with
  | Some t => Some (t + days * msPerDay)%Z
  | None => None
  end.

(** [a < b], [a <= b] and [a >= b] on dates; false when one is invalid. *)
Definition date_lt (a b : Date) : bool :=
  match a, b with Some x, Some y => (x <? y)%Z | _, _ => false end.
Definition date_le (a b : Date) : bool :=
  match a, b with Some x, Some y => (x <=? y)%Z | _, _ => false end.
Definition date_ge (a b : Date) : bool := date_le b a.

(** *** Smart views *)

Definition todayTasks (c : Clock) (tasks : Ref (list (Ref Obj))) : list (Ref Obj) :=
  let today := startOfDay c (Some (nowMs c)) in
  let todayEnd := addDays today 1 in
  List.filter
    (fun task =>
       if negb (truthy (field (target task) "dueDate")) || truthy (field (target task) "completed")
       then false
       else
         let dueDate := Date_of (field (target task) "dueDate") in
         date_lt dueDate todayEnd)
    (target tasks).

Definition upcomingTasks (c : Clock) (tasks : Ref (list (Ref Obj))) : list (Ref Obj) :=
  let today := startOfDay c (Some (nowMs c)) in
  let tomorrow := addDays today 1 in
  let weekFromNow := addDays today 7 in
  List.filter
    (fun task =>
       if negb (truthy (field (target task) "dueDate")) || truthy (field (target task) "completed")
       then false
       else
         let dueDate := Date_of (field (target task) "dueDate") in
         date_ge dueDate tomorrow && date_le dueDate weekFromNow)
    (target tasks).

Definition highPriorityTasks (c : Clock) (tasks : Ref (list (Ref Obj))) : list (Ref Obj) :=
  List.filter
    (fun task =>
       negb (truthy (field (target task) "completed"))
       && (is_str (field (target task) "priority") "high"
           || is_str (field (target task) "priority") "critical"))
    (target tasks).

Definition completedTasks (c : Clock) (tasks : Ref (list (Ref Obj))) : list (Ref Obj) :=
  List.filter (fun task => truthy (field (target task) "completed")) (target tasks).

(** The memoized smart views: [createSelector(state => state.tasks, ...,
    arrayEqualityFn)]. The task array is never [undefined]. *)
Definition selectTodayTasks :=
  createSelector (fun _ => false) tasksRef todayTasks arrayEqualityFn.
Definition selectUpcomingTasks :=
  createSelector (fun _ => false) tasksRef upcomingTasks arrayEqualityFn.
Definition selectHighPriorityTasks :=
  createSelector (fun _ => false) tasksRef highPriorityTasks arrayEqualityFn.
Definition selectCompletedTasks :=
  createSelector (fun _ => false) tasksRef completedTasks arrayEqualityFn.

(** * The vocabulary of the claims *)

(** ** No-ops of the reducer *)

(** The single-item actions that name a task by id. *)
Definition single_item_types : list string :=
  [ "DELETE_TASK"; "TOGGLE_COMPLETE"; "UPDATE_TASK"; "SET_EDITING_TASK";
    "TOGGLE_TASK_SELECTION" ].

(** Where a single-item action carries its id: [payload.id] for UPDATE_TASK,
    [payload] for the others. *)
Definition target_id (a : JsVal) : JsVal :=
  if is_str (prop a "type") "UPDATE_TASK" then prop (prop a "payload") "id"
  else prop a "payload".

Definition rejected (a : JsVal) : Prop := isValid (validateAction a) = false.

Definition unknown_type (a : JsVal) : Prop :=
  ∃ type, prop a "type" = VStr type ∧ type ∉ action_types.

Definition stale_id (s : AppState) (a : JsVal) : Prop :=
  ∃ type id,
    prop a "type" = VStr type ∧ type ∈ single_item_types ∧
    target_id a = VStr id ∧ validateTaskId (VStr id) = Valid ∧
    Forall (fun task => field task "id" ≠ VStr id) (tasks s).

(** ** TOGGLE_COMPLETE *)

(** [completed: boolean] of [Task], for the tasks an id names. *)
Definition completed_is_boolean (task : Obj) : Prop :=
  ∃ b, task !! "completed" = Some (VBool b).

Definition toggled (id : JsVal) (task : Obj) : Obj :=
  if strict_eq (field task "id") id
  then <["completed" := VBool (negb (truthy (field task "completed")))]> task
  else task.

(** What one TOGGLE_COMPLETE of [id] may do to a state: nothing outside the
    task list, nothing to a task with another id, nothing but the
    [completed] property of a task with that id. *)
Definition toggle_frame (id : string) (s s' : AppState) : Prop :=
  ui s' = ui s ∧ theme s' = theme s ∧ length (tasks s') = length (tasks s) ∧
  ∀ i task, tasks s !! i = Some task →
    ∃ task', tasks s' !! i = Some task' ∧
      (∀ k, k ≠ "completed" → task' !! k = task !! k) ∧
      (field task "id" ≠ VStr id → task' = task).

(** The double toggle as the specification words it: in every state, for
    every id of a task of the list, the [completed] flag of the task is back
    at its value after two applications, and neither application changes
    anything else. *)
Definition toggle_twice_claim : Prop :=
  ∀ (w1 w2 : World) (s : AppState) (id : string),
    taskExists (tasks s) (VStr id) = true →
    let a := action "TOGGLE_COMPLETE" (VStr id) in
    let s1 := reduce w1 s a in
    let s2 := reduce w2 s1 a in
    toggle_frame id s s1 ∧ toggle_frame id s1 s2 ∧
    ∀ i task, tasks s !! i = Some task → field task "id" = VStr id →
      ∃ task2, tasks s2 !! i = Some task2 ∧
               field task2 "completed" = field task "completed".

(** ** UPDATE_TASK *)

(** [{ ...task, ...updates }] for the task the id names. *)
Definition merged (id updates : JsVal) (task : Obj) : Obj :=
  if strict_eq (field task "id") id then own_props updates ∪ task else task.

(** The update as the specification words it: the id is any non-empty
    string that names a task. *)
Definition update_task_claim : Prop :=
  ∀ (w : World) (s : AppState) (payload : Obj) (id : string) (updates : JsVal),
    payload !! "id" = Some (VStr id) → id ≠ "" →
    payload !! "updates" = Some updates → not_an_object updates = false →
    taskExists (tasks s) (VStr id) = true →
    let s' := reduce w s (action "UPDATE_TASK" (VObj payload)) in
    ui s' = ui s ∧ theme s' = theme s ∧ length (tasks s') = length (tasks s) ∧
    ∀ i task, tasks s !! i = Some task →
      (field task "id" = VStr id → tasks s' !! i = Some (own_props updates ∪ task)) ∧
      (field task "id" ≠ VStr id → tasks s' !! i = Some task).

(** ** REORDER_TASKS *)

(** The value [v] is the number [i]. *)
Definition index_is (v : JsVal) (i : nat) : Prop :=
  ∃ n, v = VNum n ∧ Num.eqb n (num_of_nat i) = true.

(** The value [v] is an integer of [[0, len)]. *)
Definition valid_index (len : nat) (v : JsVal) : Prop :=
  ∃ i, i < len ∧ index_is v i.

(** ** BATCH_DELETE *)

(** The id of a task when it is a string. *)
Definition id_string (task : Obj) : option string := string_or_null (field task "id").

(** The ids of the task list, as a set. *)
Definition id_set (ts : list Obj) : gset string := list_to_set (omap id_string ts).

(** The payload array for the id strings [P]. *)
Definition id_array (P : list string) : JsVal := VArr (map VStr P).

(** The id of [task] is one of [P]. *)
Definition id_in (P : list string) (task : Obj) : bool :=
  set_has (map VStr P) (field task "id").

(** What BATCH_DELETE of the ids [P] does when one of them names a task. *)
Definition batch_deleted (P : list string) (s s' : AppState) : Prop :=
  tasks s' = List.filter (fun task => negb (id_in P task)) (tasks s) ∧
  selectedTaskIds (ui s') = ∅ ∧ multiSelectMode (ui s') = false ∧
  selectedView (ui s') = selectedView (ui s) ∧ reorderMode (ui s') = reorderMode (ui s) ∧
  editingTaskId (ui s') = editingTaskId (ui s) ∧ selectedTag (ui s') = selectedTag (ui s) ∧
  theme s' = theme s.

(** The surroundings of a call [n] milliseconds after 2023-11-14 22:13:20
    UTC, with the random digits [k3x9q2m1a]. *)
Definition world_at (n : Z) : World :=
  {| idTimestamp := 1700000000000 + n; randomSuffix := "k3x9q2m1a";
     createdNow := 1700000000000 + n |}.

(** The ids [generateId] gives at [world_at 1] to [world_at 4], and an id
    no task below carries. *)
Definition id1 : string := "task_1700000000001_k3x9q2m1a".
Definition id2 : string := "task_1700000000002_k3x9q2m1a".
Definition id3 : string := "task_1700000000003_k3x9q2m1a".
Definition id4 : string := "task_1700000000004_k3x9q2m1a".
Definition ghost : string := "task_1600000000000_zzzzzzzzz".

(** Two tasks that end up with one id: the second ADD_TASK is followed by
    an UPDATE_TASK that overwrites its id. *)
Definition twin_trace : list (World * JsVal) :=
  [ (world_at 1, action "ADD_TASK" (VObj {[ "description" := VStr "Buy milk" ]}));
    (world_at 2, action "ADD_TASK" (VObj {[ "description" := VStr "Buy bread" ]}));
    (world_at 3,
     action "UPDATE_TASK"
       (VObj (list_to_map
                [ ("id", VStr id2);
                  ("updates", VObj {[ "id" := VStr id1 ]}) ]))) ].

Definition twin_state : AppState := run (initialState VNull) twin_trace.

(** The batch delete as the specification words it: the count drops by
    the size of the intersection, in every state. *)
Definition batch_delete_claim : Prop :=
  ∀ (w : World) (s : AppState) (P : list string),
    Forall (fun i => validateTaskId (VStr i) = Valid) P →
    let s' := reduce w s (action "BATCH_DELETE" (id_array P)) in
    let common : gset string := list_to_set P ∩ id_set (tasks s) in
    (common = ∅ → s' = s) ∧
    (common ≠ ∅ →
       tasks s' = List.filter (fun task => negb (id_in P task)) (tasks s) ∧
       selectedTaskIds (ui s') = ∅ ∧ multiSelectMode (ui s') = false ∧
       length (tasks s') = length (tasks s) - size common).

(** ** ADD_TASK *)

(** The digits of a clock reading hold no underscore, so the timestamp and
    the suffix can be read back from a generated id. *)
Fixpoint no_underscore (s : string) : Prop :=
  match s with
  | EmptyString => True
  | String c s' => c ≠ "_"%char ∧ no_underscore s'
  end.

(** The task creation as the specification words it: the new id is
    distinct from every id in use. *)
Definition add_task_claim : Prop :=
  ∀ (w : World) (s : AppState) (payload : JsVal),
    validateAction (action "ADD_TASK" payload) = Valid →
    let s' := reduce w s (action "ADD_TASK" payload) in
    ∃ d newTask,
      prop payload "description" = VStr d ∧
      tasks s' = tasks s ++ [newTask] ∧
      newTask !! "completed" = Some (VBool false) ∧
      newTask !! "description" = Some (VStr (trim d)) ∧
      Forall (fun task => field task "id" ≠ field newTask "id") (tasks s).

Definition milk : JsVal := VObj {[ "description" := VStr "Buy milk" ]}.
Definition bread : JsVal := VObj {[ "description" := VStr " Buy bread " ]}.

(** The state after one ADD_TASK. *)
Definition one_task_state : AppState :=
  reduce (world_at 1) (initialState VNull) (action "ADD_TASK" milk).

Definition eggs : JsVal :=
  VObj (list_to_map [ ("description", VStr "Buy eggs"); ("priority", VStr "high");
                      ("tags", VArr [VStr "shop"]) ]).

(** Three tasks, with the ids [task_1700000000001_k3x9q2m1a],
    [task_1700000000002_k3x9q2m1a] and [task_1700000000003_k3x9q2m1a]. *)
Definition three_task_state : AppState :=
  run (initialState VNull)
    [ (world_at 1, action "ADD_TASK" milk);
      (world_at 2, action "ADD_TASK" bread);
      (world_at 3, action "ADD_TASK" eggs) ].

(** [{ fromIndex, toIndex }] *)
Definition move (fromIndex toIndex : Z) : JsVal :=
  VObj (list_to_map [ ("fromIndex", VNum (num_of_Z fromIndex));
                      ("toIndex", VNum (num_of_Z toIndex)) ]).

(** [{ id: id1, updates: { description: 'Buy oat milk', completed: true } }] *)
Definition oat_milk_update : Obj :=
  list_to_map
    [ ("id", VStr id1);
      ("updates", VObj (list_to_map [ ("description", VStr "Buy oat milk");
                                      ("completed", VBool true) ])) ].

(** A dispatch sequence that selects a task in multi-select mode and then
    leaves the mode. *)
Definition select_and_leave : list (World * JsVal) :=
  [ (world_at 1, action "ADD_TASK" milk);
    (world_at 2, action0 "TOGGLE_MULTI_SELECT");
    (world_at 3, action "TOGGLE_TASK_SELECTION" (VStr id1));
    (world_at 4, action0 "TOGGLE_MULTI_SELECT") ].

(** A dispatch sequence with an UPDATE_TASK that sets a description. *)
Definition add_and_rename : list (World * JsVal) :=
  [ (world_at 1, action "ADD_TASK" milk);
    (world_at 2, action "UPDATE_TASK" (VObj oat_milk_update)) ].

(** [{ id: id1, updates: { completed: undefined } }]: a property of a
    [Partial<Task>] may be [undefined]. *)
Definition undefined_completed_update : Obj :=
  list_to_map [ ("id", VStr id1); ("updates", VObj {[ "completed" := VUndef ]}) ].

(** The state after an ADD_TASK and that update: the spread has stored
    [completed: undefined] in the one task. *)
Definition undefined_completed_state : AppState :=
  reduce (world_at 2) one_task_state (action "UPDATE_TASK" (VObj undefined_completed_update)).

(** The state after an ADD_TASK and an UPDATE_TASK that overwrites the id
    of the task with a blank, and an update that names the task by that
    id. *)
Definition blank_id_state : AppState :=
  reduce (world_at 2) one_task_state
    (action "UPDATE_TASK"
       (VObj (list_to_map [ ("id", VStr id1); ("updates", VObj {[ "id" := VStr " " ]}) ]))).

Definition blank_id_update : Obj :=
  list_to_map [ ("id", VStr " ");
                ("updates", VObj {[ "description" := VStr "Buy oat milk" ]}) ].

(** ** Invariants along dispatch sequences *)

(** Case analysis on one reducer call: either the state comes back as it
    was, or the action passed validation and one handler ran. *)
Ltac reducer_cases w s a :=
  unfold reduce, appReducer;
  let Hvalid := fresh "Hvalid" in
  let Htype := fresh "Htype" in
  destruct (validateAction a) eqn:Hvalid; [|try done];
  cbv zeta;
  destruct (prop a "type") eqn:Htype; try done;
  repeat match goal with
         | |- context [if String.eqb ?t ?c then _ else _] =>
             let E := fresh "Etype" in
             destruct (String.eqb t c) eqn:E; [apply String.eqb_eq in E; subst t|]
         end;
  try done.

(** When multi-select mode is off nothing is selected. *)
Definition selection_invariant (s : AppState) : Prop :=
  multiSelectMode (ui s) = false → selectedTaskIds (ui s) = ∅.

(** A dispatch sequence that toggles the selection of a task only while
    multi-select mode is on. *)
Fixpoint selects_in_mode (s : AppState) (trace : list (World * JsVal)) : Prop :=
  match trace with
  | [] => True
  | (w, a) :: rest =>
      (is_str (prop a "type") "TOGGLE_TASK_SELECTION" = true → multiSelectMode (ui s) = true) ∧
      selects_in_mode (reduce w s a) rest
  end.

(** The selection invariant as the specification words it: it holds in
    every reachable state. *)
Definition selection_claim : Prop :=
  ∀ (defaultTheme : JsVal) (trace : list (World * JsVal)),
    selection_invariant (run (initialState defaultTheme) trace).

(** *** Descriptions *)

Fixpoint all_white (s : string) : bool :=
  match s with
  | EmptyString => true
  | String c s' => isWhite c && all_white s'
  end.

(** A task whose description is a string that is neither empty nor white
    space only. *)
Definition described (task : Obj) : Prop :=
  ∃ d, task !! "description" = Some (VStr d) ∧ ¬ blank d.

Definition description_invariant (s : AppState) : Prop := Forall described (tasks s).

(** An action that is no UPDATE_TASK, or an UPDATE_TASK whose updates carry
    no [description] or carry one that is a string with something else
    than white space in it. *)
Definition keeps_description (a : JsVal) : Prop :=
  is_str (prop a "type") "UPDATE_TASK" = true →
  match own_props (prop (prop a "payload") "updates") !! "description" with
  | None => True
  | Some (VStr d) => ¬ blank d
  | Some _ => False
  end.

(** The description invariant as the specification words it: it holds in
    every reachable state. *)
Definition description_claim : Prop :=
  ∀ (defaultTheme : JsVal) (trace : list (World * JsVal)),
    description_invariant (run (initialState defaultTheme) trace).

Definition blank_update : JsVal :=
  action "UPDATE_TASK"
    (VObj (list_to_map
             [ ("id", VStr id1);
               ("updates", VObj {[ "description" := VStr "   " ]}) ])).

(** ** The Upcoming view *)

(** [completed: boolean] and [dueDate: number | null] of [Task]: what the
    date views read from a task. *)
Definition dated (task : Obj) : Prop :=
  completed_is_boolean task ∧
  (field task "dueDate" = VNull ∨ ∃ n, field task "dueDate" = VNum n).

(** Midnight of the local day of the clock reading. *)
Definition today_of (c : Clock) : Z := (nowMs c - (nowMs c + tzOffsetMs c) `mod` msPerDay)%Z.

(** Midnight of the local day of the instant [t]: [startOfDay] on a valid
    date. *)
Definition day_start (c : Clock) (t : Z) : Z := (t - (t + tzOffsetMs c) `mod` msPerDay)%Z.

(** The Upcoming view as the specification words it, dates being compared
    by calendar day, both normalised to local midnight: the task has a due
    date (one that passes the test [!task.dueDate] of the views: a number
    other than 0 and [NaN]), is not completed, and the day of its due date
    is after today and at most seven days ahead, so that a task due at any
    time of the seventh day is in. *)
Definition upcoming_spec (c : Clock) (task : Obj) : Prop :=
  ∃ n due, field task "dueDate" = VNum n ∧ truthy (VNum n) = true ∧
           Date_of (VNum n) = Some due ∧
           field task "completed" = VBool false ∧
           (today_of c < day_start c due <= today_of c + 7 * msPerDay)%Z.

(** The view holds exactly those tasks, among tasks of the [Task] type. *)
Definition upcoming_claim : Prop :=
  ∀ (c : Clock) (snap : Snapshot) (task : Ref Obj),
    task ∈ target (tasksRef snap) → dated (target task) →
    (task ∈ upcomingTasks c (tasksRef snap) ↔ upcoming_spec c (target task)).

(** 2023-11-14 22:13:20 UTC, local time is UTC. *)
Definition sample_clock : Clock := {| nowMs := 1700000000000; tzOffsetMs := 0 |}.

(** Midnight of that day. *)
Definition sample_today : Z := 1699920000000.

Definition task_due (address : nat) (id : string) (due : Z) : Ref Obj :=
  ref address
    (list_to_map
       [ ("id", VStr id); ("description", VStr "Pay rent"); ("completed", VBool false);
         ("createdAt", VNum (num_of_Z 1699900000000)); ("priority", VStr "medium");
         ("dueDate", VNum (num_of_Z due)); ("tags", VArr []) ]).

(** Due today at 23:00, due on the seventh day at 10:00, and due at the
    midnight that begins tomorrow. *)
Definition due_today : Ref Obj :=
  task_due 1 id1 (sample_today + 82800000).
Definition due_day_seven : Ref Obj :=
  task_due 2 id2 (sample_today + 7 * 86400000 + 36000000).

Definition due_tomorrow : Ref Obj := task_due 3 id3 (sample_today + 86400000).

Definition sample_snapshot : Snapshot :=
  {| tasksRef := ref 0 [due_today; due_day_seven; due_tomorrow];
     uiOf := ui (initialState VNull); themeOf := VNull |}.

(** ** Memoization *)

Section MemoizationVocabulary.

Context {State Input Result : Type}.
Variable isUndefined : Input → bool.
Variable inputSelector : State → Input.
Variable resultFn : Clock → Input → Result.
Variable equalityFn : Input → Input → bool.

(** Any two calls of the sequence whose inputs the equality function
    identifies, the earlier one not [undefined], compute the same result. *)
Fixpoint calls_compatible (inputs : list (Clock * State)) : Prop :=
  match inputs with
  | [] => True
  | (now, state) :: rest =>
      (∀ now' state', (now', state') ∈ rest →
         isUndefined (inputSelector state) = false →
         equalityFn (inputSelector state) (inputSelector state') = true →
         resultFn now (inputSelector state) = resultFn now' (inputSelector state')) ∧
      calls_compatible rest
  end.

End MemoizationVocabulary.

(** Objects are not mutated in place: among the given states, one address
    holds one array, and one address holds one task. *)
Definition heap_consistent (snaps : list Snapshot) : Prop :=
  ∀ s s', s ∈ snaps → s' ∈ snaps →
    (addr (tasksRef s) = addr (tasksRef s') → tasksRef s = tasksRef s') ∧
    (∀ t t', t ∈ target (tasksRef s) → t' ∈ target (tasksRef s') →
             addr t = addr t' → t = t').

(** The calls of a selector on the states [snaps], all at clock [c]. *)
Definition at_clock (c : Clock) (snaps : list Snapshot) : list (Clock * Snapshot) :=
  map (fun snap => (c, snap)) snaps.






Definition empty_snapshot : Snapshot :=
  {| tasksRef := ref 0 []; uiOf := ui (initialState VNull); themeOf := VNull |}.



(** One task, before and after it is completed; the reducer has built a
    new task object and a new array. *)
Definition open_snapshot : Snapshot :=
  {| tasksRef := ref 10 [due_today]; uiOf := ui (initialState VNull); themeOf := VNull |}.
Definition done_snapshot : Snapshot :=
  {| tasksRef := ref 11 [ref 12 (<["completed" := VBool true]> (target due_today))];
     uiOf := ui (initialState VNull); themeOf := VNull |}.

(** ** The fixtures of the test suite *)

(** A task literal with a given [completed], [priority] and [dueDate]. *)
Definition task_literal (id description : string) (completed : bool) (priority : string)
    (dueDate : JsVal) : Obj :=
  list_to_map
    [ ("id", VStr id); ("description", VStr description); ("completed", VBool completed);
      ("createdAt", VNum (num_of_Z 1700000000000)); ("priority", VStr priority);
      ("dueDate", dueDate); ("tags", VArr []) ].

(** [initialState] of [multiSelect.test.tsx]: three tasks, the third
    completed. *)
Definition multiSelect_fixture (multi : bool) (selected : gset string) : AppState :=
  {| tasks := [ task_literal "1" "Task 1" false "medium" VNull;
                task_literal "2" "Task 2" false "high" VNull;
                task_literal "3" "Task 3" true "low" VNull ];
     ui := ui_selection (ui (initialState VNull)) multi selected;
     theme := VNull |}.

(** Midnight [n] days after today, as a due date. *)
Definition day_from_today (n : Z) : JsVal :=
  VNum (num_of_Z (sample_today + n * 86400000)).

(** [mockTasks] of [selectors.test.ts], at [sample_clock]: overdue, due
    today, due tomorrow, due in five days, due in ten days, completed and
    due today, without due date. *)
Definition mockTasks : Ref (list (Ref Obj)) :=
  ref 100
    [ ref 101 (task_literal "1" "Overdue task" false "medium" (day_from_today (-1)));
      ref 102 (task_literal "2" "Due today" false "high" (day_from_today 0));
      ref 103 (task_literal "3" "Due tomorrow" false "low" (day_from_today 1));
      ref 104 (task_literal "4" "Due next week" false "critical" (day_from_today 5));
      ref 105 (task_literal "5" "Due far future" false "medium" (day_from_today 10));
      ref 106 (task_literal "6" "Completed task" true "high" (day_from_today 0));
      ref 107 (task_literal "7" "No due date" false "high" VNull) ].

Definition mockState : Snapshot :=
  {| tasksRef := mockTasks; uiOf := ui (initialState VNull); themeOf := VNull |}.

(** The ids of the tasks of a view. *)
Definition view_ids (o : Outcome (Result := list (Ref Obj))) : list JsVal :=
  map (fun task => field (target task) "id") (default [] (value o)).

(** [tasks => tasks.length], the result function of the [createSelector]
    tests. *)
Definition taskCount (c : Clock) (tasks : Ref (list (Ref Obj))) : nat := length (target tasks).

(** A month after [sample_clock]. *)
Definition later_clock : Clock := {| nowMs := 1702592000000; tzOffsetMs := 0 |}.

(** * The rest of the modules

    The functions of the modules above that the embedding has left out so
    far, and the modules around them: the provider that feeds the reducer
    ([state/context.tsx]), the date utilities of the task rows
    ([utils/dateUtils.ts]), the listeners of the error feedback and the
    contrast thresholds of the themes ([utils/colorContrast.ts]). *)

(** ** The validator, continued *)

Definition sanitizeInput (input : string) : ValidationResult :=
  let trimmed := trim input in
  if String.length trimmed =? 0 then Invalid "Task description cannot be empty"
  else if 500 <? String.length trimmed then
    Invalid "Task description too long (max 500 characters)"
  else Valid.

(** ** The selectors, continued *)

Section CreateSelectorMulti.

Context {State Value Result : Type}.

(** [x === y] on the values the input selectors yield. *)
Variable identical : Value → Value → bool.
Variable inputSelectors : list (State → Value).
Variable resultFn : Clock → list Value → Result.







End CreateSelectorMulti.

(** *** The view on display *)

Definition allTasks (c : Clock) (tasks : Ref (list (Ref Obj))) : list (Ref Obj) := target tasks.

Definition selectAllTasks :=
  createSelector (fun _ => false) tasksRef allTasks arrayEqualityFn.

(** The caches of the five memoized views, which are constants of the
    module. *)
Record ViewCaches := {
  todayCache : Cache (Input := Ref (list (Ref Obj))) (Result := list (Ref Obj));
  upcomingCache : Cache (Input := Ref (list (Ref Obj))) (Result := list (Ref Obj));
  highPriorityCache : Cache (Input := Ref (list (Ref Obj))) (Result := list (Ref Obj));
  completedCache : Cache (Input := Ref (list (Ref Obj))) (Result := list (Ref Obj));
  allCache : Cache (Input := Ref (list (Ref Obj))) (Result := list (Ref Obj));
}.

Definition emptyCaches : ViewCaches :=
  {| todayCache := emptyCache; upcomingCache := emptyCache; highPriorityCache := emptyCache;
     completedCache := emptyCache; allCache := emptyCache |}.

(** [task.tags.includes(selectedTag)]: [Array.prototype.includes] when
    [task.tags] is an array, [String.prototype.includes] when it is a
    string, a [TypeError] ([None]) when it is anything else. *)
Definition tagsInclude (tags : JsVal) (tag : string) : option bool :=
  match tags with
  | VArr l => Some (existsb (fun t => strict_eq t (VStr tag)) l)
  | VStr s => Some (includes s tag)
  | _ => None
  end.

(** [tasks.filter(task => task.tags.includes(selectedTag))]; the first
    [TypeError] ends the call. *)
Fixpoint filterByTag (tag : string) (tasks : list (Ref Obj)) : option (list (Ref Obj)) :=
  match tasks with
  | [] => Some []
  | task :: rest =>
      match tagsInclude (field (target task) "tags") tag with
      | None => None
      | Some keep =>
          match filterByTag tag rest with
          | None => None
          | Some kept => Some (if keep then task :: kept else kept)
          end
      end
  end.

(** [selectTasksByView(state)]: the list on display, [None] when the call
    throws, and the caches as the call leaves them. *)
Definition selectTasksByView (caches : ViewCaches) (now : Clock) (state : Snapshot)
  : option (list (Ref Obj)) * ViewCaches :=
  let view := selectedView (uiOf state) in
  let selectedTag := selectedTag (uiOf state) in
  let '(tasks, caches') :=
    match view with
    | Today =>
        let '(o, cache) := selectTodayTasks (todayCache caches) now state in
        (value o,
         {| todayCache := cache; upcomingCache := upcomingCache caches;
            highPriorityCache := highPriorityCache caches;
            completedCache := completedCache caches; allCache := allCache caches |})
    | Upcoming =>
        let '(o, cache) := selectUpcomingTasks (upcomingCache caches) now state in
        (value o,
         {| todayCache := todayCache caches; upcomingCache := cache;
            highPriorityCache := highPriorityCache caches;
            completedCache := completedCache caches; allCache := allCache caches |})
    | Priority =>
        let '(o, cache) := selectHighPriorityTasks (highPriorityCache caches) now state in
        (value o,
         {| todayCache := todayCache caches; upcomingCache := upcomingCache caches;
            highPriorityCache := cache;
            completedCache := completedCache caches; allCache := allCache caches |})
    | Completed =>
        let '(o, cache) := selectCompletedTasks (completedCache caches) now state in
        (value o,
         {| todayCache := todayCache caches; upcomingCache := upcomingCache caches;
            highPriorityCache := highPriorityCache caches;
            completedCache := cache; allCache := allCache caches |})
    | All =>
        let '(o, cache) := selectAllTasks (allCache caches) now state in
        (value o,
         {| todayCache := todayCache caches; upcomingCache := upcomingCache caches;
            highPriorityCache := highPriorityCache caches;
            completedCache := completedCache caches; allCache := cache |})
    end in
  match tasks with
  | None => (None, caches')
  | Some tasks =>
      match selectedTag with
      | Some tag =>
          if String.eqb tag "" then (Some tasks, caches')
          else (filterByTag tag tasks, caches')
      | None => (Some tasks, caches')
      end
  end.

(** The filter a view applies to the task array. *)
Definition viewTasks (view : ViewType) : Clock → Ref (list (Ref Obj)) → list (Ref Obj) :=
  match view with
  | Today => todayTasks
  | Upcoming => upcomingTasks
  | Priority => highPriorityTasks
  | Completed => completedTasks
  | All => allTasks
  end.

(** *** The tags in use *)

(** The order of [Array.prototype.sort] without a comparator, on strings:
    by code units. *)
Definition code_unit_le (a b : string) : Prop := String.leb a b = true.

#[global] Instance code_unit_le_dec : RelDecision code_unit_le :=
  fun a b => bool_eq_dec (String.leb a b) true.

(** [tags.forEach(tag => tagSet.add(tag))]: a [Set] keeps its elements in
    the order they were first added. [None] when an element is no string:
    [Task.tags] is [string[]], other values are outside the model. *)
Fixpoint addTags (tagSet : list string) (tags : list JsVal) : option (list string) :=
  match tags with
  | [] => Some tagSet
  | VStr tag :: rest =>
      addTags (if bool_decide (tag ∈ tagSet) then tagSet else tagSet ++ [tag]) rest
  | _ :: _ => None
  end.

(** [state.tasks.forEach(task => task.tags.forEach(...))]; [None] when
    some [task.tags] is no array (the call throws). *)
Fixpoint collectTags (tagSet : list string) (tasks : list Obj) : option (list string) :=
  match tasks with
  | [] => Some tagSet
  | task :: rest =>
      match field task "tags" with
      | VArr tags =>
          match addTags tagSet tags with
          | Some tagSet' => collectTags tagSet' rest
          | None => None
          end
      | _ => None
      end
  end.

(** [Array.from(tagSet).sort()]. The elements are distinct strings, so
    every sorting algorithm gives the same array. *)
Definition selectAllTags (state : AppState) : option (list string) :=
  match collectTags [] (tasks state) with
  | Some tagSet => Some (merge_sort code_unit_le tagSet)
  | None => None
  end.

(** ** Date utilities ([utils/dateUtils.ts]) *)

(** [new Date(d.getFullYear(), d.getMonth(), d.getDate())]: midnight of
    the local day of [d], with local days of 24 hours as in [addDays]. The
    constructor reads a year from 0 to 99 as 1900 plus that year: the clock
    readings and timestamps meant here are those from 1970 on. *)
Definition localDay (c : Clock) (d : Date) : Date := startOfDay c d.

(** [Math.round(diffTime / (1000 * 60 * 60 * 24))] for an integer
    [diffTime]: the nearest integer, a half rounded up. *)
Definition roundDays (diffTime : Z) : Z := ((2 * diffTime + msPerDay) / (2 * msPerDay))%Z.

(** What [formatRelativeTime] returns besides [null]: one of its own
    strings, or [date.toLocaleDateString(undefined, { month: 'short', day:
    'numeric' })], which is left unformatted. *)
Inductive RelativeTime :=
  | Text (s : string)
  | LocaleDate (date : Date).

(** [formatRelativeTime(timestamp)] for [timestamp: number | null]. With an
    invalid date [diffDays] is [NaN] and every comparison fails. *)
Definition formatRelativeTime (c : Clock) (timestamp : option JsNum) : option RelativeTime :=
  match timestamp with
  | None => None
  | Some n =>
      let now : Date := Some (nowMs c) in
      let date := Date_of (VNum n) in
      let today := localDay c now in
      let targetDate := localDay c date in
      match targetDate, today with
      | Some target, Some start =>
          let diffTime := (target - start)%Z in
          let diffDays := roundDays diffTime in
          if (diffDays <? 0)%Z then Some (Text "Overdue")
          else if (diffDays =? 0)%Z then Some (Text "Today")
          else if (diffDays =? 1)%Z then Some (Text "Tomorrow")
          else if (diffDays <=? 7)%Z then Some (Text ("In " +:+ pretty diffDays +:+ " days"))
          else Some (LocaleDate date)
      | _, _ => Some (LocaleDate date)
      end
  end.

Definition isOverdue (c : Clock) (timestamp : option JsNum) : bool :=
  match timestamp with
  | None => false
  | Some n =>
      let now : Date := Some (nowMs c) in
      let date := Date_of (VNum n) in
      let today := localDay c now in
      let targetDate := localDay c date in
      date_lt targetDate today
  end.

(** ** The dispatch queue ([state/context.tsx]) *)

(** The two refs of [StateProvider], the [processBatch] callbacks handed
    to [requestAnimationFrame] (or [setTimeout]) that have not run yet, and
    the actions handed to [baseDispatch] so far, oldest first. *)
Record Provider := {
  actionQueue : list JsVal;
  isProcessing : bool;
  scheduled : nat;
  dispatched : list JsVal;
}.

Definition initialProvider : Provider :=
  {| actionQueue := []; isProcessing := false; scheduled := 0; dispatched := [] |}.

Definition batchSize : nat := 5.

(** The loop of [processBatch]: [while (queue.length > 0 && processed <
    batchSize) { const action = queue.shift(); if (action) {
    baseDispatch(action); processed++; } }]. It yields what is left of the
    queue and the actions dispatched. *)
Fixpoint batchLoop (queue : list JsVal) (processed : nat) (sent : list JsVal)
  : list JsVal * list JsVal :=
  match queue with
  | [] => ([], sent)
  | action :: rest =>
      if processed <? batchSize then
        if truthy action then batchLoop rest (S processed) (sent ++ [action])
        else batchLoop rest processed sent
      else (queue, sent)
  end.

(** One run of [processBatch]. *)
Definition processBatch (p : Provider) : Provider :=
  let '(queue, sent) := batchLoop (actionQueue p) 0 (dispatched p) in
  if 0 <? length queue then
    {| actionQueue := queue; isProcessing := isProcessing p;
       scheduled := S (scheduled p); dispatched := sent |}
  else
    {| actionQueue := queue; isProcessing := false;
       scheduled := scheduled p; dispatched := sent |}.

(** The synchronous loop of [processQueue]: [while (queue.length > 0) {
    const action = queue.shift(); if (action) baseDispatch(action); }]. *)
Fixpoint drainLoop (queue : list JsVal) (sent : list JsVal) : list JsVal :=
  match queue with
  | [] => sent
  | action :: rest => drainLoop rest (if truthy action then sent ++ [action] else sent)
  end.

(** [processQueue()]; [frames] is [typeof requestAnimationFrame !==
    'undefined' && !__DEV__]. *)
Definition processQueue (frames : bool) (p : Provider) : Provider :=
  if isProcessing p || (length (actionQueue p) =? 0) then p
  else if frames then
    {| actionQueue := actionQueue p; isProcessing := true;
       scheduled := S (scheduled p); dispatched := dispatched p |}
  else
    {| actionQueue := []; isProcessing := false;
       scheduled := scheduled p; dispatched := drainLoop (actionQueue p) (dispatched p) |}.

(** [dispatch(action)]. *)
Definition dispatch (frames : bool) (action : JsVal) (p : Provider) : Provider :=
  processQueue frames
    {| actionQueue := actionQueue p ++ [action]; isProcessing := isProcessing p;
       scheduled := scheduled p; dispatched := dispatched p |}.

(** What happens to a provider: a component dispatches, or the browser
    runs a scheduled callback. *)
Inductive Event :=
  | Dispatch (action : JsVal)
  | Frame.

Definition event (frames : bool) (p : Provider) (e : Event) : Provider :=
  match e with
  | Dispatch action => dispatch frames action p
  | Frame =>
      match scheduled p with
      | S n =>
          processBatch {| actionQueue := actionQueue p; isProcessing := isProcessing p;
                          scheduled := n; dispatched := dispatched p |}
      | O => p
      end
  end.

Definition play (frames : bool) (events : list Event) : Provider :=
  foldl (event frames) initialProvider events.

(** The actions of the dispatches, in their order. *)
Definition submitted (events : list Event) : list JsVal :=
  omap (fun e => match e with Dispatch action => Some action | Frame => None end) events.

(** ** Error feedback, continued *)

(** A listener is a function object, known by its address;
    [errorListeners] is the array of the module. *)
Definition subscribeToErrors (listener : nat) (errorListeners : list nat) : list nat :=
  errorListeners ++ [listener].

(** [errorListeners.indexOf(listener)]: the first position that holds the
    listener, [None] for [-1]. *)
Fixpoint indexOf (listener : nat) (errorListeners : list nat) : option nat :=
  match errorListeners with
  | [] => None
  | l :: rest => if l =? listener then Some 0 else option_map S (indexOf listener rest)
  end.

(** The function [subscribeToErrors] hands back: [if (index > -1)
    errorListeners.splice(index, 1)]. *)
Definition unsubscribe (listener : nat) (errorListeners : list nat) : list nat :=
  match indexOf listener errorListeners with
  | Some index => take index errorListeners ++ drop (S index) errorListeners
  | None => errorListeners
  end.

(** ** Contrast thresholds ([utils/colorContrast.ts]) *)

Definition meetsWCAG_AA (ratio : JsNum) (isLargeText : bool) : bool :=
  if isLargeText then Num.geb ratio (num_of_Z 3) else Num.geb ratio (Fin (9 # 2)).

Definition meetsWCAG_AAA (ratio : JsNum) (isLargeText : bool) : bool :=
  if isLargeText then Num.geb ratio (Fin (9 # 2)) else Num.geb ratio (num_of_Z 7).

(** The [recommendation] of [verifyColorContrast], from the ratio. *)
Definition recommendation (ratio : JsNum) (isLargeText : bool) : string :=
  if meetsWCAG_AAA ratio isLargeText then "Excellent contrast (WCAG AAA)"
  else if meetsWCAG_AA ratio isLargeText then "Good contrast (WCAG AA)"
  else "Insufficient contrast - needs improvement".

(** * The vocabulary of the further properties *)

(** ** Task input and validation errors *)

(** A tag as [validateTags] wants it: a string that is not blank, of at
    most fifty characters (counted before trimming). *)
Definition valid_tag (v : JsVal) : Prop :=
  ∃ t, v = VStr t ∧ ¬ blank t ∧ String.length t ≤ 50.

(** The property names of a task that ADD_TASK builds. *)
Definition task_keys : gset string :=
  list_to_set [ "id"; "description"; "completed"; "createdAt"; "priority"; "dueDate"; "tags" ].

(** The error strings of [utils/validation.ts], but for the one that quotes
    an unknown action type. *)
Definition validation_errors : list string :=
  [ "Task description must be a string"; "Task description cannot be empty";
    "Task description too long (max 500 characters)"; "Invalid priority level";
    "Due date must be a number (Unix timestamp) or null"; "Due date cannot be negative";
    "Due date must be a finite number"; "Tags must be an array"; "Too many tags (max 20)";
    "All tags must be strings"; "Tags cannot be empty"; "Tag too long (max 50 characters)";
    "Task ID must be a string"; "Task ID cannot be empty"; "Action must be an object";
    "Action must have a type string"; "ADD_TASK requires a payload object";
    "UPDATE_TASK requires a payload object"; "UPDATE_TASK requires updates object";
    "REORDER_TASKS requires a payload object"; "Invalid view type";
    "SET_REORDER_MODE requires boolean payload";
    "SET_TAG_FILTER requires string or null payload"; "Batch actions require array payload";
    "SET_THEME requires theme config object" ].

(** The entries of [ErrorMessages] a validation error of a known action
    type is shown as. *)
Definition shown_messages : list string :=
  [ "Please enter a valid task description"; "Task description is too long";
    "Please select a valid priority level"; "Please check your tags";
    "Something went wrong. Please try again" ].

(** [{ description, dueDate }] *)
Definition due (description : string) (dueDate : JsVal) : JsVal :=
  VObj (list_to_map [ ("description", VStr description); ("dueDate", dueDate) ]).

(** A string that is on a list of string literals. *)
Ltac listed := refine (@bool_decide_unpack _ _ _); vm_compute; exact I.

(** ** The parts of the state an action acts on *)

(** The actions whose case returns [{ ...state, ui: ... }], and the ones
    whose case returns [{ ...state, tasks: ... }]. *)
Definition ui_action_types : list string :=
  [ "SET_VIEW"; "TOGGLE_MULTI_SELECT"; "TOGGLE_TASK_SELECTION"; "CLEAR_SELECTIONS";
    "SET_REORDER_MODE"; "SET_EDITING_TASK"; "SET_TAG_FILTER" ].
Definition task_action_types : list string :=
  [ "ADD_TASK"; "UPDATE_TASK"; "TOGGLE_COMPLETE"; "REORDER_TASKS" ].

(** A list membership that does not hold, among string literals. *)
Ltac not_listed H :=
  solve [ exfalso; rewrite ?elem_of_cons, ?elem_of_nil in H; intuition discriminate
        | exfalso; by apply H ].

(** ** BATCH_COMPLETE *)

(** What BATCH_COMPLETE of the ids [P] does when one of them names a task. *)
Definition batch_completed (P : list string) (s s' : AppState) : Prop :=
  tasks s' = map (fun task => if id_in P task then <["completed" := VBool true]> task else task)
                 (tasks s) ∧
  selectedTaskIds (ui s') = ∅ ∧ multiSelectMode (ui s') = false ∧
  selectedView (ui s') = selectedView (ui s) ∧ reorderMode (ui s') = reorderMode (ui s) ∧
  editingTaskId (ui s') = editingTaskId (ui s) ∧ selectedTag (ui s') = selectedTag (ui s) ∧
  theme s' = theme s.

(** ** References to tasks *)

(** Every selected id is the id of a task, and so is the id of the task
    being edited. *)
Definition selection_exists (s : AppState) : Prop :=
  selectedTaskIds (ui s) ⊆ id_set (tasks s).
Definition editing_exists (s : AppState) : Prop :=
  ∀ e, editingTaskId (ui s) = Some e → e ∈ id_set (tasks s).

(** The ids of the tasks are pairwise distinct. *)
Definition ids_distinct (s : AppState) : Prop :=
  NoDup (map (fun task => field task "id") (tasks s)).

(** An action that is no UPDATE_TASK, or an UPDATE_TASK whose updates carry
    no [id]. *)
Definition keeps_id (a : JsVal) : Prop :=
  is_str (prop a "type") "UPDATE_TASK" = true →
  own_props (prop (prop a "payload") "updates") !! "id" = None.

(** A dispatch sequence in which no update carries an [id] and every
    ADD_TASK meets a clock reading and random digits that give an id not in
    use. *)
Fixpoint fresh_ids (s : AppState) (trace : list (World * JsVal)) : Prop :=
  match trace with
  | [] => True
  | (w, a) :: rest =>
      keeps_id a ∧
      (is_str (prop a "type") "ADD_TASK" = true →
       Forall (fun task => field task "id" ≠ VStr (generateId w)) (tasks s)) ∧
      fresh_ids (reduce w s a) rest
  end.

(** Three tasks added at successive clock readings, the second renamed, the
    first selected and edited, then deleted. *)
Definition add_select_delete : list (World * JsVal) :=
  [ (world_at 1, action "ADD_TASK" milk);
    (world_at 2, action "ADD_TASK" bread);
    (world_at 3, action "ADD_TASK" eggs);
    (world_at 4, action "UPDATE_TASK" (VObj (<["id" := VStr id2]> oat_milk_update)));
    (world_at 5, action "TOGGLE_TASK_SELECTION" (VStr id1));
    (world_at 6, action "SET_EDITING_TASK" (VStr id1));
    (world_at 7, action "DELETE_TASK" (VStr id1)) ].

(** ** The views and their labels *)

(** [dueDate: number | null] of [Task], or no due date at all. *)
Definition due_date_typed (task : Obj) : Prop :=
  field task "dueDate" = VNull ∨ field task "dueDate" = VUndef ∨
  ∃ n, field task "dueDate" = VNum n.

(** [tags: string[]] of [Task], on every task of the array. *)
Definition tags_typed (tasks : list Obj) : Prop :=
  Forall (fun task => ∃ l : list string, field task "tags" = VArr (map VStr l)) tasks.

(** Tasks with tags, in the Priority view filtered by the tag [shop]. *)
Definition tagged (address : nat) (id priority : string) (tags : list string) : Ref Obj :=
  ref address
    (list_to_map
       [ ("id", VStr id); ("description", VStr "Buy eggs"); ("completed", VBool false);
         ("createdAt", VNum (num_of_Z 1699900000000)); ("priority", VStr priority);
         ("dueDate", VNull); ("tags", VArr (map VStr tags)) ]).

Definition tagged_snapshot : Snapshot :=
  {| tasksRef := ref 20 [ tagged 21 id1 "high" ["shop"; "food"];
                          tagged 22 id2 "low" ["shop"];
                          tagged 23 id3 "critical" ["home"; "food"] ];
     uiOf := ui_tag (ui_view (ui (initialState VNull)) Priority) (Some "shop");
     themeOf := VNull |}.

(** The labels of the days after tomorrow. *)
Definition inDays (k : Z) : RelativeTime := Text ("In " +:+ pretty k +:+ " days").

(** ** The dispatch queue *)

(** What holds of a provider between two events. *)
Definition provider_invariant (frames : bool) (all : list JsVal) (p : Provider) : Prop :=
  dispatched p ++ List.filter truthy (actionQueue p) = List.filter truthy all ∧
  (actionQueue p ≠ [] → isProcessing p = true) ∧
  scheduled p = (if isProcessing p then 1 else 0) ∧
  (frames = false → actionQueue p = [] ∧ isProcessing p = false).

(** * Properties *)

(** ** Values and strings *)

Lemma strict_eq_str (v : JsVal) (s : string) : strict_eq v (VStr s) = true ↔ v = VStr s.
Proof.
  destruct v as [| |b|n|s'|l|o]; simpl; try (split; [discriminate | congruence]).
  rewrite String.eqb_eq. split; congruence.
Qed.

Lemma strict_eq_str_l (v : JsVal) (s : string) : strict_eq (VStr s) v = true ↔ v = VStr s.
Proof.
  destruct v as [| |b|n|s'|l|o]; simpl; try (split; [discriminate | congruence]).
  rewrite String.eqb_eq. split; congruence.
Qed.

Lemma taskExists_true (ts : list Obj) (v : JsVal) :
  taskExists ts v = true ↔ ∃ task, task ∈ ts ∧ strict_eq (field task "id") v = true.
Proof.
  unfold taskExists. rewrite existsb_exists.
  split; intros (task & H1 & H2); exists task; split; auto; by apply list_elem_of_In.
Qed.

Lemma taskExists_false (ts : list Obj) (id : string) :
  Forall (fun task => field task "id" ≠ VStr id) ts → taskExists ts (VStr id) = false.
Proof.
  intros H. apply not_true_is_false. rewrite taskExists_true.
  intros (task & Hin & Heq). apply strict_eq_str in Heq.
  rewrite Forall_forall in H. by apply (H task).
Qed.

Lemma prop_action_type (type : string) (payload : JsVal) :
  prop (action type payload) "type" = VStr type.
Proof. reflexivity. Qed.

Lemma prop_action_payload (type : string) (payload : JsVal) :
  prop (action type payload) "payload" = payload.
Proof. reflexivity. Qed.

(** ** No-ops of the reducer *)

Lemma unknown_type_rejected (a : JsVal) : unknown_type a → rejected a.
Proof.
  intros (type & Hty & Hnot). unfold rejected, validateAction.
  destruct (not_an_object a); [done|]. rewrite Hty.
  unfold action_types in Hnot. rewrite !not_elem_of_cons in Hnot.
  repeat match type of Hnot with
         | _ ≠ _ ∧ _ =>
             let H := fresh in
             destruct Hnot as [H Hnot]; apply String.eqb_neq in H; rewrite H
         end.
  simpl. by destruct (String.eqb type "").
Qed.

Lemma rejected_noop (w : World) (s : AppState) (a : JsVal) :
  rejected a → appReducer w s a = (s, [Feedback (mapValidationError
     match validateAction a with Invalid e => e | Valid => "" end) error]).
Proof.
  unfold rejected, appReducer. by destruct (validateAction a).
Qed.

Lemma stale_noop (w : World) (s : AppState) (a : JsVal) :
  stale_id s a → reduce w s a = s.
Proof.
  intros (type & id & Hty & Hin & Hid & _ & Hno).
  apply taskExists_false in Hno.
  unfold reduce, appReducer. destruct (validateAction a); [|done].
  unfold target_id in Hid. rewrite Hty in *.
  unfold single_item_types in Hin. rewrite !elem_of_cons in Hin.
  destruct Hin as [->|[->|[->|[->|[->|Hin]]]]]; simpl in *.
  - unfold deleteTask. by rewrite Hid, Hno.
  - unfold toggleComplete. by rewrite Hid, Hno.
  - unfold updateTask. by rewrite Hid, Hno.
  - unfold setEditingTask. by rewrite Hid, Hno.
  - unfold toggleTaskSelection. by rewrite Hid, Hno.
  - by apply elem_of_nil in Hin.
Qed.

Lemma rejected_reduce (w : World) (s : AppState) (a : JsVal) :
  rejected a → reduce w s a = s.
Proof. intros H. unfold reduce. by rewrite rejected_noop. Qed.

(** C1. An action that [validateAction] rejects (a malformed payload, or a
    type outside the fifteen known ones) leaves the state as it was, and so
    does a DELETE_TASK, TOGGLE_COMPLETE, UPDATE_TASK, SET_EDITING_TASK or
    TOGGLE_TASK_SELECTION whose well-formed id matches no task: the reducer
    returns its input state. *)
Theorem appReducer_noop (w : World) (s : AppState) (a : JsVal) :
  rejected a ∨ unknown_type a ∨ stale_id s a →
  reduce w s a = s.
Proof.
  intros [H|[H|H]].
  - by apply rejected_reduce.
  - by apply rejected_reduce, unknown_type_rejected.
  - by apply stale_noop.
Qed.

(** ** TOGGLE_COMPLETE *)

Lemma field_insert_ne (task : Obj) (k k' : string) (v : JsVal) :
  k ≠ k' → field (<[k := v]> task) k' = field task k'.
Proof. intros H. unfold field. by rewrite lookup_insert_ne. Qed.

Lemma field_insert_eq (task : Obj) (k : string) (v : JsVal) :
  field (<[k := v]> task) k = v.
Proof. unfold field. by rewrite lookup_insert_eq. Qed.

Lemma toggled_id (id : JsVal) (task : Obj) : field (toggled id task) "id" = field task "id".
Proof.
  unfold toggled. destruct (strict_eq (field task "id") id); [|done].
  by rewrite field_insert_ne.
Qed.

Lemma toggled_twice (id : JsVal) (task : Obj) :
  completed_is_boolean task → toggled id (toggled id task) = task.
Proof.
  intros [b Hb]. unfold toggled at 1. rewrite toggled_id. unfold toggled.
  destruct (strict_eq (field task "id") id); [|done].
  rewrite field_insert_eq, insert_insert_eq. unfold field. rewrite Hb. simpl.
  rewrite negb_involutive. by apply insert_id.
Qed.

Lemma toggled_frame (id : JsVal) (task : Obj) (k : string) :
  k ≠ "completed" → toggled id task !! k = task !! k.
Proof.
  intros H. unfold toggled. destruct (strict_eq (field task "id") id); [|done].
  by rewrite lookup_insert_ne.
Qed.

Lemma taskExists_map_toggled (id : JsVal) (ts : list Obj) :
  taskExists (map (toggled id) ts) id = taskExists ts id.
Proof.
  unfold taskExists. induction ts as [|task ts IH]; [done|].
  simpl. by rewrite toggled_id, IH.
Qed.

Lemma toggleComplete_tasks (w : World) (s : AppState) (id : string) :
  validateTaskId (VStr id) = Valid →
  taskExists (tasks s) (VStr id) = true →
  reduce w s (action "TOGGLE_COMPLETE" (VStr id))
  = with_tasks s (map (toggled (VStr id)) (tasks s)).
Proof.
  intros Hv Hex. unfold reduce, appReducer.
  assert (validateAction (action "TOGGLE_COMPLETE" (VStr id)) = Valid) as -> by exact Hv.
  cbv zeta. rewrite prop_action_type, prop_action_payload. simpl.
  unfold toggleComplete. by rewrite Hex.
Qed.

Lemma toggleComplete_rejected (w : World) (s : AppState) (id : string) (e : string) :
  validateTaskId (VStr id) = Invalid e →
  reduce w s (action "TOGGLE_COMPLETE" (VStr id)) = s.
Proof.
  intros Hv. apply rejected_reduce. unfold rejected.
  assert (validateAction (action "TOGGLE_COMPLETE" (VStr id)) = Invalid e) as -> by exact Hv.
  done.
Qed.

Lemma toggle_frame_refl (id : string) (s : AppState) : toggle_frame id s s.
Proof. repeat split. intros i task Hi. exists task. auto. Qed.

Lemma toggle_frame_map (id : string) (s : AppState) :
  toggle_frame id s (with_tasks s (map (toggled (VStr id)) (tasks s))).
Proof.
  repeat split; simpl; [by rewrite length_map|].
  intros i task Hi. exists (toggled (VStr id) task). split.
  { rewrite list_lookup_fmap_Some. eauto. }
  split; [intros k Hk; by apply toggled_frame|].
  unfold toggled. intros Hne.
  destruct (strict_eq (field task "id") (VStr id)) eqn:E; [|done].
  by apply strict_eq_str in E.
Qed.

Lemma toggled_twice_truthy (id : JsVal) (task : Obj) :
  strict_eq (field task "id") id = true →
  toggled id (toggled id task)
  = <["completed" := VBool (truthy (field task "completed"))]> task.
Proof.
  intros Hid. unfold toggled at 1. rewrite toggled_id, Hid. unfold toggled. rewrite Hid.
  rewrite field_insert_eq, insert_insert_eq. simpl. by rewrite negb_involutive.
Qed.

Lemma toggled_twice_other (id : JsVal) (task : Obj) :
  strict_eq (field task "id") id = false → toggled id (toggled id task) = task.
Proof.
  intros Hid. unfold toggled at 1. rewrite toggled_id, Hid. unfold toggled. by rewrite Hid.
Qed.

(** C9 (amended). TOGGLE_COMPLETE with the id of a task of the list,
    applied twice: each of the two applications leaves the [ui] and the
    [theme] alone, keeps every task with another id as it is and changes no
    property but [completed] in a task with that id. After the two, a task
    with that id is either as it was or holds in [completed] the boolean
    its old value converts to; it is as it was when its [completed] was a
    boolean, as the [Task] type has it, and the whole state is back when
    that is so of every task with that id. When the id passes validation
    the first application stores the negation of what [completed] converts
    to and the second the boolean it converts to, whatever the value was:
    for [undefined] that is [false]. *)
Theorem toggle_complete_twice (w1 w2 : World) (s : AppState) (id : string) :
  taskExists (tasks s) (VStr id) = true →
  let a := action "TOGGLE_COMPLETE" (VStr id) in
  let s1 := reduce w1 s a in
  let s2 := reduce w2 s1 a in
  toggle_frame id s s1 ∧ toggle_frame id s1 s2 ∧
  (∀ i task, tasks s !! i = Some task → field task "id" = VStr id →
     ∃ task2, tasks s2 !! i = Some task2 ∧
       (task2 = task ∨
        task2 = <["completed" := VBool (truthy (field task "completed"))]> task) ∧
       (completed_is_boolean task → task2 = task)) ∧
  ((∀ task, task ∈ tasks s → field task "id" = VStr id → completed_is_boolean task) →
   s2 = s) ∧
  (validateTaskId (VStr id) = Valid →
   ∀ i task, tasks s !! i = Some task → field task "id" = VStr id →
     ∃ task1 task2,
       tasks s1 !! i = Some task1 ∧ tasks s2 !! i = Some task2 ∧
       field task1 "completed" = VBool (negb (truthy (field task "completed"))) ∧
       field task2 "completed" = VBool (truthy (field task "completed"))).
Proof.
  intros Hex a s1 s2.
  destruct (validateTaskId (VStr id)) as [|e] eqn:Hv.
  - assert (Hs1 : s1 = with_tasks s (map (toggled (VStr id)) (tasks s)))
      by (by apply toggleComplete_tasks).
    assert (Hex1 : taskExists (tasks s1) (VStr id) = true)
      by (rewrite Hs1; simpl; by rewrite taskExists_map_toggled).
    assert (Hs2 : s2 = with_tasks s1 (map (toggled (VStr id)) (tasks s1)))
      by (by apply toggleComplete_tasks).
    assert (Htwice : tasks s2 = map (fun task => toggled (VStr id) (toggled (VStr id) task))
                                    (tasks s)).
    { rewrite Hs2, Hs1. simpl. by rewrite map_map. }
    split; [rewrite Hs1; apply toggle_frame_map|].
    split; [rewrite Hs2; apply toggle_frame_map|].
    split; [|split].
    + intros i task Hi Hid. exists (toggled (VStr id) (toggled (VStr id) task)).
      split; [rewrite Htwice, list_lookup_fmap, Hi; done|].
      split.
      * right. apply toggled_twice_truthy. by apply strict_eq_str.
      * apply toggled_twice.
    + intros Hbool. destruct s as [ts u th]. rewrite Hs2, Hs1. unfold with_tasks. simpl.
      f_equal. rewrite map_map. simpl in Hbool. clear -Hbool.
      induction ts as [|task ts IH]; [done|]. simpl. f_equal.
      * destruct (strict_eq (field task "id") (VStr id)) eqn:E.
        -- apply toggled_twice. apply Hbool; [by left|by apply strict_eq_str].
        -- by apply toggled_twice_other.
      * apply IH. intros task' Hin. apply Hbool. by right.
    + intros _ i task Hi Hid.
      exists (toggled (VStr id) task), (toggled (VStr id) (toggled (VStr id) task)).
      split; [rewrite Hs1; simpl; rewrite list_lookup_fmap, Hi; done|].
      split; [rewrite Htwice, list_lookup_fmap, Hi; done|].
      apply strict_eq_str in Hid. split.
      * unfold toggled. rewrite Hid. by rewrite field_insert_eq.
      * rewrite toggled_twice_truthy by done. by rewrite field_insert_eq.
  - assert (Hs1 : s1 = s) by (by eapply toggleComplete_rejected).
    assert (Hs2 : s2 = s1) by (by eapply toggleComplete_rejected).
    rewrite Hs2, Hs1.
    split; [apply toggle_frame_refl|]. split; [apply toggle_frame_refl|].
    split; [|split; [done|done]].
    intros i task Hi Hid. exists task. split; [done|]. split; [by left|done].
Qed.

(** C9, counterexample. An UPDATE_TASK whose updates hold
    [completed: undefined] passes validation, and the spread stores the
    property in the task. Two TOGGLE_COMPLETE of that task then leave
    [completed: false], which is not the value they started from. *)
Lemma toggle_twice_claim_fails : ¬ toggle_twice_claim.
Proof.
  intros H.
  destruct (H (world_at 3) (world_at 4) undefined_completed_state id1)
    as (_ & _ & Hback); [by vm_compute|].
  assert (Hbefore : (fun task => (field task "id", field task "completed"))
                      <$> (tasks undefined_completed_state !! 0)
                    = Some (VStr id1, VUndef)) by (vm_compute; reflexivity).
  destruct (tasks undefined_completed_state !! 0) as [task|] eqn:Htask;
    [|discriminate Hbefore].
  injection Hbefore as Hid Hflag.
  destruct (Hback 0 task Htask Hid) as (task2 & Htask2 & Hsame).
  assert (Hafter : (fun task => field task "completed")
                     <$> (tasks (reduce (world_at 4)
                                   (reduce (world_at 3) undefined_completed_state
                                      (action "TOGGLE_COMPLETE" (VStr id1)))
                                   (action "TOGGLE_COMPLETE" (VStr id1))) !! 0)
                   = Some (VBool false)) by (vm_compute; reflexivity).
  rewrite Htask2 in Hafter. injection Hafter as Hafter.
  rewrite Hafter, Hflag in Hsame. discriminate Hsame.
Qed.

(** ** UPDATE_TASK *)

Lemma validateAction_update (payload : Obj) (id : string) (updates : JsVal) :
  payload !! "id" = Some (VStr id) → payload !! "updates" = Some updates →
  validateTaskId (VStr id) = Valid → not_an_object updates = false →
  validateAction (action "UPDATE_TASK" (VObj payload)) = Valid.
Proof.
  intros Hid Hup Hv Hobj. unfold validateAction.
  change (not_an_object (action "UPDATE_TASK" (VObj payload))) with false.
  cbv iota. rewrite prop_action_type, prop_action_payload. cbv zeta.
  change (not_an_object (VObj payload)) with false.
  simpl. rewrite Hid, Hup. simpl. simpl in Hv. rewrite Hv. by rewrite Hobj.
Qed.

Lemma updateTask_tasks (w : World) (s : AppState) (payload : Obj) (id : string)
    (updates : JsVal) :
  payload !! "id" = Some (VStr id) → payload !! "updates" = Some updates →
  validateTaskId (VStr id) = Valid → not_an_object updates = false →
  taskExists (tasks s) (VStr id) = true →
  reduce w s (action "UPDATE_TASK" (VObj payload))
  = with_tasks s (map (merged (VStr id) updates) (tasks s)).
Proof.
  intros Hid Hup Hv Hobj Hex. unfold reduce, appReducer.
  rewrite (validateAction_update payload id updates) by done.
  cbv zeta. rewrite prop_action_type, prop_action_payload. simpl.
  unfold updateTask. simpl. rewrite Hid, Hup. simpl. by rewrite Hex.
Qed.

(** C10 (amended). An UPDATE_TASK whose [payload.id] is a non-blank string
    naming a task (a string that passes [validateTaskId]: not empty once
    trimmed) and whose [payload.updates] is any non-null object replaces
    that task by the shallow merge of the task with the updates: every
    property of the updates ends up in the task, whatever its name ([id],
    [createdAt], [completed], [description]) and whatever its value (a blank
    description too), every other property of the task is kept; the other
    tasks, the [ui] and the [theme] stay as they are. *)
Theorem update_task_shallow_merge (w : World) (s : AppState) (payload : Obj)
    (id : string) (updates : JsVal) :
  payload !! "id" = Some (VStr id) → payload !! "updates" = Some updates →
  validateTaskId (VStr id) = Valid → not_an_object updates = false →
  taskExists (tasks s) (VStr id) = true →
  let s' := reduce w s (action "UPDATE_TASK" (VObj payload)) in
  ui s' = ui s ∧ theme s' = theme s ∧ length (tasks s') = length (tasks s) ∧
  ∀ i task, tasks s !! i = Some task →
    (field task "id" = VStr id →
       tasks s' !! i = Some (own_props updates ∪ task) ∧
       (∀ k v, own_props updates !! k = Some v → (own_props updates ∪ task) !! k = Some v) ∧
       (∀ k, own_props updates !! k = None → (own_props updates ∪ task) !! k = task !! k)) ∧
    (field task "id" ≠ VStr id → tasks s' !! i = Some task).
Proof.
  intros Hid Hup Hv Hobj Hex s'.
  assert (Hs' : s' = with_tasks s (map (merged (VStr id) updates) (tasks s)))
    by (by apply updateTask_tasks).
  rewrite Hs'. simpl. split; [done|]. split; [done|].
  split; [by rewrite length_map|].
  intros i task Hi. split.
  - intros Heq. apply strict_eq_str in Heq. split; [|split].
    + rewrite list_lookup_fmap, Hi. simpl. unfold merged. by rewrite Heq.
    + intros k v Hk. by apply lookup_union_Some_l.
    + intros k Hk. by apply lookup_union_r.
  - intros Hne. rewrite list_lookup_fmap, Hi. simpl. unfold merged.
    destruct (strict_eq (field task "id") (VStr id)) eqn:E; [|done].
    by apply strict_eq_str in E.
Qed.

(** C10, counterexample. A task whose id an earlier update has overwritten
    with a blank is named by a non-empty string, yet an UPDATE_TASK with
    that id does not pass [validateTaskId]: the action is rejected and
    nothing is merged. *)
Lemma update_task_claim_fails : ¬ update_task_claim.
Proof.
  intros H.
  assert (Hblank : validateAction (action "UPDATE_TASK" (VObj blank_id_update))
                   = Invalid "Task ID cannot be empty") by (vm_compute; reflexivity).
  assert (Hsame : reduce (world_at 3) blank_id_state (action "UPDATE_TASK" (VObj blank_id_update))
                  = blank_id_state).
  { apply rejected_reduce. unfold rejected. by rewrite Hblank. }
  destruct (H (world_at 3) blank_id_state blank_id_update " "
              (VObj {[ "description" := VStr "Buy oat milk" ]}))
    as (_ & _ & _ & Hmerge); [by vm_compute..|].
  rewrite Hsame in Hmerge.
  assert (Hbefore : (fun task => (field task "id", task !! "description"))
                      <$> (tasks blank_id_state !! 0)
                    = Some (VStr " ", Some (VStr "Buy milk"))) by (vm_compute; reflexivity).
  destruct (tasks blank_id_state !! 0) as [task|] eqn:Htask; [|discriminate Hbefore].
  injection Hbefore as Hid Hdescription.
  destruct (Hmerge 0 task Htask) as [Hmerged _].
  specialize (Hmerged Hid). rewrite Htask in Hmerged. injection Hmerged as Hmerged.
  apply (f_equal (fun t : Obj => t !! "description")) in Hmerged. cbv beta in Hmerged.
  rewrite (lookup_union_Some_l _ _ _ (VStr "Buy oat milk")) in Hmerged by reflexivity.
  rewrite Hdescription in Hmerged. discriminate Hmerged.
Qed.

(** ** REORDER_TASKS *)

Lemma num_index (n : JsNum) (i : nat) :
  Num.eqb n (num_of_nat i) = true →
  Num.isInteger n = true ∧ Num.toZ n = Z.of_nat i ∧
  Num.ltb n (num_of_Z 0) = false ∧
  ∀ len, Num.geb n (num_of_nat len) = (len <=? i).
Proof.
  destruct n as [| | |q]; try discriminate. simpl. intros H.
  apply Qeq_bool_iff in H.
  assert (Hfl : Qfloor q = Z.of_nat i) by (rewrite H; apply Qfloor_Z).
  repeat split.
  - apply Qeq_bool_iff. by rewrite Hfl.
  - unfold Qeq in H. simpl in H. rewrite Z.mul_1_r in H. rewrite H.
    by apply Z.quot_mul.
  - apply negb_false_iff, Qle_bool_iff. rewrite H. rewrite <- Zle_Qle. lia.
  - intros len. unfold Num.geb. simpl.
    destruct (len <=? i) eqn:E.
    + apply Qle_bool_iff. rewrite H, <- Zle_Qle. apply Nat.leb_le in E. lia.
    + apply not_true_is_false. rewrite Qle_bool_iff, H, <- Zle_Qle.
      apply Nat.leb_gt in E. lia.
Qed.

Lemma validateReorderIndices_valid (from to : JsVal) (len : nat) :
  validateReorderIndices from to len = Valid ↔ valid_index len from ∧ valid_index len to.
Proof.
  assert (Hone : ∀ n, Num.isInteger n = true → Num.ltb n (num_of_Z 0) = false →
                      Num.geb n (num_of_nat len) = false → valid_index len (VNum n)).
  { intros [| | |q]; try discriminate. simpl. intros Hi Hl Hg.
    apply Qeq_bool_iff in Hi. apply negb_false_iff, Qle_bool_iff in Hl.
    unfold Num.geb in Hg. simpl in Hg.
    assert (H0 : (0 <= Qfloor q)%Z).
    { rewrite Zle_Qle. by rewrite <- Hi. }
    assert (Hlt : (Qfloor q < Z.of_nat len)%Z).
    { apply Z.lt_nge. intros Hc. rewrite Zle_Qle in Hc. rewrite <- Hi in Hc.
      apply Qle_bool_iff in Hc. unfold num_of_Z in Hg. congruence. }
    exists (Z.to_nat (Qfloor q)). split; [lia|].
    exists (Fin q). split; [done|]. simpl. apply Qeq_bool_iff.
    rewrite Z2Nat.id by done. exact Hi. }
  unfold validateReorderIndices. split.
  - destruct from as [| | |f| | |], to as [| | |t| | |]; try discriminate.
    destruct (negb (Num.isInteger f) || negb (Num.isInteger t)) eqn:E1; [discriminate|].
    destruct (Num.ltb f (num_of_Z 0) || Num.geb f (num_of_nat len)) eqn:E2; [discriminate|].
    destruct (Num.ltb t (num_of_Z 0) || Num.geb t (num_of_nat len)) eqn:E3; [discriminate|].
    apply orb_false_elim in E1 as [Hf Ht], E2 as [Hf0 Hfl], E3 as [Ht0 Htl].
    apply negb_false_iff in Hf, Ht.
    intros _. split; by apply Hone.
  - intros [(i & Hi & f & -> & Hf) (j & Hj & t & -> & Ht)].
    destruct (num_index f i Hf) as (-> & _ & -> & ->).
    destruct (num_index t j Ht) as (-> & _ & -> & ->).
    apply Nat.leb_gt in Hi, Hj. by rewrite Hi, Hj.
Qed.

Lemma splice_permutation (i j : nat) (x : Obj) (l : list Obj) :
  l !! i = Some x → splice_in j x (splice_out i l) ≡ₚ l.
Proof.
  intros Hi. unfold splice_in, splice_out.
  rewrite <- Permutation_middle, take_drop.
  rewrite <- (take_drop_middle l i x Hi) at 3.
  by rewrite <- Permutation_middle.
Qed.

Lemma splice_lookup (i j : nat) (x : Obj) (l : list Obj) :
  l !! i = Some x → j < length l →
  length (splice_in j x (splice_out i l)) = length l ∧
  splice_in j x (splice_out i l) !! j = Some x.
Proof.
  intros Hi Hj. apply lookup_lt_Some in Hi as Hlt.
  assert (Hlen : length (splice_out i l) = length l - 1).
  { unfold splice_out. rewrite length_app, length_take, length_drop. lia. }
  unfold splice_in. split.
  - rewrite length_app, length_take. simpl. rewrite length_drop. lia.
  - rewrite lookup_app_r; rewrite length_take; [|lia].
    replace (j - j `min` length (splice_out i l)) with 0 by lia. done.
Qed.

Lemma valid_index_object (len : nat) (payload : JsVal) (k : string) :
  String.eqb k "length" = false →
  valid_index len (prop payload k) → not_an_object payload = false.
Proof.
  intros Hk (i & _ & n & Hn & _).
  destruct payload as [| |b|m|str|l|o]; try discriminate; try done.
  simpl in Hn. by rewrite Hk in Hn.
Qed.

Lemma reorderTasks_reduce (w : World) (s : AppState) (payload : JsVal) :
  not_an_object payload = false →
  reduce w s (action "REORDER_TASKS" payload) = fst (reorderTasks s payload).
Proof.
  intros Hobj. unfold reduce, appReducer, validateAction.
  change (not_an_object (action "REORDER_TASKS" payload)) with false.
  cbv iota zeta. rewrite prop_action_type, prop_action_payload. simpl.
  by rewrite Hobj.
Qed.

(** C6. A REORDER_TASKS whose [fromIndex] and [toIndex] are integers of
    [[0, length)] takes the task at [fromIndex] out of the list and puts it
    back at position [toIndex] of the shortened list: the new list is a
    permutation of the old one, of the same length, with the moved task at
    [toIndex], and nothing else in the state changes. If one of the two
    indices is not an integer of that range the state is returned as it
    was. *)
Theorem reorder_tasks_permutes (w : World) (s : AppState) (payload : JsVal) :
  let a := action "REORDER_TASKS" payload in
  let from := prop payload "fromIndex" in
  let to := prop payload "toIndex" in
  let len := length (tasks s) in
  (∀ i j, i < len → j < len → index_is from i → index_is to j →
     ∃ moved, tasks s !! i = Some moved ∧
       reduce w s a = with_tasks s (splice_in j moved (splice_out i (tasks s))) ∧
       tasks (reduce w s a) ≡ₚ tasks s ∧
       length (tasks (reduce w s a)) = len ∧
       tasks (reduce w s a) !! j = Some moved) ∧
  (¬ valid_index len from ∨ ¬ valid_index len to → reduce w s a = s).
Proof.
  intros a from to len. split.
  - intros i j Hi Hj Hfrom Hto.
    destruct (lookup_lt_is_Some_2 (tasks s) i Hi) as [moved Hmoved].
    exists moved. split; [done|].
    assert (Hred : reduce w s a = with_tasks s (splice_in j moved (splice_out i (tasks s)))).
    { unfold a. rewrite reorderTasks_reduce
        by (apply (valid_index_object len _ "fromIndex"); [done | by exists i]).
      unfold reorderTasks. fold from to len.
      assert (validateReorderIndices from to len = Valid) as ->.
      { apply validateReorderIndices_valid. split; [by exists i | by exists j]. }
      destruct Hfrom as (f & -> & Hf), Hto as (t & -> & Ht).
      destruct (num_index f i Hf) as (_ & -> & _), (num_index t j Ht) as (_ & -> & _).
      rewrite !Nat2Z.id, Hmoved. done. }
    rewrite Hred. simpl. split; [done|]. split; [by apply splice_permutation|].
    by apply splice_lookup.
  - intros Hbad.
    assert (Hinv : validateReorderIndices from to len ≠ Valid).
    { rewrite validateReorderIndices_valid. tauto. }
    destruct (not_an_object payload) eqn:Hobj.
    + apply rejected_reduce. unfold rejected, a, validateAction.
      change (not_an_object (action "REORDER_TASKS" payload)) with false.
      cbv iota zeta. rewrite prop_action_type, prop_action_payload. simpl.
      by rewrite Hobj.
    + unfold a. rewrite reorderTasks_reduce by done.
      unfold reorderTasks. fold from to len.
      by destruct (validateReorderIndices from to len).
Qed.

(** ** BATCH_DELETE *)

Lemma id_string_Some (task : Obj) (i : string) :
  id_string task = Some i ↔ field task "id" = VStr i.
Proof.
  unfold id_string. destruct (field task "id"); simpl; split; congruence.
Qed.

Lemma taskExists_id_set (ts : list Obj) (i : string) :
  taskExists ts (VStr i) = true ↔ i ∈ id_set ts.
Proof.
  unfold id_set. rewrite taskExists_true, elem_of_list_to_set, list_elem_of_omap.
  split; intros (task & Hin & H); exists task; split; auto.
  - by apply id_string_Some, strict_eq_str.
  - by apply strict_eq_str, id_string_Some.
Qed.

Lemma set_has_strings (P : list string) (v : JsVal) :
  set_has (map VStr P) v = true ↔ ∃ i, v = VStr i ∧ i ∈ P.
Proof.
  unfold set_has. rewrite existsb_exists. split.
  - intros (x & Hin & Heq). apply in_map_iff in Hin as (i & <- & Hin).
    apply strict_eq_str_l in Heq. exists i. split; [done|]. by apply list_elem_of_In.
  - intros (i & -> & Hin). exists (VStr i). split.
    + apply in_map. by apply list_elem_of_In.
    + by apply strict_eq_str.
Qed.

Lemma id_in_true (P : list string) (task : Obj) :
  id_in P task = true ↔ ∃ i, id_string task = Some i ∧ i ∈ P.
Proof.
  unfold id_in. rewrite set_has_strings.
  split; intros (i & H & Hin); exists i; split; auto; by apply id_string_Some.
Qed.

Lemma existing_ids_nil (ts : list Obj) (P : list string) :
  List.filter (taskExists ts) (map VStr P) = [] ↔ list_to_set P ∩ id_set ts = (∅ : gset string).
Proof.
  split.
  - intros H. apply set_eq. intros i. rewrite elem_of_intersection, elem_of_list_to_set.
    split; [|by intros ?%not_elem_of_empty].
    intros [HP Hts]. apply taskExists_id_set in Hts.
    assert (In (VStr i) (List.filter (taskExists ts) (map VStr P))) as Hin.
    { apply filter_In. split; [|done]. apply in_map. by apply list_elem_of_In. }
    rewrite H in Hin. done.
  - intros H. destruct (List.filter (taskExists ts) (map VStr P)) as [|v l] eqn:E; [done|].
    assert (In v (List.filter (taskExists ts) (map VStr P))) as Hin by (rewrite E; by left).
    apply filter_In in Hin as [Hin Hex]. apply in_map_iff in Hin as (i & <- & Hin).
    apply taskExists_id_set in Hex. apply list_elem_of_In in Hin.
    assert (i ∈ (∅ : gset string)) by (rewrite <- H; set_solver).
    set_solver.
Qed.

Lemma existing_ids_has (ts : list Obj) (P : list string) (task : Obj) :
  task ∈ ts →
  set_has (List.filter (taskExists ts) (map VStr P)) (field task "id") = id_in P task.
Proof.
  intros Hin. unfold id_in. apply eq_true_iff_eq. unfold set_has.
  rewrite !existsb_exists. split.
  - intros (x & Hx & Heq). apply filter_In in Hx as [Hx _]. eauto.
  - intros (x & Hx & Heq). exists x. split; [|done]. apply filter_In. split; [done|].
    apply in_map_iff in Hx as (i & <- & Hi). apply strict_eq_str_l in Heq.
    apply taskExists_true. exists task. split; [done|]. by apply strict_eq_str.
Qed.

Lemma validateIdList_strings (P : list string) :
  Forall (fun i => validateTaskId (VStr i) = Valid) P → validateIdList (map VStr P) = Valid.
Proof. induction 1 as [|i P Hi _ IH]; [done|]. simpl in *. by rewrite Hi. Qed.

Lemma batchDelete_reduce (w : World) (s : AppState) (P : list string) :
  Forall (fun i => validateTaskId (VStr i) = Valid) P →
  reduce w s (action "BATCH_DELETE" (id_array P)) = fst (batchDelete s (map VStr P)).
Proof.
  intros HP. unfold reduce, appReducer, validateAction.
  change (not_an_object (action "BATCH_DELETE" (id_array P))) with false.
  cbv iota zeta. rewrite prop_action_type, prop_action_payload. simpl.
  by rewrite validateIdList_strings.
Qed.

Lemma size_inter_add_in (A B : gset string) (i : string) :
  i ∈ A → i ∉ B → size (A ∩ ({[i]} ∪ B)) = S (size (A ∩ B)).
Proof.
  intros HA HB. replace (A ∩ ({[i]} ∪ B)) with ({[i]} ∪ (A ∩ B)) by set_solver.
  rewrite size_union by set_solver. by rewrite size_singleton.
Qed.

Lemma inter_add_out (A B : gset string) (i : string) :
  i ∉ A → A ∩ ({[i]} ∪ B) = A ∩ B.
Proof. set_solver. Qed.

Lemma id_set_cons (task : Obj) (ts : list Obj) :
  id_set (task :: ts)
  = match id_string task with Some i => {[i]} ∪ id_set ts | None => id_set ts end.
Proof. unfold id_set. simpl. by destruct (id_string task). Qed.

Lemma id_count_distinct (P : list string) (ts : list Obj) :
  NoDup (map (fun task => field task "id") ts) →
  size (list_to_set P ∩ id_set ts : gset string) = length (List.filter (id_in P) ts).
Proof.
  induction ts as [|task ts IH]; intros Hnd.
  - unfold id_set. simpl. by rewrite intersection_empty_r_L, size_empty.
  - simpl in Hnd. apply NoDup_cons in Hnd as [Hnew Hnd]. specialize (IH Hnd).
    rewrite id_set_cons. cbn [List.filter].
    destruct (id_string task) as [i|] eqn:Hi.
    + assert (Hfresh : i ∉ id_set ts).
      { unfold id_set. rewrite elem_of_list_to_set, list_elem_of_omap.
        intros (t' & Hin & Hid).
        apply Hnew. apply id_string_Some in Hi, Hid. rewrite Hi, <- Hid.
        apply list_elem_of_In, in_map_iff. exists t'. split; [done|].
        by apply list_elem_of_In. }
      destruct (id_in P task) eqn:Hin.
      * apply id_in_true in Hin as (i' & Hi' & HP). rewrite Hi in Hi'.
        injection Hi' as <-. simpl. rewrite <- IH.
        apply size_inter_add_in; [|done]. by apply elem_of_list_to_set.
      * rewrite <- IH. f_equal. apply inter_add_out.
        rewrite elem_of_list_to_set. intros HP.
        apply not_true_iff_false in Hin. apply Hin, id_in_true. eauto.
    + destruct (id_in P task) eqn:Hin; [|done].
      apply id_in_true in Hin as (i' & Hi' & _). congruence.
Qed.

(** C4 (amended). For a BATCH_DELETE whose payload is the array of
    non-blank id strings [P]: when no id of [P] is the id of a task the state
    is returned as it was; otherwise the tasks left are the tasks whose id
    is not in [P], in their order, the selection is emptied and multi-select
    mode is switched off, and the number of tasks drops by the number of
    tasks whose id is in [P], which is the size of the intersection of [P]
    with the task ids when the ids of the tasks are pairwise distinct. *)
Theorem batch_delete_intersection (w : World) (s : AppState) (P : list string) :
  Forall (fun i => validateTaskId (VStr i) = Valid) P →
  let s' := reduce w s (action "BATCH_DELETE" (id_array P)) in
  let common : gset string := list_to_set P ∩ id_set (tasks s) in
  (common = ∅ → s' = s) ∧
  (common ≠ ∅ →
     batch_deleted P s s' ∧
     length (tasks s') = length (tasks s) - length (List.filter (id_in P) (tasks s)) ∧
     (NoDup (map (fun task => field task "id") (tasks s)) →
      length (tasks s') = length (tasks s) - size common)).
Proof.
  intros HP s' common. unfold s'. rewrite batchDelete_reduce by done.
  unfold batchDelete.
  destruct (length (List.filter (taskExists (tasks s)) (map VStr P)) =? 0) eqn:Hz.
  - apply Nat.eqb_eq, nil_length_inv, existing_ids_nil in Hz.
    split; [done|]. intros Hne. by destruct Hne.
  - apply Nat.eqb_neq in Hz. split.
    { intros Hempty. apply existing_ids_nil in Hempty. by rewrite Hempty in Hz. }
    intros _. simpl.
    assert (Htasks :
      List.filter (fun task => negb (set_has (List.filter (taskExists (tasks s)) (map VStr P))
                                      (field task "id"))) (tasks s)
      = List.filter (fun task => negb (id_in P task)) (tasks s)).
    { apply filter_ext_in. intros task Hin. f_equal.
      apply existing_ids_has. by apply list_elem_of_In. }
    rewrite Htasks.
    assert (Hlen : length (List.filter (fun task => negb (id_in P task)) (tasks s))
                   = length (tasks s) - length (List.filter (id_in P) (tasks s))).
    { pose proof (filter_length (id_in P) (tasks s)). lia. }
    split; [unfold batch_deleted; simpl; by repeat split|]. split; [done|].
    intros Hnd. unfold common. by rewrite id_count_distinct.
Qed.

(** C4, counterexample. In [twin_state] both tasks carry the id [id1]; a
    BATCH_DELETE of that one id removes both, so the count drops by two
    while the intersection has one element. *)
Lemma batch_delete_claim_fails : ¬ batch_delete_claim.
Proof.
  intros H.
  specialize (H (world_at 4) twin_state [id1]).
  destruct H as [_ H]; [by repeat constructor|].
  destruct H as (_ & _ & _ & H).
  - intros E. vm_compute in E. discriminate.
  - vm_compute in H. discriminate.
Qed.

(** ** ADD_TASK *)

Lemma validateAction_add (payload : JsVal) :
  validateAction (action "ADD_TASK" payload) = Valid →
  validateTaskInput payload = Valid.
Proof.
  unfold validateAction.
  change (not_an_object (action "ADD_TASK" payload)) with false.
  cbv iota zeta. rewrite prop_action_type, prop_action_payload. simpl.
  by destruct (not_an_object payload).
Qed.

Lemma validateTaskDescription_valid (v : JsVal) :
  validateTaskDescription v = Valid →
  ∃ d, v = VStr d ∧ trim d ≠ "" ∧ String.length (trim d) <= 500.
Proof.
  destruct v as [| |b|n|d|l|o]; try discriminate. simpl.
  destruct (String.length (trim d) =? 0) eqn:E0; [discriminate|].
  destruct (500 <? String.length (trim d)) eqn:E1; [discriminate|].
  intros _. exists d. apply Nat.eqb_neq in E0. apply Nat.ltb_ge in E1.
  split; [done|]. split; [|done]. intros Hd. by rewrite Hd in E0.
Qed.

Lemma validateTaskInput_description (payload : JsVal) :
  validateTaskInput payload = Valid →
  ∃ d, prop payload "description" = VStr d ∧ trim d ≠ "" ∧ String.length (trim d) <= 500.
Proof.
  unfold validateTaskInput. intros H. apply validateTaskDescription_valid.
  by destruct (validateTaskDescription (prop payload "description")).
Qed.

Lemma addTask_reduce (w : World) (s : AppState) (payload : JsVal) :
  validateAction (action "ADD_TASK" payload) = Valid →
  reduce w s (action "ADD_TASK" payload) = fst (addTask w s payload).
Proof. intros Hv. unfold reduce, appReducer. by rewrite Hv. Qed.

Lemma pretty_N_go_no_underscore (x : N) (s : string) :
  no_underscore s → no_underscore (pretty_N_go x s).
Proof.
  revert s. induction (N.lt_wf_0 x) as [x _ IH]; intros s Hs.
  assert (x = 0 ∨ 0 < x)%N as [->|Hx] by lia.
  - by rewrite pretty_N_go_0.
  - rewrite pretty_N_go_step by done. apply IH; [by apply N.div_lt|].
    split; [|done]. unfold pretty_N_char. by repeat case_match.
Qed.

Lemma pretty_Z_no_underscore (z : Z) : no_underscore (pretty z).
Proof.
  assert (HN : ∀ n : N, no_underscore (pretty n)).
  { intros n. unfold pretty, pretty_N. case_decide; [by split|].
    by apply pretty_N_go_no_underscore. }
  destruct z as [|p|p]; unfold pretty, pretty_Z; [by split|apply HN|].
  split; [done|apply HN].
Qed.

Lemma underscore_split (a a' r r' : string) :
  no_underscore a → no_underscore a' →
  a +:+ "_" +:+ r = a' +:+ "_" +:+ r' → a = a' ∧ r = r'.
Proof.
  assert (Hnil : ∀ t, "" +:+ t = t) by done.
  assert (Hcons : ∀ c s t, String c s +:+ t = String c (s +:+ t)) by done.
  revert a'. induction a as [|c a IH]; intros [|c' a'] Ha Ha';
    rewrite ?Hnil, ?Hcons, ?Hnil.
  - intros [= ->]. done.
  - intros [= <- _]. by destruct Ha'.
  - intros [= -> _]. by destruct Ha.
  - intros [= -> Heq]. destruct Ha as [_ Ha], Ha' as [_ Ha'].
    destruct (IH a' Ha Ha' Heq) as [-> ->]. done.
Qed.

Lemma generateId_inj (w w' : World) :
  generateId w = generateId w' →
  idTimestamp w = idTimestamp w' ∧ randomSuffix w = randomSuffix w'.
Proof.
  unfold generateId. intros H.
  change (String.append "task_") with (fun t => String "t" (String "a" (String "s"
    (String "k" (String "_" t))))) in H.
  injection H as H.
  apply underscore_split in H as [Hts Hsuf]; try apply pretty_Z_no_underscore.
  split; [|done]. by apply (inj pretty).
Qed.

(** C5 (amended). A valid ADD_TASK appends exactly one task and changes
    nothing else: the tasks already there keep their positions and their
    contents, the new task has [completed = false], the payload description
    trimmed, and the id that [generateId] builds from the clock reading and
    the random suffix. The reducer does not compare that id with the ids in
    use: it differs from the id of every task that does not carry that very
    string, and two ids generated from different clock readings or different
    suffixes differ. *)
Theorem add_task_appends (w : World) (s : AppState) (payload : JsVal) :
  validateAction (action "ADD_TASK" payload) = Valid →
  let s' := reduce w s (action "ADD_TASK" payload) in
  ∃ d newTask,
    prop payload "description" = VStr d ∧ trim d ≠ "" ∧
    tasks s' = tasks s ++ [newTask] ∧ ui s' = ui s ∧ theme s' = theme s ∧
    length (tasks s') = S (length (tasks s)) ∧
    (∀ i task, tasks s !! i = Some task → tasks s' !! i = Some task) ∧
    newTask !! "completed" = Some (VBool false) ∧
    newTask !! "description" = Some (VStr (trim d)) ∧
    newTask !! "id" = Some (VStr (generateId w)) ∧
    (Forall (fun task => field task "id" ≠ VStr (generateId w)) (tasks s) →
     Forall (fun task => field task "id" ≠ field newTask "id") (tasks s)) ∧
    (∀ w', (idTimestamp w', randomSuffix w') ≠ (idTimestamp w, randomSuffix w) →
           generateId w' ≠ generateId w).
Proof.
  intros Hv s'. unfold s'. rewrite addTask_reduce by done.
  destruct (validateTaskInput_description payload (validateAction_add payload Hv))
    as (d & Hd & Hne & _).
  unfold addTask. rewrite Hd. simpl.
  eexists d, _. split; [done|]. split; [done|]. split; [reflexivity|].
  split; [done|]. split; [done|].
  split; [rewrite length_app; simpl; lia|].
  split; [intros i task Hi; by apply lookup_app_l_Some|].
  split; [done|]. split; [done|]. split; [done|]. split; [done|].
  intros w' Hw' Heq. apply generateId_inj in Heq as [H1 H2]. apply Hw'. by f_equal.
Qed.

(** C5, counterexample. Nothing in ADD_TASK looks at the ids in use: a
    second ADD_TASK for which the clock and [Math.random] give what they
    gave for the first appends a task with the id of the first. *)
Lemma add_task_claim_fails : ¬ add_task_claim.
Proof.
  intros H.
  destruct (H (world_at 1) one_task_state bread) as (d & newTask & _ & Ht & _ & _ & Hfresh);
    [done|].
  vm_compute in Ht. injection Ht as <-.
  apply Forall_inv in Hfresh. by apply Hfresh.
Qed.

(** ** The selection invariant *)

Lemma filter_gset_empty (p : string → Prop) `{∀ x, Decision (p x)} :
  filter p (∅ : gset string) = ∅.
Proof. apply set_eq. intros x. rewrite elem_of_filter. set_solver. Qed.

Lemma selection_invariant_step (w : World) (s : AppState) (a : JsVal) :
  (is_str (prop a "type") "TOGGLE_TASK_SELECTION" = true → multiSelectMode (ui s) = true) →
  selection_invariant s → selection_invariant (reduce w s a).
Proof.
  intros Hguard Hinv. unfold selection_invariant in *.
  reducer_cases w s a; simpl; auto.
  - unfold updateTask. by destruct (negb _).
  - unfold deleteTask. destruct (negb _); [done|]. simpl. intros Hm.
    rewrite (Hinv Hm). apply filter_gset_empty.
  - unfold toggleComplete. by destruct (negb _).
  - unfold reorderTasks. repeat case_match; simpl; auto.
  - by destruct (viewType_of _).
  - destruct (multiSelectMode (ui s)); [done|discriminate].
  - specialize (Hguard eq_refl).
    unfold toggleTaskSelection. repeat case_match; simpl; auto; congruence.
  - by case_match.
  - unfold setEditingTask. by case_match.
  - case_match; auto. unfold batchDelete. by case_match.
  - case_match; auto. unfold batchComplete. by case_match.
Qed.

Lemma selection_invariant_run (s : AppState) (trace : list (World * JsVal)) :
  selects_in_mode s trace → selection_invariant s → selection_invariant (run s trace).
Proof.
  revert s. induction trace as [|[w a] rest IH]; intros s Hg Hinv; [done|].
  destruct Hg as [Hguard Hrest]. apply IH; [done|].
  by apply selection_invariant_step.
Qed.

(** C2 (amended). Along every dispatch sequence from the initial state in
    which TOGGLE_TASK_SELECTION is dispatched only while multi-select mode
    is on, [multiSelectMode = false] implies that [selectedTaskIds] is
    empty; and whatever the state, a TOGGLE_MULTI_SELECT leaves one in
    which it does. *)
Theorem selection_empty_outside_mode (defaultTheme : JsVal) (trace : list (World * JsVal)) :
  (selects_in_mode (initialState defaultTheme) trace →
   selection_invariant (run (initialState defaultTheme) trace)) ∧
  (∀ w s, selection_invariant (reduce w s (action0 "TOGGLE_MULTI_SELECT"))).
Proof.
  split.
  - intros Hg. by apply selection_invariant_run.
  - intros w s.
    change (reduce w s (action0 "TOGGLE_MULTI_SELECT")) with (fst (toggleMultiSelect s)).
    unfold selection_invariant. simpl. by destruct (multiSelectMode (ui s)).
Qed.

(** C2, counterexample. TOGGLE_TASK_SELECTION does not look at
    [multiSelectMode]: dispatched right after an ADD_TASK it selects the
    new task while the mode is still off. *)
Lemma selection_claim_fails : ¬ selection_claim.
Proof.
  intros H.
  specialize (H VNull
    [ (world_at 1, action "ADD_TASK" milk);
      (world_at 2, action "TOGGLE_TASK_SELECTION" (VStr id1)) ]).
  unfold selection_invariant in H. specialize (H eq_refl).
  vm_compute in H. discriminate.
Qed.

(** ** The description invariant *)

Lemma trimEnd_idem (s : string) : trimEnd (trimEnd s) = trimEnd s.
Proof.
  induction s as [|c s IH]; [done|]. simpl.
  destruct (trimEnd s) as [|c2 r2] eqn:E.
  - destruct (isWhite c) eqn:Hc; [done|]. simpl. by rewrite Hc.
  - simpl in *. by rewrite IH.
Qed.

Lemma trimEnd_head (c : ascii) (s : string) :
  isWhite c = false → ∃ r, trimEnd (String c s) = String c r.
Proof.
  intros Hc. simpl. destruct (trimEnd s); [rewrite Hc|]; eauto.
Qed.

Lemma trimStart_head (s : string) :
  trimStart s = "" ∨ ∃ c t, trimStart s = String c t ∧ isWhite c = false.
Proof.
  induction s as [|c s IH]; [by left|]. simpl.
  destruct (isWhite c) eqn:Hc; [done|]. right. eauto.
Qed.

Lemma trim_idem (s : string) : trim (trim s) = trim s.
Proof.
  unfold trim. destruct (trimStart_head s) as [->|(c & t & -> & Hc)]; [done|].
  destruct (trimEnd_head c t Hc) as [r Hr]. rewrite Hr at 1.
  simpl trimStart. rewrite Hc, <- Hr. apply trimEnd_idem.
Qed.

Lemma blank_all_white (s : string) : blank s ↔ all_white s = true.
Proof.
  unfold blank, trim. induction s as [|c s IH]; [done|]. simpl.
  destruct (isWhite c) eqn:Hc; [done|]. simpl. split; [|done].
  destruct (trimEnd s); [by rewrite Hc|done].
Qed.

Lemma Forall_list_filter {A : Type} (P : A → Prop) (f : A → bool) (l : list A) :
  Forall P l → Forall P (List.filter f l).
Proof.
  rewrite !Forall_forall. intros H x Hx. apply H.
  apply list_elem_of_In in Hx. apply filter_In in Hx as [Hx _]. by apply list_elem_of_In.
Qed.

Lemma described_insert (task : Obj) (k : string) (v : JsVal) :
  k ≠ "description" → described task → described (<[k := v]> task).
Proof.
  intros Hk (d & Hd & Hb). exists d. split; [|done]. by rewrite lookup_insert_ne.
Qed.

Lemma description_invariant_step (w : World) (s : AppState) (a : JsVal) :
  keeps_description a →
  description_invariant s → description_invariant (reduce w s a).
Proof.
  intros Hkeep Hinv. unfold description_invariant in *.
  reducer_cases w s a; simpl; auto.
  - (* ADD_TASK *)
    apply Forall_app. split; [done|]. apply Forall_singleton.
    assert (Hin : validateTaskInput (prop a "payload") = Valid).
    { revert Hvalid. unfold validateAction. destruct (not_an_object a); [done|].
      rewrite Htype. simpl. by destruct (not_an_object (prop a "payload")). }
    apply validateTaskInput_description in Hin as (d & Hd & Hne & _).
    exists (trim d). rewrite Hd. split; [done|]. unfold blank. by rewrite trim_idem.
  - (* UPDATE_TASK *)
    unfold keeps_description in Hkeep. rewrite Htype in Hkeep.
    specialize (Hkeep eq_refl).
    unfold updateTask. destruct (negb _); [done|]. simpl.
    apply Forall_forall. intros task' Hin.
    apply list_elem_of_In, in_map_iff in Hin as (task & <- & Hin).
    apply list_elem_of_In in Hin. rewrite Forall_forall in Hinv.
    destruct (strict_eq _ _); [|by apply Hinv].
    destruct (Hinv task Hin) as (d & Hd & Hb).
    destruct (own_props (prop (prop a "payload") "updates") !! "description")
      as [v|] eqn:Hup.
    + destruct v as [| |b|n|d'|l|o]; try done. exists d'. split; [|done].
      by apply lookup_union_Some_l.
    + exists d. split; [|done]. by rewrite lookup_union_r.
  - unfold deleteTask. destruct (negb _); [done|]. simpl. by apply Forall_list_filter.
  - unfold toggleComplete. destruct (negb _); [done|]. simpl.
    apply Forall_forall. intros task' Hin.
    apply list_elem_of_In, in_map_iff in Hin as (task & <- & Hin).
    apply list_elem_of_In in Hin. rewrite Forall_forall in Hinv.
    destruct (strict_eq _ _); [|by apply Hinv].
    apply described_insert; [done|]. by apply Hinv.
  - unfold reorderTasks. repeat case_match; simpl; auto.
    all: by rewrite splice_permutation.
  - by destruct (viewType_of _).
  - unfold toggleTaskSelection. repeat case_match; simpl; auto.
  - by case_match.
  - unfold setEditingTask. by case_match.
  - case_match; auto. unfold batchDelete. case_match; [done|]. simpl.
    by apply Forall_list_filter.
  - case_match; auto. unfold batchComplete. case_match; [done|]. simpl.
    apply Forall_forall. intros task' Hin.
    apply list_elem_of_In, in_map_iff in Hin as (task & <- & Hin).
    apply list_elem_of_In in Hin. rewrite Forall_forall in Hinv.
    destruct (set_has _ _); [|by apply Hinv].
    apply described_insert; [done|]. by apply Hinv.
Qed.

Lemma description_invariant_run (s : AppState) (trace : list (World * JsVal)) :
  Forall (fun wa => keeps_description (snd wa)) trace →
  description_invariant s → description_invariant (run s trace).
Proof.
  intros Hk. revert s. induction Hk as [|[w a] rest Ha _ IH]; intros s Hinv; [done|].
  apply IH. by apply description_invariant_step.
Qed.

(** C3 (amended). Along every dispatch sequence from the initial state in
    which no UPDATE_TASK carries, in its updates, a [description] that is
    not a string or is empty or white space only, every task has a
    description that is a string, not empty and not white space only. The
    reducer itself does not check the updates of an UPDATE_TASK. *)
Theorem descriptions_never_blank (defaultTheme : JsVal) (trace : list (World * JsVal)) :
  Forall (fun wa => keeps_description (snd wa)) trace →
  description_invariant (run (initialState defaultTheme) trace).
Proof.
  intros Hk. apply description_invariant_run; [done|]. by apply Forall_nil.
Qed.

(** C3, counterexample. An UPDATE_TASK with [updates = { description: "   " }]
    passes validation and overwrites the description of the task. *)
Lemma description_claim_fails : ¬ description_claim.
Proof.
  intros H.
  specialize (H VNull [ (world_at 1, action "ADD_TASK" milk); (world_at 2, blank_update) ]).
  apply Forall_inv in H. destruct H as (d & Hd & Hb).
  vm_compute in Hd. injection Hd as <-. by apply Hb.
Qed.

(** ** Memoized views at a fixed clock *)

Section MemoizationAlongCalls.

Context {State Input Result : Type}.
Variable isUndefined : Input → bool.
Variable inputSelector : State → Input.
Variable resultFn : Clock → Input → Result.
Variable equalityFn : Input → Input → bool.

Local Abbreviation run_calls := (calls isUndefined inputSelector resultFn equalityFn).
Local Abbreviation agree := (calls_compatible isUndefined inputSelector resultFn equalityFn).

Lemma calls_agree_from (cache : Cache) (inputs : list (Clock * State)) :
  agree inputs →
  (hasRun cache = true →
   ∃ now0 input0, lastInput cache = Some input0 ∧ lastResult cache = Some (resultFn now0 input0) ∧
     ∀ now state, (now, state) ∈ inputs → isUndefined input0 = false →
       equalityFn input0 (inputSelector state) = true →
       resultFn now0 input0 = resultFn now (inputSelector state)) →
  map value (run_calls cache inputs)
  = map (fun '(now, state) => Some (resultFn now (inputSelector state))) inputs.
Proof.
  revert cache. induction inputs as [|[now state] rest IH]; intros cache Hok Hc; [done|].
  destruct Hok as [Hhead Hrest]. simpl. unfold createSelector.
  destruct (hasRun cache) eqn:Hrun; simpl.
  - destruct (Hc eq_refl) as (now0 & input0 & Hin & Hout & Hcompat). rewrite Hin.
    destruct (negb (isUndefined input0) && equalityFn input0 (inputSelector state)) eqn:Hhit.
    + simpl. apply andb_true_iff in Hhit as [Hu He]. apply negb_true_iff in Hu.
      rewrite IH; [|done|].
      * f_equal. rewrite Hout. f_equal. apply Hcompat; [by left|done..].
      * intros _. exists now0, input0. split; [done|]. split; [done|].
        intros now' state' Hin'. apply Hcompat. by right.
    + simpl. rewrite IH; [done|done|]. intros _. simpl. eauto.
  - rewrite IH; [done|done|]. intros _. simpl. eauto.
Qed.

(** Along a sequence of calls of a fresh selector in which any two calls
    with inputs the equality function identifies compute the same result,
    every call yields what the compute function yields. *)
Lemma calls_agree_pairwise (inputs : list (Clock * State)) :
  agree inputs →
  map value (run_calls emptyCache inputs)
  = map (fun '(now, state) => Some (resultFn now (inputSelector state))) inputs.
Proof. intros Hok. apply calls_agree_from; [done|]. intros Hrun. discriminate Hrun. Qed.

End MemoizationAlongCalls.

Lemma elements_identical_eq {A : Type} (prev next : list (Ref A)) :
  length prev = length next →
  (∀ t t', t ∈ prev → t' ∈ next → addr t = addr t' → t = t') →
  elements_identical prev next = true → prev = next.
Proof.
  revert next. induction prev as [|p prev IH]; intros [|n next] Hlen Hheap Hid;
    try done; simpl in *.
  destruct (same_ref p n) eqn:Hpn; [|done]. simpl in Hid.
  apply Nat.eqb_eq in Hpn. f_equal.
  - apply Hheap; [by left|by left|done].
  - apply IH; [lia| |done]. intros t t' Ht Ht'. apply Hheap; by right.
Qed.

Lemma arrayEqualityFn_target (snaps : list Snapshot) (s s' : Snapshot) :
  heap_consistent snaps → s ∈ snaps → s' ∈ snaps →
  arrayEqualityFn (tasksRef s) (tasksRef s') = true →
  target (tasksRef s) = target (tasksRef s').
Proof.
  intros Hheap Hs Hs'. destruct (Hheap s s' Hs Hs') as [Harr Helem].
  unfold arrayEqualityFn.
  destruct (same_ref (tasksRef s) (tasksRef s')) eqn:Hsame.
  - intros _. apply Nat.eqb_eq in Hsame. by rewrite (Harr Hsame).
  - destruct (length (target (tasksRef s)) =? length (target (tasksRef s'))) eqn:Hlen;
      [|done]. simpl. apply Nat.eqb_eq in Hlen. by apply elements_identical_eq.
Qed.

Lemma calls_compatible_at_clock {Result : Type}
    (resultFn : Clock → Ref (list (Ref Obj)) → Result) (c : Clock) (snaps : list Snapshot) :
  (∀ a b, target a = target b → resultFn c a = resultFn c b) →
  heap_consistent snaps →
  calls_compatible (fun _ => false) tasksRef resultFn arrayEqualityFn (at_clock c snaps).
Proof.
  intros Hext Hheap.
  assert (Hsub : ∀ l, l ⊆ snaps →
            calls_compatible (fun _ => false) tasksRef resultFn arrayEqualityFn (at_clock c l)).
  { induction l as [|s l IH]; intros Hl; [done|]. simpl. split.
    - intros now' s' Hin _ Heq.
      apply list_elem_of_fmap in Hin as (s'' & [= -> ->] & Hin).
      apply Hext. apply (arrayEqualityFn_target snaps); [done| | |done].
      + apply Hl. by left.
      + apply Hl. by right.
    - apply IH. intros x Hx. apply Hl. by right. }
  by apply Hsub.
Qed.

(** At a fixed clock, whatever calls came before, a call of the Upcoming
    view yields the filter of the tasks of its state. *)
Lemma upcoming_view_at_clock (c : Clock) (snaps : list Snapshot) :
  heap_consistent snaps →
  map value (calls (fun _ => false) tasksRef upcomingTasks arrayEqualityFn emptyCache
               (at_clock c snaps))
  = map (fun snap => Some (upcomingTasks c (tasksRef snap))) snaps.
Proof.
  intros Hheap. rewrite calls_agree_pairwise.
  - unfold at_clock. by rewrite map_map.
  - apply calls_compatible_at_clock; [|done].
    intros a b Hab. unfold upcomingTasks. by rewrite Hab.
Qed.

(** ** The Upcoming view *)

Lemma list_filter_sublist {A : Type} (f : A → bool) (l : list A) :
  sublist (List.filter f l) l.
Proof.
  induction l as [|x l IH]; [constructor|]. simpl.
  destruct (f x); by constructor.
Qed.

Lemma upcomingTasks_elem (c : Clock) (tasks : Ref (list (Ref Obj))) (task : Ref Obj) :
  task ∈ upcomingTasks c tasks ↔
  task ∈ target tasks ∧
  truthy (field (target task) "dueDate") = true ∧
  truthy (field (target task) "completed") = false ∧
  ∃ due, Date_of (field (target task) "dueDate") = Some due ∧
         (today_of c + msPerDay <= due <= today_of c + 7 * msPerDay)%Z.
Proof.
  unfold upcomingTasks. rewrite list_elem_of_In, filter_In, <- list_elem_of_In.
  apply and_iff_compat_l. simpl. fold (today_of c).
  destruct (truthy (field (target task) "dueDate")); simpl; [|naive_solver].
  destruct (truthy (field (target task) "completed")); simpl; [naive_solver|].
  destruct (Date_of (field (target task) "dueDate")) as [due|]; simpl; [|naive_solver].
  unfold date_ge. simpl. rewrite andb_true_iff, !Z.leb_le.
  split.
  - intros [H1 H2]. repeat split; try done. exists due. split; [done|]. lia.
  - intros (_ & _ & due' & [= <-] & H). lia.
Qed.

Lemma Date_of_number (v : JsVal) (due : Z) :
  Date_of v = Some due → ∃ n, v = VNum n.
Proof. destruct v as [| |b|n|str|l|o]; try discriminate. eauto. Qed.

(** The day of [due] is after today and at most seven days ahead exactly
    when [due] lies between the midnight that begins tomorrow and the one
    that ends the seventh day. *)
Lemma calendar_days_window (c : Clock) (due : Z) :
  (today_of c < day_start c due <= today_of c + 7 * msPerDay)%Z ↔
  (today_of c + msPerDay <= due < today_of c + 8 * msPerDay)%Z.
Proof.
  unfold today_of, day_start, msPerDay.
  pose proof (Z.div_mod (nowMs c + tzOffsetMs c) 86400000 ltac:(done)) as Hnow.
  pose proof (Z.mod_pos_bound (nowMs c + tzOffsetMs c) 86400000 ltac:(done)) as Hnow'.
  pose proof (Z.div_mod (due + tzOffsetMs c) 86400000 ltac:(done)) as Hdue.
  pose proof (Z.mod_pos_bound (due + tzOffsetMs c) 86400000 ltac:(done)) as Hdue'.
  lia.
Qed.

Lemma dated_open (task : Obj) :
  dated task → truthy (field task "completed") = false → field task "completed" = VBool false.
Proof.
  intros [[b Hb] _]. unfold field. rewrite Hb. simpl. by intros ->.
Qed.

(** C7. What [selectUpcomingTasks] yields at a fixed clock reading, for a
    task of the [Task] type (a boolean [completed], a [dueDate] that is a
    number or [null]) of the list: a call of the selector on a state, be it
    the first or a call after others at that reading (objects are not
    mutated in place), yields the filter of the tasks, a sub-list in their
    order. The task is in it exactly when it is one the specification
    names (a due date, not completed, the day of the due date after today
    and at most seven days ahead) and is due no later than the local
    midnight that begins the seventh day. So the code leaves out what the
    specification includes: a task that is due on the seventh day later
    than its first instant meets the description and is not in the result.
    A task whose [dueDate] is [null] is never in it. *)
Theorem upcoming_tasks_window (c : Clock) (snap : Snapshot) (task : Ref Obj) :
  task ∈ target (tasksRef snap) → dated (target task) →
  let today := today_of c in
  let result := upcomingTasks c (tasksRef snap) in
  fst (selectUpcomingTasks emptyCache c snap) = Computed result ∧
  (∀ earlier, heap_consistent (earlier ++ [snap]) →
     last (map value (calls (fun _ => false) tasksRef upcomingTasks arrayEqualityFn emptyCache
                        (at_clock c (earlier ++ [snap]))))
     = Some (Some result)) ∧
  sublist result (target (tasksRef snap)) ∧
  (task ∈ result ↔
   upcoming_spec c (target task) ∧
   ∀ due, Date_of (field (target task) "dueDate") = Some due →
          (due <= today + 7 * msPerDay)%Z) ∧
  (∀ n due,
     field (target task) "dueDate" = VNum n → truthy (VNum n) = true →
     Date_of (VNum n) = Some due →
     field (target task) "completed" = VBool false →
     (today + 7 * msPerDay < due < today + 8 * msPerDay)%Z →
     upcoming_spec c (target task) ∧ task ∉ result) ∧
  (field (target task) "dueDate" = VNull → task ∉ result).
Proof.
  intros Hin Htyped today result. split; [done|]. split.
  { intros earlier Hheap. rewrite upcoming_view_at_clock by done.
    rewrite map_app. simpl. apply last_snoc. }
  split; [apply list_filter_sublist|].
  split; [|split].
  - unfold result. rewrite upcomingTasks_elem. split.
    + intros (_ & Hdue & Hdone & due & Hd & Hw).
      destruct (Date_of_number _ _ Hd) as [n Hn]. split.
      * exists n, due. rewrite <- Hn. split; [done|]. split; [done|]. split; [done|].
        split; [by apply dated_open|]. apply calendar_days_window.
        unfold msPerDay in *. lia.
      * intros due' Hd'. rewrite Hd in Hd'. injection Hd' as <-. unfold today. lia.
    + intros [(n & due & Hn & Htruthy & Hd & Hdone & Hw) Hweek].
      rewrite Hn, Hdone. split; [done|]. split; [done|]. split; [done|].
      exists due. split; [done|]. apply calendar_days_window in Hw.
      rewrite Hn in Hweek. specialize (Hweek due Hd). unfold today, msPerDay in *. lia.
  - intros n due Hn Htruthy Hd Hdone Hw. split.
    + exists n, due. repeat (split; [done|]). apply calendar_days_window.
      unfold today, msPerDay in *. lia.
    + unfold result. rewrite upcomingTasks_elem, Hn.
      intros (_ & _ & _ & due' & Hd' & Hw'). rewrite Hd in Hd'. injection Hd' as <-.
      unfold today, msPerDay in *. lia.
  - intros Hnull. unfold result. rewrite upcomingTasks_elem, Hnull.
    by intros (_ & Hdue & _).
Qed.

Lemma due_day_seven_dated : dated (target due_day_seven).
Proof. split; [by exists false | right; by eexists]. Qed.

(** C7, the failing input. At 22:13 on 14 November a task that is due on
    21 November at 10:00, the seventh day after today, and is not
    completed, meets the description of the specification; the view
    computed from a list that holds it leaves it out, the bound of the code
    being [dueDate <= weekFromNow] with [weekFromNow] the midnight that
    begins that day. *)
Lemma upcoming_claim_fails : ¬ upcoming_claim.
Proof.
  intros H.
  assert (Hview : upcomingTasks sample_clock (tasksRef sample_snapshot) = [due_tomorrow])
    by (vm_compute; reflexivity).
  destruct (H sample_clock sample_snapshot due_day_seven) as [_ Hin].
  - by right; left.
  - exact due_day_seven_dated.
  - assert (Hresult : due_day_seven ∈ upcomingTasks sample_clock (tasksRef sample_snapshot)).
    { apply Hin.
      exists (num_of_Z (sample_today + 7 * 86400000 + 36000000)),
             (sample_today + 7 * 86400000 + 36000000)%Z.
      split; [by vm_compute|]. split; [by vm_compute|]. split; [by vm_compute|].
      split; [by vm_compute|]. by vm_compute. }
    rewrite Hview in Hresult. apply list_elem_of_singleton in Hresult.
    apply (f_equal addr) in Hresult. discriminate Hresult.
Qed.

(** The boundaries of the view at [sample_clock]: tomorrow's midnight and
    the midnight that begins the seventh day are in, 23:00 of today and
    10:00 of the seventh day are out. *)
Lemma upcoming_boundaries :
  today_of sample_clock = sample_today ∧
  map addr
    (upcomingTasks sample_clock
       (ref 0 [ due_today;
                due_tomorrow;
                task_due 4 id4 (sample_today + 7 * 86400000);
                due_day_seven ]))
  = [3; 4].
Proof. split; reflexivity. Qed.

(** ** Memoization *)

Section Memoization.

Context {State Input Result : Type}.
Variable isUndefined : Input → bool.
Variable inputSelector : State → Input.
Variable resultFn : Clock → Input → Result.
Variable equalityFn : Input → Input → bool.

Local Abbreviation selector := (createSelector isUndefined inputSelector resultFn equalityFn).
Local Abbreviation run_calls := (calls isUndefined inputSelector resultFn equalityFn).

(** The first call of a fresh selector computes. *)
Lemma first_call_computes (now : Clock) (state : State) :
  selector emptyCache now state
  = (Computed (resultFn now (inputSelector state)),
     {| lastInput := Some (inputSelector state);
        lastResult := Some (resultFn now (inputSelector state));
        hasRun := true |}).
Proof. reflexivity. Qed.


End Memoization.





(** ** Instances *)

(** C1 at work: a DELETE_TASK for an id no task carries. *)
Lemma appReducer_noop_witness :
  stale_id one_task_state (action "DELETE_TASK" (VStr ghost)) ∧
  reduce (world_at 2) one_task_state (action "DELETE_TASK" (VStr ghost))
  = one_task_state.
Proof.
  assert (H : stale_id one_task_state (action "DELETE_TASK" (VStr ghost))).
  { exists "DELETE_TASK", ghost.
    split; [reflexivity|]. split; [apply list_elem_of_here|].
    split; [reflexivity|]. split; [reflexivity|].
    constructor; [|constructor].
    intros Heq. vm_compute in Heq. discriminate Heq. }
  split; [exact H|].
  apply (appReducer_noop (world_at 2) one_task_state
           (action "DELETE_TASK" (VStr ghost))).
  right. right. exact H.
Defined.

(** C9 at work on the one task of [one_task_state], whose [completed] is
    a boolean. *)
Lemma toggle_complete_twice_witness :
  taskExists (tasks one_task_state) (VStr id1) = true ∧
  reduce (world_at 3)
    (reduce (world_at 2) one_task_state (action "TOGGLE_COMPLETE" (VStr id1)))
    (action "TOGGLE_COMPLETE" (VStr id1))
  = one_task_state.
Proof.
  assert (H1 : taskExists (tasks one_task_state) (VStr id1) = true)
    by reflexivity.
  split; [exact H1|].
  destruct (toggle_complete_twice (world_at 2) (world_at 3) one_task_state id1 H1)
    as (_ & _ & _ & Hback & _).
  apply Hback. intros task Hin _. apply list_elem_of_singleton in Hin. subst task.
  exists false. reflexivity.
Defined.

(** C10 at work: the updates overwrite [description] and [completed]. *)
Lemma update_task_shallow_merge_witness :
  taskExists (tasks one_task_state) (VStr id1) = true ∧
  map (fun task => (field task "description", field task "completed"))
      (tasks (reduce (world_at 2) one_task_state
                (action "UPDATE_TASK" (VObj oat_milk_update))))
  = [(VStr "Buy oat milk", VBool true)] ∧
  length (tasks (reduce (world_at 2) one_task_state
                   (action "UPDATE_TASK" (VObj oat_milk_update))))
  = length (tasks one_task_state).
Proof.
  assert (Hex : taskExists (tasks one_task_state) (VStr id1) = true)
    by reflexivity.
  split; [exact Hex|]. split; [reflexivity|].
  pose proof (update_task_shallow_merge (world_at 2) one_task_state oat_milk_update
                id1
                (VObj (list_to_map [ ("description", VStr "Buy oat milk");
                                     ("completed", VBool true) ]))
                eq_refl eq_refl eq_refl eq_refl Hex) as (_ & _ & Hlen & _).
  exact Hlen.
Defined.

(** C6 at work: the first of three tasks moved to the end, and an index
    out of range. *)
Lemma reorder_tasks_permutes_witness :
  tasks (reduce (world_at 4) three_task_state (action "REORDER_TASKS" (move 0 2)))
    ≡ₚ tasks three_task_state ∧
  reduce (world_at 4) three_task_state (action "REORDER_TASKS" (move 0 3))
  = three_task_state.
Proof.
  split.
  - destruct (proj1 (reorder_tasks_permutes (world_at 4) three_task_state (move 0 2)) 0 2)
      as (moved & _ & _ & Hperm & _).
    + vm_compute. lia.
    + vm_compute. lia.
    + exists (num_of_Z 0). split; reflexivity.
    + exists (num_of_Z 2). split; reflexivity.
    + exact Hperm.
  - apply (proj2 (reorder_tasks_permutes (world_at 4) three_task_state (move 0 3))).
    right. intros (i & Hi & n & Hn & Heq).
    injection Hn as <-. vm_compute in Hi.
    assert (i = 0 ∨ i = 1 ∨ i = 2) as [-> | [-> | ->]] by lia; discriminate Heq.
Defined.

(** C4 at work: of the ids [id1], [id3] and one that names no task, the
    first two are deleted; three tasks minus an intersection of two. *)
Lemma batch_delete_intersection_witness :
  Forall (fun i => validateTaskId (VStr i) = Valid) [id1; id3; ghost] ∧
  NoDup (map (fun task => field task "id") (tasks three_task_state)) ∧
  length (tasks (reduce (world_at 4) three_task_state
                   (action "BATCH_DELETE" (id_array [id1; id3; ghost]))))
  = 3 - 2.
Proof.
  assert (HP : Forall (fun i => validateTaskId (VStr i) = Valid)
                      [id1; id3; ghost]).
  { repeat constructor. }
  assert (Hnd : NoDup (map (fun task => field task "id") (tasks three_task_state))).
  { vm_compute. repeat constructor; rewrite ?elem_of_cons, ?elem_of_nil; intros H;
      repeat destruct H as [H|H]; try discriminate H; exact H. }
  split; [exact HP|]. split; [exact Hnd|].
  destruct (batch_delete_intersection (world_at 4) three_task_state
              [id1; id3; ghost] HP) as [_ H].
  destruct H as (_ & _ & H).
  - intros E. vm_compute in E. discriminate E.
  - rewrite (H Hnd). vm_compute. reflexivity.
Defined.

(** C5 at work: a second task appended to [one_task_state]. *)
Lemma add_task_appends_witness :
  validateAction (action "ADD_TASK" bread) = Valid ∧
  length (tasks (reduce (world_at 2) one_task_state (action "ADD_TASK" bread))) = 2.
Proof.
  assert (Hv : validateAction (action "ADD_TASK" bread) = Valid) by reflexivity.
  split; [exact Hv|].
  destruct (add_task_appends (world_at 2) one_task_state bread Hv)
    as (d & newTask & _ & _ & _ & _ & _ & Hlen & _).
  exact Hlen.
Defined.

(** C2 at work on [select_and_leave]. *)
Lemma selection_empty_outside_mode_witness :
  selects_in_mode (initialState VNull) select_and_leave ∧
  selection_invariant (run (initialState VNull) select_and_leave).
Proof.
  assert (Hg : selects_in_mode (initialState VNull) select_and_leave).
  { simpl. repeat split; try (intros H; discriminate H). }
  split; [exact Hg|].
  exact (proj1 (selection_empty_outside_mode VNull select_and_leave) Hg).
Defined.

(** C3 at work on [add_and_rename]. *)
Lemma descriptions_never_blank_witness :
  Forall (fun wa => keeps_description (snd wa)) add_and_rename ∧
  description_invariant (run (initialState VNull) add_and_rename).
Proof.
  assert (Hk : Forall (fun wa => keeps_description (snd wa)) add_and_rename).
  { constructor; [intros H; discriminate H|].
    constructor; [|constructor]. intros _. vm_compute. intros H. discriminate H. }
  split; [exact Hk|].
  exact (descriptions_never_blank VNull add_and_rename Hk).
Defined.

(** C7 at work on [sample_snapshot]: the task due on the seventh day at
    10:00. *)
Lemma upcoming_tasks_window_witness :
  due_day_seven ∈ target (tasksRef sample_snapshot) ∧ dated (target due_day_seven) ∧
  upcoming_spec sample_clock (target due_day_seven) ∧
  due_day_seven ∉ upcomingTasks sample_clock (tasksRef sample_snapshot).
Proof.
  assert (Hin : due_day_seven ∈ target (tasksRef sample_snapshot)) by (by right; left).
  split; [exact Hin|]. split; [exact due_day_seven_dated|].
  destruct (upcoming_tasks_window sample_clock sample_snapshot due_day_seven Hin
              due_day_seven_dated) as (_ & _ & _ & _ & Hlate & _).
  apply (Hlate (num_of_Z (sample_today + 7 * 86400000 + 36000000))
               (sample_today + 7 * 86400000 + 36000000)%Z); try reflexivity.
  vm_compute. split; reflexivity.
Defined.

Lemma open_done_heap : heap_consistent [open_snapshot; done_snapshot].
Proof.
  intros s s' Hs Hs'. rewrite !elem_of_cons, elem_of_nil in Hs, Hs'.
  destruct Hs as [->|[->|[]]], Hs' as [->|[->|[]]]; (split; [by intros ?|]);
    simpl; intros t t' Ht Ht'; apply list_elem_of_singleton in Ht, Ht'; subst t t';
    by intros ?.
Qed.


(** ** The scenarios of the test suite *)

(** [multiSelect.test.tsx], reducer part. *)
Lemma multiSelect_tests :
  let ids (s : AppState) := map (fun task => field task "id") (tasks s) in
  let done (s : AppState) := map (fun task => field task "completed") (tasks s) in
  let w := world_at 0 in
  (* should toggle multi-select mode on *)
  (let s := reduce w (multiSelect_fixture false ∅) (action0 "TOGGLE_MULTI_SELECT") in
   multiSelectMode (ui s) = true ∧ size (selectedTaskIds (ui s)) = 0) ∧
  (* should toggle multi-select mode off and clear selections *)
  (let s := reduce w (multiSelect_fixture true {[ "1"; "2" ]}) (action0 "TOGGLE_MULTI_SELECT") in
   multiSelectMode (ui s) = false ∧ size (selectedTaskIds (ui s)) = 0) ∧
  (* should toggle task selection *)
  (let s := reduce w (multiSelect_fixture true ∅) (action "TOGGLE_TASK_SELECTION" (VStr "1")) in
   elements (selectedTaskIds (ui s)) = ["1"]) ∧
  (* should deselect task when toggling already selected task *)
  (let s := reduce w (multiSelect_fixture true {[ "1" ]})
              (action "TOGGLE_TASK_SELECTION" (VStr "1")) in
   size (selectedTaskIds (ui s)) = 0) ∧
  (* should batch delete selected tasks *)
  (let s := reduce w (multiSelect_fixture true {[ "1"; "2" ]})
              (action "BATCH_DELETE" (id_array ["1"; "2"])) in
   ids s = [VStr "3"] ∧ multiSelectMode (ui s) = false ∧ size (selectedTaskIds (ui s)) = 0) ∧
  (* should batch complete selected tasks *)
  (let s := reduce w (multiSelect_fixture true {[ "1"; "2" ]})
              (action "BATCH_COMPLETE" (id_array ["1"; "2"])) in
   done s = [VBool true; VBool true; VBool true] ∧
   multiSelectMode (ui s) = false ∧ size (selectedTaskIds (ui s)) = 0) ∧
  (* should not affect unselected tasks during batch operations *)
  (let s := reduce w (multiSelect_fixture true {[ "1" ]})
              (action "BATCH_DELETE" (id_array ["1"])) in
   ids s = [VStr "2"; VStr "3"]).
Proof. vm_compute. repeat split. Qed.

(** [selectors.test.ts], smart views: Today holds the overdue task and the
    one due today, Upcoming the ones due tomorrow and in five days,
    Priority the three open high or critical ones, Completed the one
    completed task. *)
Lemma selectors_tests :
  view_ids (fst (selectTodayTasks emptyCache sample_clock mockState)) = [VStr "1"; VStr "2"] ∧
  view_ids (fst (selectUpcomingTasks emptyCache sample_clock mockState))
  = [VStr "3"; VStr "4"] ∧
  view_ids (fst (selectHighPriorityTasks emptyCache sample_clock mockState))
  = [VStr "2"; VStr "4"; VStr "7"] ∧
  view_ids (fst (selectCompletedTasks emptyCache sample_clock mockState)) = [VStr "6"].
Proof. vm_compute. repeat split. Qed.

(** [selectors.test.ts], [createSelector]: one run for the same state
    twice, two runs when the task array is another one. *)
Lemma createSelector_tests :
  computeCount
    (calls (fun _ => false) tasksRef taskCount defaultEqualityFn emptyCache
       [(sample_clock, empty_snapshot); (sample_clock, empty_snapshot)]) = 1 ∧
  map value
    (calls (fun _ => false) tasksRef taskCount defaultEqualityFn emptyCache
       [(sample_clock, empty_snapshot); (sample_clock, open_snapshot)])
  = [Some 0; Some 1] ∧
  computeCount
    (calls (fun _ => false) tasksRef taskCount defaultEqualityFn emptyCache
       [(sample_clock, empty_snapshot); (sample_clock, open_snapshot)]) = 2.
Proof. vm_compute. repeat split. Qed.

(** The scenario of the specification: add a task, complete it, delete
    it. *)
Lemma add_toggle_delete :
  let s1 := reduce (world_at 1) (initialState VNull) (action "ADD_TASK" milk) in
  let s2 := reduce (world_at 2) s1 (action "TOGGLE_COMPLETE" (VStr id1)) in
  let s3 := reduce (world_at 3) s2 (action "DELETE_TASK" (VStr id1)) in
  map (fun task => (field task "description", field task "completed")) (tasks s1)
  = [(VStr "Buy milk", VBool false)] ∧
  map (fun task => field task "completed") (tasks s2) = [VBool true] ∧
  tasks s3 = [].
Proof. vm_compute. repeat split. Qed.

(** The date views read the clock but are cached on the task array alone:
    a month later the same state still gets the list computed today. *)
Lemma cached_view_outlives_the_day :
  map view_ids
    (calls (fun _ => false) tasksRef upcomingTasks arrayEqualityFn emptyCache
       [(sample_clock, mockState); (later_clock, mockState)])
  = [[VStr "3"; VStr "4"]; [VStr "3"; VStr "4"]] ∧
  upcomingTasks later_clock mockTasks = [].
Proof. vm_compute. repeat split. Qed.

(** * Further properties *)

(** ** The validator *)

(** X1. An action that [validateAction] accepts carries one of the fifteen
    action types of [Action]: the [default:] branch of the reducer's
    [switch] is never reached. *)
Theorem validateAction_known_type (a : JsVal) :
  validateAction a = Valid → ∃ type, prop a "type" = VStr type ∧ type ∈ action_types.
Proof.
  unfold validateAction. destruct (not_an_object a); [done|].
  destruct (prop a "type") as [| |b|n|type|l|o]; try done.
  destruct (String.eqb type ""); [done|]. cbv zeta.
  intros H. exists type. split; [done|]. revert H.
  unfold action_types.
  repeat match goal with
         | |- context [String.eqb type ?c] =>
             let E := fresh "E" in
             destruct (String.eqb type c) eqn:E;
             [apply String.eqb_eq in E; subst type; intros _; set_solver|]
         end.
  simpl. done.
Qed.

Lemma validateTagList_spec (l : list JsVal) : validateTagList l = Valid ↔ Forall valid_tag l.
Proof.
  induction l as [|v l IH]; [by split|]. simpl. split.
  - destruct v as [| |b|n|t|l'|o]; try done.
    destruct (String.length (trim t) =? 0) eqn:E0; [done|].
    destruct (50 <? String.length t) eqn:E1; [done|].
    intros H. constructor; [|by apply IH].
    exists t. apply Nat.eqb_neq in E0. apply Nat.ltb_ge in E1.
    split; [done|]. split; [|done]. unfold blank. intros Hb. by rewrite Hb in E0.
  - intros H. apply Forall_cons in H as [(t & -> & Hb & Hlen) Hl].
    assert ((String.length (trim t) =? 0) = false) as ->.
    { apply Nat.eqb_neq. intros Hz. apply Hb. unfold blank.
      by destruct (trim t). }
    assert ((50 <? String.length t) = false) as -> by by apply Nat.ltb_ge.
    by apply IH.
Qed.

Lemma validateTags_valid (tags : JsVal) :
  validateTags tags = Valid ↔
  tags = VUndef ∨ ∃ l, tags = VArr l ∧ length l ≤ 20 ∧ Forall valid_tag l.
Proof.
  destruct tags as [| |b|n|t|l|o]; simpl;
    try (split; [done|intros [H|(l' & H & _)]; discriminate H]).
  - split; [by left|done].
  - destruct (20 <? length l) eqn:E.
    + apply Nat.ltb_lt in E. split; [done|].
      intros [H|(l' & [= <-] & Hlen & _)]; [done|lia].
    + apply Nat.ltb_ge in E. rewrite validateTagList_spec. split.
      * intros H. right. by exists l.
      * by intros [H|(l' & [= <-] & _ & H)].
Qed.

Lemma validateDueDate_valid (v : JsVal) :
  validateDueDate v = Valid ↔
  v = VNull ∨ v = VUndef ∨ ∃ q, v = VNum (Fin q) ∧ (0 <= q)%Q.
Proof.
  destruct v as [| |b|n|t|l|o]; simpl;
    try (split; [done|intros [H|[H|(q & H & _)]]; discriminate H]).
  - split; [by right; left|done].
  - split; [by left|done].
  - destruct n as [| | |q]; simpl;
      try (split; [done|intros [H|[H|(q' & H & _)]]; discriminate H]).
    destruct (Qle_bool (inject_Z 0) q) eqn:Hq; simpl.
    + apply Qle_bool_iff in Hq. split; [|done]. intros _. right. right. by exists q.
    + split; [done|]. intros [H|[H|(q' & [= <-] & Hle)]]; try done.
      apply Qle_bool_iff in Hle. unfold inject_Z in Hq. congruence.
Qed.

Lemma validatePriority_valid (v : JsVal) :
  validatePriority v = true ↔
  v = VStr "low" ∨ v = VStr "medium" ∨ v = VStr "high" ∨ v = VStr "critical".
Proof.
  unfold validatePriority. rewrite !orb_true_iff.
  assert (Hs : ∀ s, is_str v s = true ↔ v = VStr s).
  { intros s. destruct v; simpl; try (split; [done|congruence]).
    rewrite String.eqb_eq. split; congruence. }
  rewrite !Hs. tauto.
Qed.

(** X2. [validateTaskInput] accepts a task input exactly when its
    description is a string that is not blank and has at most 500
    characters once trimmed, its priority is absent or one of the four
    levels, its due date is [null], absent or a finite number that is not
    negative, and its tags are absent or an array of at most twenty
    strings, none of them blank, none longer than fifty characters. *)
Theorem validateTaskInput_spec (input : JsVal) :
  validateTaskInput input = Valid ↔
  (∃ d, prop input "description" = VStr d ∧ ¬ blank d ∧ String.length (trim d) ≤ 500) ∧
  (prop input "priority" = VUndef ∨ validatePriority (prop input "priority") = true) ∧
  (prop input "dueDate" = VNull ∨ prop input "dueDate" = VUndef ∨
   ∃ q, prop input "dueDate" = VNum (Fin q) ∧ (0 <= q)%Q) ∧
  (prop input "tags" = VUndef ∨
   ∃ l, prop input "tags" = VArr l ∧ length l ≤ 20 ∧ Forall valid_tag l).
Proof.
  rewrite <- validateTags_valid, <- validateDueDate_valid. unfold validateTaskInput.
  assert (Hd : validateTaskDescription (prop input "description") = Valid ↔
               ∃ d, prop input "description" = VStr d ∧ ¬ blank d ∧
                    String.length (trim d) ≤ 500).
  { split; [apply validateTaskDescription_valid|].
    intros (d & -> & Hb & Hlen). simpl.
    destruct (String.length (trim d) =? 0) eqn:E0.
    { apply Nat.eqb_eq in E0. destruct Hb. unfold blank. by destruct (trim d). }
    by apply Nat.ltb_ge in Hlen as ->. }
  rewrite <- Hd.
  destruct (validateTaskDescription (prop input "description")); [|by split; [|intros [? _]]].
  assert (Hp : negb (strict_eq (prop input "priority") VUndef)
               && negb (validatePriority (prop input "priority")) = false ↔
               prop input "priority" = VUndef ∨ validatePriority (prop input "priority") = true).
  { destruct (validatePriority (prop input "priority")); [rewrite andb_false_r; tauto|].
    rewrite andb_true_r, negb_false_iff.
    destruct (prop input "priority"); simpl; split; try done; try tauto;
      by intros [H|H]. }
  destruct (negb (strict_eq (prop input "priority") VUndef)
            && negb (validatePriority (prop input "priority"))) eqn:E.
  { split; [done|]. intros (_ & H & _). apply Hp in H. done. }
  destruct (validateDueDate (prop input "dueDate")); [|by split; [|intros (_ & _ & ? & _)]].
  destruct (validateTags (prop input "tags")); [|by split; [|intros (_ & _ & _ & ?)]].
  split; [|done]. intros _. split; [done|]. split; [by apply Hp|]. done.
Qed.

Lemma validateTaskId_errors (v : JsVal) (e : string) :
  validateTaskId v = Invalid e → e ∈ validation_errors.
Proof.
  destruct v as [| |b|n|i|l|o]; simpl; try (intros [= <-]; listed).
  destruct (String.length (trim i) =? 0); [|discriminate]. intros [= <-]. listed.
Qed.

Lemma validateIdList_errors (l : list JsVal) (e : string) :
  validateIdList l = Invalid e → e ∈ validation_errors.
Proof.
  induction l as [|v l IH]; [discriminate|]. simpl.
  destruct (validateTaskId v) eqn:E; [exact IH|]. intros [= <-]. by eapply validateTaskId_errors.
Qed.

Lemma validateTagList_errors (l : list JsVal) (e : string) :
  validateTagList l = Invalid e → e ∈ validation_errors.
Proof.
  induction l as [|v l IH]; [discriminate|]. simpl.
  destruct v as [| |b|n|t|l'|o]; try (intros [= <-]; listed).
  destruct (String.length (trim t) =? 0); [intros [= <-]; listed|].
  destruct (50 <? String.length t); [intros [= <-]; listed|exact IH].
Qed.

Lemma validateDueDate_errors (v : JsVal) (e : string) :
  validateDueDate v = Invalid e →
  e ∈ [ "Due date must be a number (Unix timestamp) or null"; "Due date cannot be negative";
        "Due date must be a finite number" ].
Proof.
  destruct v as [| |b|n|t|l|o]; simpl; try discriminate; try (intros [= <-]; listed).
  destruct (Num.ltb n (num_of_Z 0)); [intros [= <-]; listed|].
  destruct (negb (Num.isFinite n)); [intros [= <-]; listed|discriminate].
Qed.

Lemma validateTaskInput_errors (v : JsVal) (e : string) :
  validateTaskInput v = Invalid e → e ∈ validation_errors.
Proof.
  unfold validateTaskInput.
  destruct (validateTaskDescription _) eqn:Hd.
  2:{ intros [= <-]. revert Hd. unfold validateTaskDescription.
      destruct (prop v "description") as [| |b|n|d|l|o]; try (intros [= <-]; listed).
      destruct (String.length (trim d) =? 0); [intros [= <-]; listed|].
      destruct (500 <? String.length (trim d)); [intros [= <-]; listed|discriminate]. }
  destruct (_ && _); [intros [= <-]; listed|].
  destruct (validateDueDate _) eqn:Hdue.
  2:{ intros [= <-]. apply validateDueDate_errors in Hdue.
      rewrite !elem_of_cons, elem_of_nil in Hdue.
      destruct Hdue as [-> | [-> | [-> | []]]]; listed. }
  destruct (validateTags _) eqn:Ht; [discriminate|].
  intros [= <-]. revert Ht. unfold validateTags.
  destruct (prop v "tags") as [| |b|n|t|l|o]; try discriminate; try (intros [= <-]; listed).
  destruct (20 <? length l); [intros [= <-]; listed|]. apply validateTagList_errors.
Qed.

Lemma shown_messages_of_errors :
  Forall (fun e => mapValidationError e ∈ shown_messages) validation_errors.
Proof.
  unfold validation_errors, shown_messages.
  apply Forall_forall. intros e He. refine (@bool_decide_unpack _ _ _).
  rewrite !elem_of_cons, elem_of_nil in He.
  repeat (destruct He as [->|He]; [vm_compute; exact I|]). destruct He.
Qed.

(** X4. The error of a rejected action is one of the twenty-five error
    strings of the validator, and the message the reducer then reports is
    one of five entries of [ErrorMessages] (neither "Please select a valid
    due date" nor "Task not found" is among them); or the action has a type
    that is none of the fifteen, and the error quotes that type. *)
Theorem validation_error_catalogue (a : JsVal) (e : string) :
  validateAction a = Invalid e →
  (e ∈ validation_errors ∧ mapValidationError e ∈ shown_messages) ∨
  (∃ type, prop a "type" = VStr type ∧ (type ∉ action_types) ∧
           e = "Unknown action type: " +:+ type).
Proof.
  intros H.
  assert (He : e ∈ validation_errors ∨
               ∃ type, prop a "type" = VStr type ∧ (type ∉ action_types) ∧
                       e = "Unknown action type: " +:+ type).
  { revert H. unfold validateAction.
    destruct (not_an_object a); [intros [= <-]; left; listed|].
    destruct (prop a "type") as [| |b|n|type|l|o]; try (intros [= <-]; left; listed).
    destruct (String.eqb type ""); [intros [= <-]; left; listed|]. cbv zeta.
    destruct (String.eqb type "ADD_TASK") eqn:E1.
    { destruct (not_an_object _); [intros [= <-]; left; listed|].
      intros H. left. by eapply validateTaskInput_errors. }
    destruct (String.eqb type "UPDATE_TASK") eqn:E2.
    { destruct (not_an_object _); [intros [= <-]; left; listed|].
      destruct (validateTaskId _) eqn:Hid.
      - destruct (not_an_object _); [intros [= <-]; left; listed|done].
      - intros [= <-]. left. by eapply validateTaskId_errors. }
    destruct (String.eqb type "DELETE_TASK" || String.eqb type "TOGGLE_COMPLETE"
              || String.eqb type "TOGGLE_TASK_SELECTION") eqn:E3.
    { intros H. left. by eapply validateTaskId_errors. }
    destruct (String.eqb type "REORDER_TASKS") eqn:E4.
    { destruct (not_an_object _); [intros [= <-]; left; listed|done]. }
    destruct (String.eqb type "SET_VIEW") eqn:E5.
    { destruct (negb _); [intros [= <-]; left; listed|done]. }
    destruct (String.eqb type "SET_REORDER_MODE") eqn:E6.
    { destruct (negb _); [intros [= <-]; left; listed|done]. }
    destruct (String.eqb type "SET_EDITING_TASK") eqn:E7.
    { destruct (negb _); [|done]. intros H. left. by eapply validateTaskId_errors. }
    destruct (String.eqb type "SET_TAG_FILTER") eqn:E8.
    { destruct (_ && _); [intros [= <-]; left; listed|done]. }
    destruct (String.eqb type "BATCH_DELETE" || String.eqb type "BATCH_COMPLETE") eqn:E9.
    { destruct (prop a "payload"); try (intros [= <-]; left; listed).
      intros H. left. by eapply validateIdList_errors. }
    destruct (String.eqb type "SET_THEME") eqn:E10.
    { destruct (not_an_object _); [intros [= <-]; left; listed|done]. }
    destruct (String.eqb type "TOGGLE_MULTI_SELECT" || String.eqb type "CLEAR_SELECTIONS")
      eqn:E11; [done|].
    intros [= <-]. right. exists type. split; [done|]. split; [|done].
    apply orb_false_elim in E3 as [E3 E3c]. apply orb_false_elim in E3 as [E3a E3b].
    apply orb_false_elim in E9 as [E9a E9b]. apply orb_false_elim in E11 as [E11a E11b].
    apply String.eqb_neq in E1, E2, E3a, E3b, E3c, E4, E5, E6, E7, E8, E9a, E9b, E10,
      E11a, E11b.
    unfold action_types. rewrite !not_elem_of_cons. repeat split; try done.
    apply not_elem_of_nil. }
  destruct He as [He|He]; [left|by right]. split; [done|].
  pose proof shown_messages_of_errors as Hall. rewrite Forall_forall in Hall. by apply Hall.
Qed.

(** X5. An ADD_TASK with a valid description and no priority that is
    rejected for its due date is reported as "Something went wrong. Please
    try again", and the state is returned as it was: the three errors of
    [validateDueDate] begin with "Due date", and [mapValidationError] looks
    for "due date". *)
Theorem due_date_rejection_message (w : World) (s : AppState) (payload dueDate : JsVal)
    (e : string) :
  not_an_object payload = false →
  validateTaskDescription (prop payload "description") = Valid →
  prop payload "priority" = VUndef →
  prop payload "dueDate" = dueDate →
  validateDueDate dueDate = Invalid e →
  appReducer w s (action "ADD_TASK" payload)
  = (s, [Feedback "Something went wrong. Please try again" error]).
Proof.
  intros Hobj Hd Hp Hdd He. unfold appReducer, validateAction.
  change (not_an_object (action "ADD_TASK" payload)) with false.
  cbv iota zeta. rewrite prop_action_type, prop_action_payload. simpl.
  rewrite Hobj. unfold validateTaskInput. rewrite Hd, Hp, Hdd, He. simpl.
  apply validateDueDate_errors in He.
  rewrite !elem_of_cons, elem_of_nil in He.
  destruct He as [-> | [-> | [-> | []]]]; reflexivity.
Qed.

(** X3. On every string [sanitizeInput] gives the verdict of
    [validateTaskDescription], which is also the verdict of
    [validateAction] on the ADD_TASK that carries the string as its
    description and nothing else; trimming the string first does not change
    the verdict. *)
Theorem sanitizeInput_agrees (input : string) :
  sanitizeInput input = validateTaskDescription (VStr input) ∧
  validateAction (action "ADD_TASK" (VObj {[ "description" := VStr input ]}))
  = sanitizeInput input ∧
  sanitizeInput (trim input) = sanitizeInput input.
Proof.
  split; [done|]. split.
  - unfold validateAction.
    change (not_an_object (action "ADD_TASK" (VObj {[ "description" := VStr input ]})))
      with false.
    cbv iota zeta. rewrite prop_action_type, prop_action_payload. simpl.
    unfold validateTaskInput.
    change (prop (VObj {["description" := VStr input]}) "description") with (VStr input).
    change (prop (VObj {["description" := VStr input]}) "priority") with VUndef.
    change (prop (VObj {["description" := VStr input]}) "dueDate") with VUndef.
    change (prop (VObj {["description" := VStr input]}) "tags") with VUndef.
    simpl. unfold sanitizeInput. by repeat case_match.
  - unfold sanitizeInput. by rewrite trim_idem.
Qed.

(** ** What a reducer call reports and what it leaves alone *)


(** X7. The parts of the state an action leaves alone: the theme is
    changed by SET_THEME only; SET_THEME and the seven actions on the [ui]
    return the task list they were given; SET_THEME, ADD_TASK, UPDATE_TASK,
    TOGGLE_COMPLETE and REORDER_TASKS return the [ui] they were given. *)
Theorem action_frames (w : World) (s : AppState) (a : JsVal) (type : string) :
  prop a "type" = VStr type →
  (type ≠ "SET_THEME" → theme (reduce w s a) = theme s) ∧
  (type ∈ "SET_THEME" :: ui_action_types → tasks (reduce w s a) = tasks s) ∧
  (type ∈ "SET_THEME" :: task_action_types → ui (reduce w s a) = ui s).
Proof.
  intros Hty. unfold ui_action_types, task_action_types.
  unfold reduce, appReducer.
  destruct (validateAction a) eqn:Hvalid; [|done].
  cbv zeta. rewrite Hty.
  repeat match goal with
         | |- context [if String.eqb ?t ?c then _ else _] =>
             let E := fresh "Etype" in
             destruct (String.eqb t c) eqn:E; [apply String.eqb_eq in E; subst t|]
         end.
  all: (split; [|split]); intros H; try not_listed H.
  all: try done.
  all: unfold updateTask, deleteTask, toggleComplete, reorderTasks, toggleMultiSelect,
         toggleTaskSelection, setEditingTask, batchDelete, batchComplete.
  all: try by repeat case_match.
  all: exfalso; rewrite ?elem_of_cons, ?elem_of_nil in H.
  all: apply String.eqb_neq in Etype, Etype0, Etype1, Etype2, Etype3, Etype4, Etype5,
           Etype6, Etype7, Etype8, Etype9, Etype10, Etype11, Etype12, Etype13.
  all: intuition congruence.
Qed.

(** ** DELETE_TASK *)

Lemma deleteTask_reduce (w : World) (s : AppState) (id : string) :
  validateTaskId (VStr id) = Valid →
  reduce w s (action "DELETE_TASK" (VStr id)) = fst (deleteTask s (VStr id)).
Proof.
  intros Hv. unfold reduce, appReducer, validateAction.
  change (not_an_object (action "DELETE_TASK" (VStr id))) with false.
  cbv iota zeta. rewrite prop_action_type, prop_action_payload. simpl.
  simpl in Hv. by rewrite Hv.
Qed.

Lemma filter_gset_difference (X : gset string) (id : string) :
  filter (fun i => strict_eq (VStr i) (VStr id) = false) X = X ∖ {[ id ]}.
Proof.
  apply set_eq. intros i. rewrite elem_of_filter, elem_of_difference, elem_of_singleton.
  simpl. rewrite String.eqb_neq. tauto.
Qed.

(** X8. A DELETE_TASK whose payload is a non-blank id string naming a task
    removes every task with that id and keeps the others in their order, so
    that no task carries the id afterwards and the list is shorter; it takes
    the id out of [selectedTaskIds], resets [editingTaskId] to [null] when
    it was that id, and changes nothing else. *)
Theorem delete_task_removes (w : World) (s : AppState) (id : string) :
  validateTaskId (VStr id) = Valid → taskExists (tasks s) (VStr id) = true →
  let s' := reduce w s (action "DELETE_TASK" (VStr id)) in
  tasks s' = List.filter (fun task => negb (strict_eq (field task "id") (VStr id))) (tasks s) ∧
  Forall (fun task => field task "id" ≠ VStr id) (tasks s') ∧
  length (tasks s') < length (tasks s) ∧
  selectedTaskIds (ui s') = selectedTaskIds (ui s) ∖ {[ id ]} ∧
  editingTaskId (ui s')
  = (if decide (editingTaskId (ui s) = Some id) then None else editingTaskId (ui s)) ∧
  selectedView (ui s') = selectedView (ui s) ∧
  multiSelectMode (ui s') = multiSelectMode (ui s) ∧
  reorderMode (ui s') = reorderMode (ui s) ∧ selectedTag (ui s') = selectedTag (ui s) ∧
  theme s' = theme s.
Proof.
  intros Hv Hex s'. unfold s'. rewrite deleteTask_reduce by done.
  unfold deleteTask. rewrite Hex. simpl.
  split; [done|]. split; [|split; [|split; [|split]]].
  - apply Forall_forall. intros task Hin.
    apply list_elem_of_In, filter_In in Hin as [_ Hne].
    intros Heq. apply strict_eq_str in Heq. by rewrite Heq in Hne.
  - apply taskExists_true in Hex as (task & Hin & Heq).
    apply list_elem_of_In in Hin.
    pose proof (filter_length (fun task => negb (strict_eq (field task "id") (VStr id)))
                  (tasks s)) as Hlen.
    remember (List.filter (fun x => negb (negb (strict_eq (field x "id") (VStr id))))
                (tasks s)) as gone eqn:Hgone.
    assert (Hin' : In task gone).
    { rewrite Hgone. apply filter_In. split; [done|]. by rewrite Heq. }
    destruct gone; [done|]. simpl in Hlen. lia.
  - apply filter_gset_difference.
  - destruct (editingTaskId (ui s)) as [e|]; simpl; [|done].
    destruct (String.eqb e id) eqn:E.
    + apply String.eqb_eq in E as ->. by rewrite decide_True.
    + apply String.eqb_neq in E. rewrite decide_False; [done|congruence].
  - done.
Qed.

(** ** BATCH_COMPLETE *)

Lemma batchComplete_reduce (w : World) (s : AppState) (P : list string) :
  Forall (fun i => validateTaskId (VStr i) = Valid) P →
  reduce w s (action "BATCH_COMPLETE" (id_array P)) = fst (batchComplete s (map VStr P)).
Proof.
  intros HP. unfold reduce, appReducer, validateAction.
  change (not_an_object (action "BATCH_COMPLETE" (id_array P))) with false.
  cbv iota zeta. rewrite prop_action_type, prop_action_payload. simpl.
  by rewrite validateIdList_strings.
Qed.

Lemma id_in_completed (P : list string) (task : Obj) (v : JsVal) :
  id_in P (<["completed" := v]> task) = id_in P task.
Proof. unfold id_in. by rewrite field_insert_ne. Qed.

Lemma id_set_map (f : Obj → Obj) (ts : list Obj) :
  (∀ task, field (f task) "id" = field task "id") → id_set (map f ts) = id_set ts.
Proof.
  intros Hf. induction ts as [|task ts IH]; [done|].
  change (map f (task :: ts)) with (f task :: map f ts).
  rewrite !id_set_cons, IH. unfold id_string. by rewrite Hf.
Qed.

(** X9. For a BATCH_COMPLETE whose payload is the array of non-blank id
    strings [P]: when no id of [P] is the id of a task the state is
    returned as it was; otherwise every task whose id is in [P] gets
    [completed = true] and is otherwise kept, the other tasks are kept, the
    ids and positions stay, the selection is emptied and multi-select mode
    switched off, and dispatching the same action again changes no task. *)
Theorem batch_complete_marks (w : World) (s : AppState) (P : list string) :
  Forall (fun i => validateTaskId (VStr i) = Valid) P →
  let s' := reduce w s (action "BATCH_COMPLETE" (id_array P)) in
  let common : gset string := list_to_set P ∩ id_set (tasks s) in
  (common = ∅ → s' = s) ∧
  (common ≠ ∅ →
     batch_completed P s s' ∧
     Forall (fun task => id_in P task = true → field task "completed" = VBool true) (tasks s') ∧
     map (fun task => field task "id") (tasks s') = map (fun task => field task "id") (tasks s) ∧
     ∀ w', tasks (reduce w' s' (action "BATCH_COMPLETE" (id_array P))) = tasks s').
Proof.
  intros HP s' common.
  assert (Hstep : ∀ s0, list_to_set P ∩ id_set (tasks s0) ≠ (∅ : gset string) →
            batch_completed P s0 (fst (batchComplete s0 (map VStr P)))).
  { intros s0 Hne. unfold batchComplete.
    destruct (length (List.filter (taskExists (tasks s0)) (map VStr P)) =? 0) eqn:Hz.
    { apply Nat.eqb_eq, nil_length_inv, existing_ids_nil in Hz. by destruct Hne. }
    unfold batch_completed. simpl. repeat split.
    apply map_ext_in. intros task Hin.
    rewrite existing_ids_has; [done|by apply list_elem_of_In]. }
  unfold s'. rewrite batchComplete_reduce by done. split.
  - intros Hempty. apply existing_ids_nil in Hempty.
    unfold batchComplete. by rewrite Hempty.
  - intros Hne. pose proof (Hstep s Hne) as Hdone.
    destruct Hdone as (Htasks & Hrest).
    assert (Hids : ∀ task : Obj,
              field (if id_in P task then <["completed" := VBool true]> task else task) "id"
              = field task "id").
    { intros task. destruct (id_in P task); [|done]. by rewrite field_insert_ne. }
    split; [by split|]. split; [|split].
    + rewrite Htasks. apply Forall_forall. intros task' Hin.
      apply list_elem_of_In, in_map_iff in Hin as (task & <- & _).
      destruct (id_in P task) eqn:E; [|congruence].
      intros _. apply field_insert_eq.
    + rewrite Htasks, map_map. by apply map_ext.
    + intros w'. rewrite batchComplete_reduce by done.
      destruct (Hstep (fst (batchComplete s (map VStr P)))) as (Htasks' & _).
      { rewrite Htasks, id_set_map; done. }
      rewrite Htasks', Htasks, map_map. apply map_ext. intros task.
      destruct (id_in P task) eqn:E; [|by rewrite E].
      rewrite id_in_completed, E. apply insert_insert_eq.
Qed.

(** ** The selection toggles *)

Lemma toggleTaskSelection_reduce (w : World) (s : AppState) (id : string) :
  validateTaskId (VStr id) = Valid →
  reduce w s (action "TOGGLE_TASK_SELECTION" (VStr id)) = fst (toggleTaskSelection s (VStr id)).
Proof.
  intros Hv. unfold reduce, appReducer, validateAction.
  change (not_an_object (action "TOGGLE_TASK_SELECTION" (VStr id))) with false.
  cbv iota zeta. rewrite prop_action_type, prop_action_payload. simpl.
  simpl in Hv. by rewrite Hv.
Qed.

(** X11. A TOGGLE_TASK_SELECTION of the id of a task flips the membership
    of that id in [selectedTaskIds] and of no other id, whatever
    [multiSelectMode] is, and changes nothing else; dispatched twice it
    gives a state with the contents of the original one. *)
Theorem toggle_task_selection_twice (w1 w2 : World) (s : AppState) (id : string) :
  validateTaskId (VStr id) = Valid → taskExists (tasks s) (VStr id) = true →
  let s' := reduce w1 s (action "TOGGLE_TASK_SELECTION" (VStr id)) in
  (id ∈ selectedTaskIds (ui s') ↔ id ∉ selectedTaskIds (ui s)) ∧
  (∀ i, i ≠ id → i ∈ selectedTaskIds (ui s') ↔ i ∈ selectedTaskIds (ui s)) ∧
  multiSelectMode (ui s') = multiSelectMode (ui s) ∧ tasks s' = tasks s ∧
  reduce w2 s' (action "TOGGLE_TASK_SELECTION" (VStr id)) = s.
Proof.
  intros Hv Hex s'. unfold s'. rewrite !toggleTaskSelection_reduce by done.
  unfold toggleTaskSelection. rewrite Hex. simpl. rewrite Hex. simpl.
  destruct s as [ts [view multi sel reorder editing tag] th]. simpl in *.
  unfold with_ui, ui_selection. simpl.
  destruct (decide (id ∈ sel)) as [Hin|Hout].
  - rewrite decide_False by set_solver.
    split; [set_solver|]. split; [set_solver|]. split; [done|]. split; [done|].
    do 2 f_equal. apply set_eq. intros i.
    destruct (decide (i = id)) as [->|]; set_solver.
  - rewrite decide_True by set_solver.
    split; [set_solver|]. split; [set_solver|]. split; [done|]. split; [done|].
    do 2 f_equal. set_solver.
Qed.

(** X12. Two TOGGLE_MULTI_SELECT in a row amount to one CLEAR_SELECTIONS:
    the mode is what it was and nothing is selected; the state has the
    contents of the original one when nothing was selected. *)
Theorem toggle_multi_select_twice (w1 w2 w3 : World) (s : AppState) :
  let s' := reduce w2 (reduce w1 s (action0 "TOGGLE_MULTI_SELECT")) (action0 "TOGGLE_MULTI_SELECT") in
  s' = reduce w3 s (action0 "CLEAR_SELECTIONS") ∧
  multiSelectMode (ui s') = multiSelectMode (ui s) ∧ selectedTaskIds (ui s') = ∅ ∧
  (selectedTaskIds (ui s) = ∅ → s' = s).
Proof.
  intros s'. unfold s'.
  change (reduce w3 s (action0 "CLEAR_SELECTIONS"))
    with (with_ui s (ui_selection (ui s) (multiSelectMode (ui s)) ∅)).
  change (reduce w1 s (action0 "TOGGLE_MULTI_SELECT")) with (fst (toggleMultiSelect s)).
  change (reduce w2 (fst (toggleMultiSelect s)) (action0 "TOGGLE_MULTI_SELECT"))
    with (fst (toggleMultiSelect (fst (toggleMultiSelect s)))).
  destruct s as [ts [view multi sel reorder editing tag] th].
  unfold toggleMultiSelect, with_ui, ui_selection. simpl.
  destruct multi; simpl; repeat split; try done.
  all: by intros ->.
Qed.

(** ** REORDER_TASKS, there and back *)

Lemma index_is_move (i : nat) : index_is (VNum (num_of_Z (Z.of_nat i))) i.
Proof.
  exists (num_of_Z (Z.of_nat i)). split; [done|]. simpl. by apply Qeq_bool_iff.
Qed.

Lemma reorder_move (w : World) (s : AppState) (i j : nat) (x : Obj) :
  tasks s !! i = Some x → j < length (tasks s) →
  reduce w s (action "REORDER_TASKS" (move (Z.of_nat i) (Z.of_nat j)))
  = with_tasks s (splice_in j x (splice_out i (tasks s))).
Proof.
  intros Hx Hj. apply lookup_lt_Some in Hx as Hi.
  rewrite reorderTasks_reduce by done.
  unfold reorderTasks.
  change (prop (move (Z.of_nat i) (Z.of_nat j)) "fromIndex")
    with (VNum (num_of_Z (Z.of_nat i))).
  change (prop (move (Z.of_nat i) (Z.of_nat j)) "toIndex")
    with (VNum (num_of_Z (Z.of_nat j))).
  assert (validateReorderIndices (VNum (num_of_Z (Z.of_nat i))) (VNum (num_of_Z (Z.of_nat j)))
            (length (tasks s)) = Valid) as ->.
  { apply validateReorderIndices_valid.
    split; [exists i|exists j]; (split; [done|apply index_is_move]). }
  cbv zeta.
  destruct (index_is_move i) as (f & Hf & Hfi), (index_is_move j) as (t & Ht & Htj).
  injection Hf as <-. injection Ht as <-.
  destruct (num_index _ i Hfi) as (_ & -> & _), (num_index _ j Htj) as (_ & -> & _).
  by rewrite !Nat2Z.id, Hx.
Qed.

Lemma splice_back (i : nat) (x : Obj) (l : list Obj) :
  l !! i = Some x → splice_in i x (splice_out i l) = l.
Proof.
  intros Hx. apply lookup_lt_Some in Hx as Hi. unfold splice_in, splice_out.
  rewrite take_app_le by (rewrite length_take; lia).
  rewrite take_take, Nat.min_id.
  rewrite drop_app_ge by (rewrite length_take; lia).
  rewrite length_take, Nat.min_l by lia. rewrite Nat.sub_diag. simpl.
  by apply take_drop_middle.
Qed.

Lemma splice_undo (j : nat) (x : Obj) (l : list Obj) :
  j ≤ length l → splice_out j (splice_in j x l) = l.
Proof.
  intros Hj. unfold splice_in, splice_out.
  rewrite take_app_le by (rewrite length_take; lia).
  rewrite take_take, Nat.min_id.
  rewrite drop_app_ge by (rewrite length_take; lia).
  rewrite length_take, Nat.min_l by lia.
  replace (S j - j) with 1 by lia. simpl. rewrite drop_0. apply take_drop.
Qed.

(** X13. Moving the task at position [i] to position [j] and then the
    task at position [j] to position [i] gives a state with the contents of
    the original one, for all positions of the list; moving a task to its
    own position changes nothing. *)
Theorem reorder_round_trip (w1 w2 : World) (s : AppState) (i j : nat) :
  i < length (tasks s) → j < length (tasks s) →
  reduce w2 (reduce w1 s (action "REORDER_TASKS" (move (Z.of_nat i) (Z.of_nat j))))
    (action "REORDER_TASKS" (move (Z.of_nat j) (Z.of_nat i))) = s ∧
  reduce w1 s (action "REORDER_TASKS" (move (Z.of_nat i) (Z.of_nat i))) = s.
Proof.
  intros Hi Hj.
  destruct (lookup_lt_is_Some_2 (tasks s) i Hi) as [x Hx].
  assert (Hlen : length (splice_out i (tasks s)) = length (tasks s) - 1).
  { unfold splice_out. rewrite length_app, length_take, length_drop. lia. }
  split.
  - rewrite (reorder_move w1 s i j x) by done.
    destruct (splice_lookup i j x (tasks s) Hx Hj) as [Hl Hjx].
    rewrite (reorder_move w2 _ j i x); simpl; [|done|lia].
    rewrite splice_undo by lia. rewrite splice_back by done. by destruct s.
  - rewrite (reorder_move w1 s i i x) by done. rewrite splice_back by done. by destruct s.
Qed.

(** ** ADD_TASK, continued *)

Lemma validatePriority_truthy (v : JsVal) : validatePriority v = true → truthy v = true.
Proof.
  destruct v as [| |b|n|p|l|o]; try done. unfold validatePriority. simpl.
  destruct (String.eqb_spec p "low") as [->|]; [done|].
  destruct (String.eqb_spec p "medium") as [->|]; [done|].
  destruct (String.eqb_spec p "high") as [->|]; [done|].
  destruct (String.eqb_spec p "critical") as [->|]; done.
Qed.

(** X15. The task a valid ADD_TASK appends has exactly the seven
    properties of [Task], whatever else the payload carries, and is itself
    a valid task input: its priority is one of the four levels ([medium]
    when the payload has none), its due date is [null] or a finite number
    that is not negative, its tags are an array of at most twenty valid
    tags, and [createdAt] is the clock reading. *)
Theorem add_task_stores_valid_input (w : World) (s : AppState) (payload : JsVal) :
  validateAction (action "ADD_TASK" payload) = Valid →
  ∃ newTask,
    tasks (reduce w s (action "ADD_TASK" payload)) = tasks s ++ [newTask] ∧
    dom newTask = task_keys ∧
    validateTaskInput (VObj newTask) = Valid ∧
    validatePriority (field newTask "priority") = true ∧
    (prop payload "priority" = VUndef → field newTask "priority" = VStr "medium") ∧
    (field newTask "dueDate" = VNull ∨
     ∃ q, field newTask "dueDate" = VNum (Fin q) ∧ (0 <= q)%Q) ∧
    (∃ l, field newTask "tags" = VArr l ∧ length l ≤ 20 ∧ Forall valid_tag l) ∧
    field newTask "createdAt" = VNum (num_of_Z (createdNow w)).
Proof.
  intros Hv. rewrite addTask_reduce by done.
  apply validateAction_add in Hv.
  destruct (validateTaskInput_description payload Hv) as (d & Hd & Hne & Hlen).
  unfold validateTaskInput in Hv. rewrite Hd in Hv.
  destruct (validateTaskDescription (VStr d)) eqn:Hdesc; [|done].
  destruct (negb (strict_eq (prop payload "priority") VUndef)
            && negb (validatePriority (prop payload "priority"))) eqn:Hprio; [done|].
  destruct (validateDueDate (prop payload "dueDate")) eqn:Hdue; [|done].
  destruct (validateTags (prop payload "tags")) eqn:Htags; [|done].
  clear Hv. unfold addTask. rewrite Hd. simpl js_trim.
  set (priority := js_or (prop payload "priority") (VStr "medium")).
  set (dueDate := js_nullish (prop payload "dueDate") VNull).
  set (tags := js_or (prop payload "tags") (VArr [])).
  assert (Hp : validatePriority priority = true ∧
               (prop payload "priority" = VUndef → priority = VStr "medium")).
  { unfold priority, js_or. destruct (prop payload "priority") as [| |b|n|p|l|o] eqn:E;
      simpl in Hprio; try done.
    apply negb_false_iff in Hprio. rewrite (validatePriority_truthy _ Hprio). done. }
  assert (Hdd : validateDueDate dueDate = Valid ∧
                (dueDate = VNull ∨ ∃ q, dueDate = VNum (Fin q) ∧ (0 <= q)%Q)).
  { unfold dueDate, js_nullish.
    destruct (prop payload "dueDate") as [| |b|n|p|l|o] eqn:E; try done.
    - split; [done|by left].
    - split; [done|by left].
    - split; [done|]. right. simpl in Hdue.
      destruct n as [| | |q]; try done. exists q. split; [done|].
      unfold Num.ltb, num_of_Z in Hdue.
      destruct (Qle_bool (inject_Z 0) q) eqn:Hq; [|done].
      by apply Qle_bool_iff in Hq. }
  assert (Htg : validateTags tags = Valid ∧
                ∃ l, tags = VArr l ∧ length l ≤ 20 ∧ Forall valid_tag l).
  { unfold tags, js_or. apply validateTags_valid in Htags as [->|(l & -> & Hl & Hall)].
    - simpl. split; [done|]. exists []. split; [done|]. split; [simpl; lia|constructor].
    - cbn [truthy]. split; [|by exists l]. apply validateTags_valid. right. by exists l. }
  eexists. split; [reflexivity|].
  split; [|split; [|split; [|split; [|split; [|split]]]]].
  - unfold task_keys. rewrite dom_list_to_map_L. done.
  - unfold validateTaskInput.
    change (prop (VObj ?o) ?k) with (default VUndef (o !! k)).
    change (validateTaskDescription _) with (validateTaskDescription (VStr (trim d))).
    change (validateDueDate _) with (validateDueDate dueDate).
    change (validateTags _) with (validateTags tags).
    change (validatePriority _) with (validatePriority priority).
    destruct Hp as [-> _], Hdd as [-> _], Htg as [-> _].
    rewrite andb_false_r.
    unfold validateTaskDescription in *. by rewrite trim_idem, Hdesc.
  - by destruct Hp.
  - by destruct Hp.
  - by destruct Hdd.
  - by destruct Htg.
  - done.
Qed.

Lemma validateTaskId_generateId (w : World) : validateTaskId (VStr (generateId w)) = Valid.
Proof.
  unfold validateTaskId, generateId, trim.
  change (String.append "task_") with (fun t => String "t" (String "a" (String "s"
    (String "k" (String "_" t))))).
  cbv beta. simpl trimStart.
  destruct (trimEnd_head "t" (String "a" (String "s" (String "k" (String "_"
              (pretty (idTimestamp w) +:+ "_" +:+ randomSuffix w))))) eq_refl) as [r ->].
  done.
Qed.

(** X16. The id that [generateId] builds always passes [validateTaskId],
    so the task a valid ADD_TASK appends can be deleted by that id; when no
    task carried the id before, the DELETE_TASK gives back the task list as
    it was before the ADD_TASK, and the whole state when the id was neither
    selected nor being edited. *)
Theorem add_then_delete (w w' : World) (s : AppState) (payload : JsVal) :
  validateAction (action "ADD_TASK" payload) = Valid →
  Forall (fun task => field task "id" ≠ VStr (generateId w)) (tasks s) →
  let s1 := reduce w s (action "ADD_TASK" payload) in
  let s2 := reduce w' s1 (action "DELETE_TASK" (VStr (generateId w))) in
  validateAction (action "DELETE_TASK" (VStr (generateId w))) = Valid ∧
  taskExists (tasks s1) (VStr (generateId w)) = true ∧
  tasks s2 = tasks s ∧ theme s2 = theme s ∧
  (generateId w ∉ selectedTaskIds (ui s) → editingTaskId (ui s) ≠ Some (generateId w) →
   s2 = s).
Proof.
  intros Hv Hfresh s1 s2.
  assert (Hid := validateTaskId_generateId w).
  assert (Hs1 : ∃ newTask, tasks s1 = tasks s ++ [newTask] ∧
                 field newTask "id" = VStr (generateId w) ∧
                 ui s1 = ui s ∧ theme s1 = theme s).
  { unfold s1. rewrite addTask_reduce by done. unfold addTask. simpl.
    eexists. split; [reflexivity|]. by repeat split. }
  destruct Hs1 as (newTask & Ht1 & Hnew & Hu1 & Hth1).
  assert (Hex : taskExists (tasks s1) (VStr (generateId w)) = true).
  { apply taskExists_true. exists newTask. split.
    - rewrite Ht1. apply elem_of_app. right. by apply list_elem_of_singleton.
    - by apply strict_eq_str. }
  assert (Hs2 : s2 = fst (deleteTask s1 (VStr (generateId w)))).
  { unfold s2. by rewrite deleteTask_reduce. }
  assert (Hkeep : List.filter
                    (fun task => negb (strict_eq (field task "id") (VStr (generateId w))))
                    (tasks s1) = tasks s).
  { rewrite Ht1, List.filter_app. simpl. rewrite Hnew.
    assert (strict_eq (VStr (generateId w)) (VStr (generateId w)) = true) as ->
      by by apply strict_eq_str.
    simpl. rewrite app_nil_r.
    clear -Hfresh. induction Hfresh as [|task ts Hne _ IH]; [done|]. simpl.
    destruct (strict_eq (field task "id") (VStr (generateId w))) eqn:E.
    - by apply strict_eq_str in E.
    - simpl. by rewrite IH. }
  split; [|split; [done|]].
  { unfold validateAction.
    change (not_an_object (action "DELETE_TASK" (VStr (generateId w)))) with false.
    cbv iota zeta. rewrite prop_action_type, prop_action_payload. done. }
  rewrite Hs2. unfold deleteTask. rewrite Hex. unfold next.
  cbn [negb fst tasks ui theme]. rewrite Hkeep.
  split; [done|]. split; [done|].
  intros Hsel Hedit. rewrite Hth1, Hu1, filter_gset_difference.
  assert (selectedTaskIds (ui s) ∖ {[generateId w]} = selectedTaskIds (ui s)) as ->
    by set_solver.
  assert ((if strict_eq (val_of_option (editingTaskId (ui s))) (VStr (generateId w))
           then None else editingTaskId (ui s)) = editingTaskId (ui s)) as ->.
  { destruct (editingTaskId (ui s)) as [e|]; [|done]. simpl.
    destruct (String.eqb e (generateId w)) eqn:E; [|done].
    apply String.eqb_eq in E. congruence. }
  by destruct s as [ts [view multi sel reorder editing tag] th].
Qed.

(** ** The ids along dispatch sequences *)

Lemma elem_of_id_set (ts : list Obj) (i : string) :
  i ∈ id_set ts ↔ ∃ task, task ∈ ts ∧ field task "id" = VStr i.
Proof.
  unfold id_set. rewrite elem_of_list_to_set, list_elem_of_omap.
  split; intros (task & Hin & H); exists task; split; auto; by apply id_string_Some.
Qed.

Lemma id_set_permutation (ts ts' : list Obj) : ts ≡ₚ ts' → id_set ts = id_set ts'.
Proof.
  intros Hp. apply set_eq. intros i. rewrite !elem_of_id_set.
  split; intros (task & Hin & H); exists task; (split; [|done]).
  - by rewrite <- Hp.
  - by rewrite Hp.
Qed.

Lemma id_set_app (ts ts' : list Obj) : id_set (ts ++ ts') = id_set ts ∪ id_set ts'.
Proof.
  apply set_eq. intros i. rewrite elem_of_union, !elem_of_id_set.
  setoid_rewrite elem_of_app. naive_solver.
Qed.

Lemma id_set_filter (f : Obj → bool) (ts : list Obj) (i : string) :
  i ∈ id_set (List.filter f ts) ↔ ∃ task, task ∈ ts ∧ f task = true ∧ field task "id" = VStr i.
Proof.
  rewrite elem_of_id_set. split.
  - intros (task & Hin & H). apply list_elem_of_In, filter_In in Hin as [Hin Hf].
    exists task. by rewrite list_elem_of_In.
  - intros (task & Hin & Hf & H). exists task. split; [|done].
    apply list_elem_of_In, filter_In. by rewrite <- list_elem_of_In.
Qed.

Lemma merged_keeps_id (updates : JsVal) (task : Obj) :
  own_props updates !! "id" = None → field (own_props updates ∪ task) "id" = field task "id".
Proof. intros H. unfold field. by rewrite lookup_union_r. Qed.

(** The ids of the tasks after one dispatch: the same set, or one id more
    (ADD_TASK), or some ids less (DELETE_TASK, BATCH_DELETE). *)
Lemma id_set_step (w : World) (s : AppState) (a : JsVal) :
  keeps_id a →
  id_set (tasks (reduce w s a)) = id_set (tasks s) ∨
  (is_str (prop a "type") "ADD_TASK" = true ∧
   id_set (tasks (reduce w s a)) = id_set (tasks s) ∪ {[ generateId w ]}) ∨
  (is_str (prop a "type") "DELETE_TASK" = true ∧
   ∃ id, prop a "payload" = VStr id ∧
         id_set (tasks (reduce w s a)) = id_set (tasks s) ∖ {[ id ]} ∧
         selectedTaskIds (ui (reduce w s a)) = selectedTaskIds (ui s) ∖ {[ id ]} ∧
         editingTaskId (ui (reduce w s a)) ≠ Some id ∧
         (editingTaskId (ui (reduce w s a)) = None ∨
          editingTaskId (ui (reduce w s a)) = editingTaskId (ui s))) ∨
  (is_str (prop a "type") "BATCH_DELETE" = true ∧
   selectedTaskIds (ui (reduce w s a)) = ∅).
Proof.
  intros Hkeep. unfold keeps_id in Hkeep.
  reducer_cases w s a; auto.
  - right. left. split; [done|]. unfold addTask. simpl.
    rewrite id_set_app. f_equal. unfold id_set. simpl. set_solver.
  - left. specialize (Hkeep eq_refl).
    unfold updateTask. destruct (negb _); [done|]. simpl.
    apply id_set_map. intros task. destruct (strict_eq _ _); [|done].
    by apply merged_keeps_id.
  - assert (Hid : ∃ id, prop a "payload" = VStr id).
    { revert Hvalid. unfold validateAction. destruct (not_an_object a); [done|].
      rewrite Htype. simpl. destruct (prop a "payload"); try done. eauto. }
    destruct Hid as [id Hid]. rewrite Hid.
    unfold deleteTask. destruct (negb _) eqn:Hex; [by left|].
    right. right. left. split; [done|]. exists id. split; [done|].
    unfold next. cbn [fst tasks ui theme ui_editing selectedTaskIds editingTaskId].
    split; [|split; [|split]].
    + apply set_eq. intros i.
      rewrite id_set_filter, elem_of_difference, elem_of_singleton, elem_of_id_set.
      split.
      * intros (task & Hin & Hne & Hi). split; [eauto|]. intros ->.
        rewrite Hi in Hne. simpl in Hne. by rewrite String.eqb_refl in Hne.
      * intros [(task & Hin & Hi) Hne]. exists task. split; [done|]. split; [|done].
        rewrite Hi. simpl. apply negb_true_iff. by apply String.eqb_neq.
    + apply set_eq. intros i.
      rewrite elem_of_filter, elem_of_difference, elem_of_singleton.
      simpl. rewrite String.eqb_neq. tauto.
    + destruct (editingTaskId (ui s)) as [e|]; simpl; [|done].
      destruct (String.eqb e id) eqn:E; [done|]. apply String.eqb_neq in E. congruence.
    + destruct (strict_eq _ _); auto.
  - left. unfold toggleComplete. destruct (negb _); [done|]. simpl.
    apply id_set_map. intros task. destruct (strict_eq _ _); [|done].
    by rewrite field_insert_ne.
  - left. unfold reorderTasks. repeat case_match; simpl; try done.
    apply id_set_permutation. by apply splice_permutation.
  - left. by destruct (viewType_of _).
  - left. unfold toggleTaskSelection. by repeat case_match.
  - left. by case_match.
  - left. unfold setEditingTask. by case_match.
  - case_match; auto. unfold batchDelete. case_match; [by left|].
    right. right. right. done.
  - left. case_match; auto. unfold batchComplete. case_match; [done|]. simpl.
    apply id_set_map. intros task. destruct (set_has _ _); [|done].
    by rewrite field_insert_ne.
Qed.

Lemma selection_step (w : World) (s : AppState) (a : JsVal) :
  selectedTaskIds (ui (reduce w s a)) ⊆ selectedTaskIds (ui s) ∨
  ∃ id, taskExists (tasks s) (VStr id) = true ∧ tasks (reduce w s a) = tasks s ∧
        selectedTaskIds (ui (reduce w s a)) = selectedTaskIds (ui s) ∪ {[ id ]}.
Proof.
  reducer_cases w s a; auto.
  - left. unfold updateTask. by destruct (negb _).
  - left. unfold deleteTask. destruct (negb _); [done|]. simpl.
    intros i. rewrite elem_of_filter. tauto.
  - left. unfold toggleComplete. by destruct (negb _).
  - left. unfold reorderTasks. by repeat case_match.
  - left. by destruct (viewType_of _).
  - left. unfold toggleMultiSelect. simpl. case_match; set_solver.
  - unfold toggleTaskSelection. destruct (negb _) eqn:Hex; [by left|].
    apply negb_false_iff in Hex.
    destruct (prop a "payload") as [| |b|n|id|l|o]; try by left.
    simpl. destruct (decide _); [left; set_solver|]. right. by exists id.
  - left. simpl. set_solver.
  - left. by case_match.
  - left. unfold setEditingTask. by case_match.
  - left. case_match; try done. unfold batchDelete. case_match; [done|]. simpl. set_solver.
  - left. case_match; try done. unfold batchComplete. case_match; [done|]. simpl. set_solver.
Qed.

Lemma selection_exists_step (w : World) (s : AppState) (a : JsVal) :
  keeps_id a → selection_exists s → selection_exists (reduce w s a).
Proof.
  intros Hkeep Hinv. unfold selection_exists in *.
  destruct (id_set_step w s a Hkeep)
    as [Hids|[[_ Hids]|[(_ & id & _ & Hids & Hsel & _)|[_ Hsel]]]].
  - rewrite Hids.
    destruct (selection_step w s a) as [Hsub|(id & Hex & _ & ->)]; [set_solver|].
    apply taskExists_id_set in Hex. set_solver.
  - rewrite Hids.
    destruct (selection_step w s a) as [Hsub|(id & Hex & _ & ->)]; [set_solver|].
    apply taskExists_id_set in Hex. set_solver.
  - rewrite Hids, Hsel. set_solver.
  - rewrite Hsel. set_solver.
Qed.

(** X17. Along every dispatch sequence from the initial state in which no
    UPDATE_TASK carries an [id] in its updates, every selected id is the id
    of a task. *)
Theorem selection_names_tasks (defaultTheme : JsVal) (trace : list (World * JsVal)) :
  Forall (fun wa => keeps_id (snd wa)) trace →
  selection_exists (run (initialState defaultTheme) trace).
Proof.
  intros Hk.
  assert (Hrun : ∀ s, selection_exists s → selection_exists (run s trace)).
  { induction Hk as [|[w a] rest Ha _ IH]; intros s Hinv; [done|].
    apply IH. by apply selection_exists_step. }
  apply Hrun. unfold selection_exists. simpl. set_solver.
Qed.

Lemma editing_step (w : World) (s : AppState) (a : JsVal) :
  editingTaskId (ui (reduce w s a)) = editingTaskId (ui s) ∨
  editingTaskId (ui (reduce w s a)) = None ∨
  ∃ id, taskExists (tasks s) (VStr id) = true ∧ tasks (reduce w s a) = tasks s ∧
        editingTaskId (ui (reduce w s a)) = Some id.
Proof.
  reducer_cases w s a; auto.
  - left. unfold updateTask. by destruct (negb _).
  - unfold deleteTask. destruct (negb _); [by left|]. simpl.
    destruct (strict_eq _ _); auto.
  - left. unfold toggleComplete. by destruct (negb _).
  - left. unfold reorderTasks. by repeat case_match.
  - left. by destruct (viewType_of _).
  - left. unfold toggleTaskSelection. by repeat case_match.
  - left. by case_match.
  - unfold setEditingTask.
    destruct (negb (strict_eq (prop a "payload") VNull) && _) eqn:E; [by left|]. simpl.
    destruct (prop a "payload") as [| |b|n|id|l|o]; simpl; auto.
    simpl in E. apply negb_false_iff in E. right. right. by exists id.
  - left. case_match; try done. unfold batchDelete. by case_match.
  - left. case_match; try done. unfold batchComplete. by case_match.
Qed.

Lemma editing_exists_step (w : World) (s : AppState) (a : JsVal) :
  keeps_id a → is_str (prop a "type") "BATCH_DELETE" = false →
  editing_exists s → editing_exists (reduce w s a).
Proof.
  intros Hkeep Hnb Hinv. unfold editing_exists in *. intros e He.
  destruct (id_set_step w s a Hkeep)
    as [Hids|[[_ Hids]|[(_ & id & _ & Hids & _ & Hne & Hed)|[Hb _]]]].
  - rewrite Hids.
    destruct (editing_step w s a) as [Heq|[Heq|(id & Hex & _ & Heq)]].
    + apply Hinv. by rewrite <- Heq.
    + congruence.
    + apply taskExists_id_set in Hex. congruence.
  - rewrite Hids.
    destruct (editing_step w s a) as [Heq|[Heq|(id & Hex & _ & Heq)]].
    + apply elem_of_union_l, Hinv. by rewrite <- Heq.
    + congruence.
    + apply taskExists_id_set in Hex. apply elem_of_union_l. congruence.
  - rewrite Hids. apply elem_of_difference. split.
    + apply Hinv. destruct Hed as [Hed|Hed]; congruence.
    + rewrite elem_of_singleton. congruence.
  - congruence.
Qed.

(** X18. Along every dispatch sequence from the initial state in which no
    UPDATE_TASK carries an [id] in its updates and no BATCH_DELETE is
    dispatched, [editingTaskId] is [null] or the id of a task. (BATCH_DELETE
    does not look at [editingTaskId].) *)
Theorem editing_names_task (defaultTheme : JsVal) (trace : list (World * JsVal)) :
  Forall (fun wa => keeps_id (snd wa) ∧ is_str (prop (snd wa) "type") "BATCH_DELETE" = false)
         trace →
  editing_exists (run (initialState defaultTheme) trace).
Proof.
  intros Hk.
  assert (Hrun : ∀ s, editing_exists s → editing_exists (run s trace)).
  { induction Hk as [|[w a] rest [Ha Hb] _ IH]; intros s Hinv; [done|].
    apply IH. by apply editing_exists_step. }
  apply Hrun. unfold editing_exists. simpl. done.
Qed.

Lemma NoDup_map_filter {A B : Type} (f : A → B) (p : A → bool) (l : list A) :
  NoDup (map f l) → NoDup (map f (List.filter p l)).
Proof.
  induction l as [|x l IH]; [done|]. simpl. intros [Hx Hl]%NoDup_cons.
  destruct (p x); [|by apply IH]. simpl. apply NoDup_cons. split; [|by apply IH].
  intros Hin. apply Hx.
  apply list_elem_of_In, in_map_iff in Hin as (y & Hy & Hin).
  apply filter_In in Hin as [Hin _].
  apply list_elem_of_In, in_map_iff. eauto.
Qed.

Lemma ids_distinct_step (w : World) (s : AppState) (a : JsVal) :
  keeps_id a →
  (is_str (prop a "type") "ADD_TASK" = true →
   Forall (fun task => field task "id" ≠ VStr (generateId w)) (tasks s)) →
  ids_distinct s → ids_distinct (reduce w s a).
Proof.
  intros Hkeep Hfresh Hinv. unfold ids_distinct, keeps_id in *.
  reducer_cases w s a; auto.
  - specialize (Hfresh eq_refl). unfold addTask. simpl.
    rewrite map_app. simpl. apply NoDup_app. split; [done|]. split.
    + intros v Hin ->%list_elem_of_singleton.
      apply list_elem_of_In, in_map_iff in Hin as (task & Hid & Hin).
      rewrite Forall_forall in Hfresh. apply (Hfresh task); [|done].
      by apply list_elem_of_In.
    + apply NoDup_singleton.
  - specialize (Hkeep eq_refl).
    unfold updateTask. destruct (negb _); [done|]. simpl.
    rewrite map_map.
    erewrite map_ext; [exact Hinv|]. intros task. simpl.
    destruct (strict_eq _ _); [|done]. by apply merged_keeps_id.
  - unfold deleteTask. destruct (negb _); [done|]. simpl. by apply NoDup_map_filter.
  - unfold toggleComplete. destruct (negb _); [done|]. simpl.
    rewrite map_map.
    erewrite map_ext; [exact Hinv|]. intros task. simpl.
    destruct (strict_eq _ _); [|done]. by rewrite field_insert_ne.
  - unfold reorderTasks. repeat case_match; simpl; try done.
    match goal with
    | Hmoved : tasks s !! _ = Some _ |- _ =>
        by rewrite (Permutation_map (fun task : Obj => field task "id")
                      (splice_permutation _ _ _ _ Hmoved))
    end.
  - by destruct (viewType_of _).
  - unfold toggleTaskSelection. by repeat case_match.
  - by case_match.
  - unfold setEditingTask. by case_match.
  - case_match; try done. unfold batchDelete. case_match; [done|]. simpl.
    by apply NoDup_map_filter.
  - case_match; try done. unfold batchComplete. case_match; [done|]. simpl.
    rewrite map_map.
    erewrite map_ext; [exact Hinv|]. intros task. simpl.
    destruct (set_has _ _); [|done]. by rewrite field_insert_ne.
Qed.

(** X19. Along every dispatch sequence from the initial state in which no
    UPDATE_TASK carries an [id] in its updates and every ADD_TASK is given
    a clock reading and random digits whose id is not in use, the ids of
    the tasks are pairwise distinct. *)
Theorem ids_stay_distinct (defaultTheme : JsVal) (trace : list (World * JsVal)) :
  fresh_ids (initialState defaultTheme) trace →
  ids_distinct (run (initialState defaultTheme) trace).
Proof.
  assert (Hrun : ∀ s, fresh_ids s trace → ids_distinct s → ids_distinct (run s trace)).
  { induction trace as [|[w a] rest IH]; intros s Hf Hinv; [done|].
    destruct Hf as (Hk & Hnew & Hrest). apply IH; [done|].
    by apply ids_distinct_step. }
  intros Hf. apply Hrun; [done|]. unfold ids_distinct. simpl. constructor.
Qed.

(** ** UPDATE_TASK, continued *)

Lemma merged_twice (id updates : JsVal) (task : Obj) :
  own_props updates !! "id" = None →
  merged id updates (merged id updates task) = merged id updates task.
Proof.
  intros Hid. unfold merged at 2.
  destruct (strict_eq (field task "id") id) eqn:E.
  - unfold merged. rewrite merged_keeps_id by done. rewrite E.
    by rewrite (assoc_L (∪)), (idemp_L (∪)).
  - unfold merged. by rewrite E.
Qed.

Lemma taskExists_map (f : Obj → Obj) (ts : list Obj) (id : JsVal) :
  (∀ task, field (f task) "id" = field task "id") →
  taskExists (map f ts) id = taskExists ts id.
Proof.
  intros Hf. unfold taskExists. induction ts as [|task ts IH]; [done|].
  simpl. by rewrite Hf, IH.
Qed.

(** X14. An UPDATE_TASK whose updates carry no [id] is idempotent:
    dispatched a second time it returns the state the first dispatch
    returned, be there a task with that id or not. *)
Theorem update_task_idempotent (w1 w2 : World) (s : AppState) (payload : Obj)
    (id : string) (updates : JsVal) :
  payload !! "id" = Some (VStr id) → payload !! "updates" = Some updates →
  validateTaskId (VStr id) = Valid → not_an_object updates = false →
  own_props updates !! "id" = None →
  let a := action "UPDATE_TASK" (VObj payload) in
  reduce w2 (reduce w1 s a) a = reduce w1 s a.
Proof.
  intros Hid Hup Hv Hobj Hkeep a.
  assert (Hred : ∀ w s0, reduce w s0 a = fst (updateTask s0 (VObj payload))).
  { intros w s0. unfold reduce, appReducer, a.
    rewrite (validateAction_update payload id updates) by done.
    cbv zeta. by rewrite prop_action_type, prop_action_payload. }
  rewrite !Hred. unfold updateTask. simpl. rewrite Hid, Hup. simpl.
  destruct (taskExists (tasks s) (VStr id)) eqn:Hex; simpl; [|by rewrite Hex].
  fold (merged (VStr id) updates).
  rewrite taskExists_map, Hex.
  2:{ intros task. unfold merged. destruct (strict_eq _ _); [|done].
      by apply merged_keeps_id. }
  simpl. unfold with_tasks. simpl. f_equal.
  rewrite map_map. apply map_ext. intros task. by apply merged_twice.
Qed.

(** ** BATCH_DELETE, continued *)

Lemma filter_nothing {A : Type} (f : A → bool) (l : list A) :
  (∀ x, x ∈ l → f x = true) → List.filter f l = l.
Proof.
  induction l as [|x l IH]; [done|]. intros H. simpl.
  rewrite (H x) by by left. f_equal. apply IH. intros y Hy. apply H. by right.
Qed.

Lemma list_filter_filter {A : Type} (f g : A → bool) (l : list A) :
  List.filter f (List.filter g l) = List.filter (fun x => g x && f x) l.
Proof.
  induction l as [|x l IH]; [done|]. simpl.
  destruct (g x); simpl; [|done]. destruct (f x); by rewrite IH.
Qed.

Lemma deleteTask_tasks (w : World) (s : AppState) (id : string) :
  validateTaskId (VStr id) = Valid →
  tasks (reduce w s (action "DELETE_TASK" (VStr id)))
  = List.filter (fun task => negb (strict_eq (field task "id") (VStr id))) (tasks s) ∧
  theme (reduce w s (action "DELETE_TASK" (VStr id))) = theme s.
Proof.
  intros Hv. rewrite deleteTask_reduce by done. unfold deleteTask.
  destruct (taskExists (tasks s) (VStr id)) eqn:Hex; simpl; [done|].
  split; [|done]. symmetry. apply filter_nothing. intros task Hin.
  apply negb_true_iff, not_true_is_false. intros Heq.
  assert (taskExists (tasks s) (VStr id) = true); [|congruence].
  apply taskExists_true. by exists task.
Qed.

(** X10. A BATCH_DELETE of the non-blank id strings [P] leaves the task
    list (and the theme) that a DELETE_TASK for each id of [P] in turn
    leaves. *)
Theorem batch_delete_as_deletes (w : World) (s : AppState) (P : list string) :
  Forall (fun i => validateTaskId (VStr i) = Valid) P →
  let one_by_one := run s (map (fun i => (w, action "DELETE_TASK" (VStr i))) P) in
  tasks (reduce w s (action "BATCH_DELETE" (id_array P))) = tasks one_by_one ∧
  theme (reduce w s (action "BATCH_DELETE" (id_array P))) = theme one_by_one.
Proof.
  intros HP.
  assert (Hrun : ∀ s0,
            tasks (run s0 (map (fun i => (w, action "DELETE_TASK" (VStr i))) P))
            = List.filter (fun task => negb (id_in P task)) (tasks s0) ∧
            theme (run s0 (map (fun i => (w, action "DELETE_TASK" (VStr i))) P)) = theme s0).
  { induction HP as [|i P Hi _ IH]; intros s0.
    - simpl. split; [|done]. symmetry. apply filter_nothing. by intros task _.
    - simpl. destruct (IH (reduce w s0 (action "DELETE_TASK" (VStr i)))) as [-> ->].
      destruct (deleteTask_tasks w s0 i Hi) as [-> ->]. split; [|done].
      rewrite list_filter_filter. apply filter_ext. intros task.
      unfold id_in. simpl. rewrite negb_orb. f_equal. f_equal.
      destruct (field task "id"); simpl; try done. apply String.eqb_sym. }
  cbv zeta. destruct (Hrun s) as [-> ->].
  rewrite batchDelete_reduce by done. unfold batchDelete.
  destruct (length (List.filter (taskExists (tasks s)) (map VStr P)) =? 0) eqn:Hz; simpl.
  - split; [|done]. symmetry. apply filter_nothing. intros task Hin.
    apply Nat.eqb_eq, nil_length_inv in Hz.
    rewrite <- (existing_ids_has (tasks s) P task Hin), Hz. done.
  - split; [|done]. apply filter_ext_in. intros task Hin. f_equal.
    apply existing_ids_has. by apply list_elem_of_In.
Qed.

(** ** The smart views *)

Lemma todayTasks_elem (c : Clock) (tasks : Ref (list (Ref Obj))) (task : Ref Obj) :
  task ∈ todayTasks c tasks ↔
  task ∈ target tasks ∧
  truthy (field (target task) "dueDate") = true ∧
  truthy (field (target task) "completed") = false ∧
  ∃ due, Date_of (field (target task) "dueDate") = Some due ∧
         (due < today_of c + msPerDay)%Z.
Proof.
  unfold todayTasks. rewrite list_elem_of_In, filter_In, <- list_elem_of_In.
  apply and_iff_compat_l. simpl. fold (today_of c).
  destruct (truthy (field (target task) "dueDate")); simpl; [|naive_solver].
  destruct (truthy (field (target task) "completed")); simpl; [naive_solver|].
  destruct (Date_of (field (target task) "dueDate")) as [due|]; simpl; [|naive_solver].
  rewrite Z.ltb_lt. split.
  - intros H. repeat split; try done. by exists due.
  - by intros (_ & _ & due' & [= <-] & H).
Qed.

Lemma highPriorityTasks_elem (c : Clock) (tasks : Ref (list (Ref Obj))) (task : Ref Obj) :
  task ∈ highPriorityTasks c tasks ↔
  task ∈ target tasks ∧ truthy (field (target task) "completed") = false ∧
  (field (target task) "priority" = VStr "high" ∨
   field (target task) "priority" = VStr "critical").
Proof.
  unfold highPriorityTasks. rewrite list_elem_of_In, filter_In, <- list_elem_of_In.
  apply and_iff_compat_l. rewrite andb_true_iff, orb_true_iff, negb_true_iff.
  apply and_iff_compat_l.
  assert (Hs : ∀ v s, is_str v s = true ↔ v = VStr s).
  { intros v s. destruct v; simpl; try (split; [done|congruence]).
    rewrite String.eqb_eq. split; congruence. }
  by rewrite !Hs.
Qed.

Lemma completedTasks_elem (c : Clock) (tasks : Ref (list (Ref Obj))) (task : Ref Obj) :
  task ∈ completedTasks c tasks ↔
  task ∈ target tasks ∧ truthy (field (target task) "completed") = true.
Proof.
  unfold completedTasks. by rewrite list_elem_of_In, filter_In, <- list_elem_of_In.
Qed.

(** X20. The Today view is a sub-list of the tasks, in their order. A
    task whose [dueDate] is a number, [null] or [undefined] (the [Task]
    type) is in it exactly when it is a task of the list, is not completed,
    and its due date is a number other than 0 and [NaN] that makes a date
    before the local midnight that ends today, however long overdue. Such
    a task is never in both the Today and the Upcoming view, and when it is
    open and due up to the midnight that begins the seventh day it is in
    one of the two. *)
Theorem today_view_window (c : Clock) (tasks : Ref (list (Ref Obj))) (task : Ref Obj) :
  due_date_typed (target task) →
  sublist (todayTasks c tasks) (target tasks) ∧
  (task ∈ todayTasks c tasks ↔
   task ∈ target tasks ∧
   truthy (field (target task) "completed") = false ∧
   ∃ n due, field (target task) "dueDate" = VNum n ∧ truthy (VNum n) = true ∧
            Date_of (VNum n) = Some due ∧ (due < today_of c + msPerDay)%Z) ∧
  ¬ (task ∈ todayTasks c tasks ∧ task ∈ upcomingTasks c tasks) ∧
  (∀ n due, task ∈ target tasks →
     field (target task) "dueDate" = VNum n → truthy (VNum n) = true →
     truthy (field (target task) "completed") = false →
     Date_of (VNum n) = Some due →
     (due <= today_of c + 7 * msPerDay)%Z →
     task ∈ todayTasks c tasks ∨ task ∈ upcomingTasks c tasks).
Proof.
  intros Htyped. split; [apply list_filter_sublist|]. split; [|split].
  - rewrite todayTasks_elem. apply and_iff_compat_l. split.
    + intros (Hdue & Hopen & due & Hd & Hlt). split; [done|].
      destruct Htyped as [Hnull|[Hundef|[n Hn]]].
      * by rewrite Hnull in Hdue.
      * by rewrite Hundef in Hdue.
      * exists n, due. by rewrite <- Hn.
    + intros (Hopen & n & due & Hn & Htruthy & Hd & Hlt). rewrite Hn.
      split; [done|]. split; [done|]. by exists due.
  - rewrite todayTasks_elem, upcomingTasks_elem.
    intros [(_ & _ & _ & due & Hd & Hlt) (_ & _ & _ & due' & Hd' & Hge & _)].
    rewrite Hd in Hd'. injection Hd' as <-. lia.
  - intros n due Hin Hn Htruthy Hopen Hd Hweek.
    rewrite todayTasks_elem, upcomingTasks_elem, Hn.
    destruct (decide (due < today_of c + msPerDay)%Z).
    + left. repeat split; try done. by exists due.
    + right. repeat split; try done. exists due. split; [done|]. lia.
Qed.

(** X21. The Completed view holds the tasks with a truthy [completed], the
    Priority view the open tasks whose priority is [high] or [critical],
    both as sub-lists of the tasks; a task of the Completed view is in none
    of the Today, Upcoming and Priority views. *)
Theorem completed_view_apart (c : Clock) (tasks : Ref (list (Ref Obj))) (task : Ref Obj) :
  (task ∈ completedTasks c tasks ↔
   task ∈ target tasks ∧ truthy (field (target task) "completed") = true) ∧
  (task ∈ highPriorityTasks c tasks ↔
   task ∈ target tasks ∧ truthy (field (target task) "completed") = false ∧
   (field (target task) "priority" = VStr "high" ∨
    field (target task) "priority" = VStr "critical")) ∧
  ¬ (task ∈ completedTasks c tasks ∧
     (task ∈ todayTasks c tasks ∨ task ∈ upcomingTasks c tasks ∨
      task ∈ highPriorityTasks c tasks)) ∧
  sublist (completedTasks c tasks) (target tasks) ∧
  sublist (highPriorityTasks c tasks) (target tasks).
Proof.
  split; [apply completedTasks_elem|]. split; [apply highPriorityTasks_elem|].
  split; [|split; apply list_filter_sublist].
  rewrite completedTasks_elem, todayTasks_elem, upcomingTasks_elem, highPriorityTasks_elem.
  intros [[_ Hdone] [H|[H|H]]]; destruct H as (_ & H); intuition congruence.
Qed.

Lemma calls_compatible_clock_free {Result : Type}
    (resultFn : Clock → Ref (list (Ref Obj)) → Result) (inputs : list (Clock * Snapshot)) :
  (∀ c c' a b, target a = target b → resultFn c a = resultFn c' b) →
  heap_consistent (map snd inputs) →
  calls_compatible (fun _ => false) tasksRef resultFn arrayEqualityFn inputs.
Proof.
  intros Hext Hheap.
  assert (Hsub : ∀ l, l ⊆ inputs →
            calls_compatible (fun _ => false) tasksRef resultFn arrayEqualityFn l).
  { induction l as [|[now s] l IH]; intros Hl; [done|]. simpl. split.
    - intros now' s' Hin _ Heq.
      apply Hext. apply (arrayEqualityFn_target (map snd inputs)); [done| | |done].
      + apply list_elem_of_fmap. exists (now, s). split; [done|]. apply Hl. by left.
      + apply list_elem_of_fmap. exists (now', s'). split; [done|]. apply Hl. by right.
    - apply IH. intros x Hx. apply Hl. by right. }
  by apply Hsub.
Qed.

(** X22. The memoized Priority, Completed and All views yield on every
    call, whatever the clock readings of the calls, the filter of the tasks
    of the state they are called on (objects are not mutated in place):
    unlike the date views they cannot be stale. *)
Theorem clock_free_views_up_to_date (inputs : list (Clock * Snapshot)) :
  heap_consistent (map snd inputs) →
  map value (calls (fun _ => false) tasksRef highPriorityTasks arrayEqualityFn emptyCache inputs)
  = map (fun '(now, snap) => Some (highPriorityTasks now (tasksRef snap))) inputs ∧
  map value (calls (fun _ => false) tasksRef completedTasks arrayEqualityFn emptyCache inputs)
  = map (fun '(now, snap) => Some (completedTasks now (tasksRef snap))) inputs ∧
  map value (calls (fun _ => false) tasksRef allTasks arrayEqualityFn emptyCache inputs)
  = map (fun '(now, snap) => Some (allTasks now (tasksRef snap))) inputs.
Proof.
  intros Hheap.
  repeat split; (apply calls_agree_pairwise, calls_compatible_clock_free; [|done]);
    intros c c' a b Hab; unfold highPriorityTasks, completedTasks, allTasks; by rewrite Hab.
Qed.

(** ** Selectors with several inputs, and the view on display *)



Lemma arrayEqualityFn_refl {A : Type} (a : Ref (list (Ref A))) : arrayEqualityFn a a = true.
Proof. unfold arrayEqualityFn, same_ref. by rewrite Nat.eqb_refl. Qed.

Lemma filterByTag_arrays (tag : string) (l : list (Ref Obj)) :
  Forall (fun task => isArray (field (target task) "tags") = true) l →
  ∃ shown, filterByTag tag l = Some shown ∧ sublist shown l ∧
    ∀ task, task ∈ shown ↔
      task ∈ l ∧ ∃ tags, field (target task) "tags" = VArr tags ∧ VStr tag ∈ tags.
Proof.
  induction 1 as [|task l Harr _ (shown & Hs & Hsub & Hel)]; simpl.
  { exists []. split; [done|]. split; [done|]. intros task. rewrite elem_of_nil. tauto. }
  rewrite Hs.
  destruct (field (target task) "tags") as [| |b|n|str|tags|o] eqn:Ht; try done. simpl.
  assert (Hhas : existsb (fun t => strict_eq t (VStr tag)) tags = true ↔ VStr tag ∈ tags).
  { rewrite existsb_exists. split.
    - intros (x & Hin & ->%strict_eq_str). by apply list_elem_of_In.
    - intros Hin. exists (VStr tag). split; [by apply list_elem_of_In|by apply strict_eq_str]. }
  destruct (existsb _ tags) eqn:E.
  - eexists. split; [done|]. split; [by constructor|].
    intros task'. rewrite !elem_of_cons, Hel. split.
    + intros [->|[Hin Htag]]; [|by auto]. split; [by left|]. exists tags. split; [done|].
      by apply Hhas.
    + intros [[->|Hin] Htag]; auto.
  - exists shown. split; [done|]. split; [by constructor|].
    intros task'. rewrite elem_of_cons, Hel. split.
    + intros [Hin Htag]. auto.
    + intros [[->|Hin] Htag]; [|done].
      destruct Htag as (tags' & Ht' & Hin'). rewrite Ht in Ht'. injection Ht' as <-.
      apply Hhas in Hin'. congruence.
Qed.

(** X24. On a state whose tasks all have an array as [tags], a first call
    of [selectTasksByView] does not throw and yields a sub-list of the
    selected view, in its order: the tasks of the view that carry the
    selected tag, or the whole view when the selected tag is [null] or the
    empty string. A second call on the same state, at any clock reading,
    yields that list again. *)
Theorem tasks_by_view (c c' : Clock) (snap : Snapshot) :
  Forall (fun task => isArray (field (target task) "tags") = true) (target (tasksRef snap)) →
  let filtered := viewTasks (selectedView (uiOf snap)) c (tasksRef snap) in
  ∃ shown,
    fst (selectTasksByView emptyCaches c snap) = Some shown ∧
    sublist shown filtered ∧
    (∀ task, task ∈ shown ↔
       task ∈ filtered ∧
       ∀ tag, selectedTag (uiOf snap) = Some tag → tag ≠ "" →
         ∃ tags, field (target task) "tags" = VArr tags ∧ VStr tag ∈ tags) ∧
    (selectedTag (uiOf snap) = None ∨ selectedTag (uiOf snap) = Some "" → shown = filtered) ∧
    fst (selectTasksByView (snd (selectTasksByView emptyCaches c snap)) c' snap) = Some shown.
Proof.
  intros Harr filtered.
  assert (Hfilt : Forall (fun task => isArray (field (target task) "tags") = true) filtered).
  { unfold filtered. destruct (selectedView (uiOf snap)); simpl;
      try by apply Forall_list_filter. done. }
  assert (Hfirst :
    fst (selectTasksByView emptyCaches c snap)
    = match selectedTag (uiOf snap) with
      | Some tag => if String.eqb tag "" then Some filtered else filterByTag tag filtered
      | None => Some filtered
      end ∧
    fst (selectTasksByView (snd (selectTasksByView emptyCaches c snap)) c' snap)
    = fst (selectTasksByView emptyCaches c snap)).
  { assert (Hhit : ∀ (resultFn : Clock → Ref (list (Ref Obj)) → list (Ref Obj)) r,
              createSelector (fun _ => false) tasksRef resultFn arrayEqualityFn
                {| lastInput := Some (tasksRef snap); lastResult := Some r; hasRun := true |}
                c' snap
              = (Cached (Some r),
                 {| lastInput := Some (tasksRef snap); lastResult := Some r;
                    hasRun := true |})).
    { intros resultFn r. unfold createSelector.
      cbn [hasRun lastInput lastResult negb andb]. by rewrite arrayEqualityFn_refl. }
    unfold selectTasksByView, filtered.
    destruct (selectedView (uiOf snap));
      unfold selectAllTasks, selectTodayTasks, selectUpcomingTasks, selectHighPriorityTasks,
        selectCompletedTasks, emptyCaches;
      cbn [todayCache upcomingCache highPriorityCache completedCache allCache];
      rewrite first_call_computes; cbn [value viewTasks];
      (destruct (selectedTag (uiOf snap)) as [tag|]; [destruct (String.eqb tag "")|]);
      cbn [fst snd todayCache upcomingCache highPriorityCache completedCache allCache];
      rewrite Hhit; cbn [value fst]; done. }
  destruct Hfirst as (Hone & Htwo). rewrite Htwo, Hone.
  destruct (selectedTag (uiOf snap)) as [tag|] eqn:Htag.
  - destruct (String.eqb tag "") eqn:E.
    + apply String.eqb_eq in E as ->. exists filtered. split; [done|]. split; [done|].
      split; [|done]. intros task. split; [|tauto]. intros Hin. split; [done|].
      by intros tag [= <-].
    + apply String.eqb_neq in E.
      destruct (filterByTag_arrays tag filtered Hfilt) as (shown & Hs & Hsub & Hel).
      exists shown. split; [done|]. split; [done|]. split; [|split; [|done]].
      * intros task. rewrite Hel. split.
        -- intros [Hin Ht]. split; [done|]. by intros tag' [= <-] _.
        -- intros [Hin Ht]. split; [done|]. by apply Ht.
      * intros [H|[= ->]]; done.
  - exists filtered. split; [done|]. split; [done|]. split; [|done].
    intros task. split; [|tauto]. intros Hin. split; [done|]. by intros tag [=].
Qed.

(** ** The tags in use *)

Lemma code_unit_le_trans (a b c : string) :
  code_unit_le a b → code_unit_le b c → code_unit_le a c.
Proof.
  unfold code_unit_le, String.leb. revert b c.
  induction a as [|x a IH]; intros [|y b] [|z c]; simpl; try done.
  unfold Ascii.compare.
  destruct (N.compare_spec (N_of_ascii x) (N_of_ascii y)) as [Hxy|Hxy|Hxy]; [| |done];
    destruct (N.compare_spec (N_of_ascii y) (N_of_ascii z)) as [Hyz|Hyz|Hyz]; try done;
    intros H1 H2.
  - rewrite Hxy, Hyz, N.compare_refl. by apply (IH b c).
  - rewrite Hxy. by apply N.compare_lt_iff in Hyz as ->.
  - rewrite <- Hyz. by apply N.compare_lt_iff in Hxy as ->.
  - assert (N_of_ascii x < N_of_ascii z)%N as ->%N.compare_lt_iff by lia. done.
Qed.

Lemma code_unit_le_transitive : Transitive code_unit_le.
Proof. intros a b c. apply code_unit_le_trans. Qed.

Lemma code_unit_le_total : Total code_unit_le.
Proof. intros a b. apply String.leb_total. Qed.

Lemma code_unit_le_antisymm : AntiSymm eq code_unit_le.
Proof. intros a b. apply String.leb_antisym. Qed.

Lemma addTags_strings (tagSet : list string) (l : list string) :
  NoDup tagSet →
  ∃ tagSet', addTags tagSet (map VStr l) = Some tagSet' ∧ NoDup tagSet' ∧
             ∀ t, t ∈ tagSet' ↔ t ∈ tagSet ∨ t ∈ l.
Proof.
  revert tagSet. induction l as [|tag l IH]; intros tagSet Hnd; simpl.
  { exists tagSet. split; [done|]. split; [done|]. intros t. rewrite elem_of_nil. tauto. }
  destruct (bool_decide (tag ∈ tagSet)) eqn:E.
  - apply bool_decide_eq_true in E.
    destruct (IH tagSet Hnd) as (tagSet' & -> & Hnd' & Hel).
    exists tagSet'. split; [done|]. split; [done|].
    intros t. rewrite Hel, elem_of_cons. naive_solver.
  - apply bool_decide_eq_false in E.
    destruct (IH (tagSet ++ [tag])) as (tagSet' & -> & Hnd' & Hel).
    { apply NoDup_app. split; [done|]. split; [|apply NoDup_singleton].
      intros x Hx ->%list_elem_of_singleton. done. }
    exists tagSet'. split; [done|]. split; [done|].
    intros t. rewrite Hel, elem_of_app, !elem_of_cons, elem_of_nil. naive_solver.
Qed.

Lemma collectTags_typed (tagSet : list string) (ts : list Obj) :
  tags_typed ts → NoDup tagSet →
  ∃ tagSet', collectTags tagSet ts = Some tagSet' ∧ NoDup tagSet' ∧
    ∀ t, t ∈ tagSet' ↔
         t ∈ tagSet ∨ ∃ task l, task ∈ ts ∧ field task "tags" = VArr l ∧ VStr t ∈ l.
Proof.
  intros Hty. revert tagSet.
  induction Hty as [|task ts (l & Hl) _ IH]; intros tagSet Hnd; simpl.
  { exists tagSet. split; [done|]. split; [done|]. intros t. split; [by left|].
    intros [H|(task & l & H%elem_of_nil & _)]; done. }
  rewrite Hl. destruct (addTags_strings tagSet l Hnd) as (tagSet1 & -> & Hnd1 & Hel1).
  destruct (IH tagSet1 Hnd1) as (tagSet' & -> & Hnd' & Hel).
  exists tagSet'. split; [done|]. split; [done|].
  intros t. rewrite Hel, Hel1. split.
  - intros [[H|H]|(task' & l' & Hin & Ht & Hv)]; [by left| |].
    + right. exists task, (map VStr l). split; [by left|]. split; [done|].
      apply list_elem_of_fmap. by exists t.
    + right. exists task', l'. split; [by right|done].
  - intros [H|(task' & l' & Hin & Ht & Hv)]; [by left; left|].
    apply elem_of_cons in Hin as [->|Hin].
    + left. right. rewrite Hl in Ht. injection Ht as <-.
      apply list_elem_of_fmap in Hv as (t' & [= ->] & Hv). done.
    + right. by exists task', l'.
Qed.

(** X25. On a state whose tasks all have an array of strings as [tags],
    [selectAllTags] yields the tags that occur on some task, each once,
    sorted by code units; the order of the tasks does not matter. *)
Theorem selectAllTags_sorted (s : AppState) :
  tags_typed (tasks s) →
  ∃ tags,
    selectAllTags s = Some tags ∧
    StronglySorted code_unit_le tags ∧ NoDup tags ∧
    (∀ t, t ∈ tags ↔ ∃ task l, task ∈ tasks s ∧ field task "tags" = VArr l ∧ VStr t ∈ l) ∧
    (∀ s', tasks s' ≡ₚ tasks s → selectAllTags s' = Some tags).
Proof.
  assert (Hone : ∀ ts, tags_typed ts →
            ∃ tags, match collectTags [] ts with
                    | Some tagSet => Some (merge_sort code_unit_le tagSet)
                    | None => None
                    end = Some tags ∧
              StronglySorted code_unit_le tags ∧ NoDup tags ∧
              (∀ t, t ∈ tags ↔
                    ∃ task l, task ∈ ts ∧ field task "tags" = VArr l ∧ VStr t ∈ l)).
  { intros ts Hty.
    destruct (collectTags_typed [] ts Hty (NoDup_nil_2)) as (tagSet & -> & Hnd & Hel).
    exists (merge_sort code_unit_le tagSet). split; [done|].
    split; [apply (@StronglySorted_merge_sort _ code_unit_le _ code_unit_le_transitive
                    code_unit_le_total)|].
    split; [by rewrite merge_sort_Permutation|].
    intros t. rewrite merge_sort_Permutation, Hel, elem_of_nil. tauto. }
  intros Hty. destruct (Hone (tasks s) Hty) as (tags & Hsel & Hsorted & Hnd & Hel).
  exists tags. split; [done|]. split; [done|]. split; [done|]. split; [done|].
  intros s' Hperm.
  assert (Hty' : tags_typed (tasks s')).
  { unfold tags_typed in *. by rewrite Hperm. }
  destruct (Hone (tasks s') Hty') as (tags' & Hsel' & Hsorted' & Hnd' & Hel').
  unfold selectAllTags. rewrite Hsel'. f_equal.
  apply (@StronglySorted_unique _ code_unit_le code_unit_le_antisymm); [done..|].
  apply NoDup_Permutation; [done..|].
  intros t. rewrite Hel, Hel'.
  split; intros (task & l & Hin & H); exists task, l; (split; [|done]).
  - by rewrite <- Hperm.
  - by rewrite Hperm.
Qed.

(** ** Relative dates *)

Lemma localDay_Some (c : Clock) (t : Z) :
  localDay c (Some t) = Some (msPerDay * ((t + tzOffsetMs c) `div` msPerDay) - tzOffsetMs c)%Z.
Proof.
  unfold localDay, startOfDay. f_equal.
  pose proof (Z.div_mod (t + tzOffsetMs c) msPerDay). unfold msPerDay in *. lia.
Qed.

Lemma today_of_day (c : Clock) :
  today_of c = (msPerDay * ((nowMs c + tzOffsetMs c) `div` msPerDay) - tzOffsetMs c)%Z.
Proof.
  unfold today_of. pose proof (Z.div_mod (nowMs c + tzOffsetMs c) msPerDay).
  unfold msPerDay in *. lia.
Qed.

Lemma roundDays_days (a b off : Z) :
  roundDays (msPerDay * a - off - (msPerDay * b - off)) = (a - b)%Z.
Proof.
  unfold roundDays, msPerDay.
  replace (2 * (86400000 * a - off - (86400000 * b - off)) + 86400000)%Z
    with ((a - b) * (2 * 86400000) + 86400000)%Z by lia.
  rewrite Z.div_add_l by lia.
  change (86400000 `div` (2 * 86400000))%Z with 0%Z. lia.
Qed.

(** The number of local days from today to the day of [due]. *)
Lemma day_distance (c : Clock) (due : Z) :
  ∃ k, (today_of c + k * msPerDay <= due < today_of c + (k + 1) * msPerDay)%Z ∧
       ∀ start target, localDay c (Some (nowMs c)) = Some start →
                       localDay c (Some due) = Some target →
                       roundDays (target - start) = k ∧ (target < start ↔ k < 0)%Z.
Proof.
  exists ((due + tzOffsetMs c) `div` msPerDay - (nowMs c + tzOffsetMs c) `div` msPerDay)%Z.
  rewrite today_of_day. split.
  - pose proof (Z.div_mod (due + tzOffsetMs c) msPerDay).
    pose proof (Z.mod_pos_bound (due + tzOffsetMs c) msPerDay).
    unfold msPerDay in *. lia.
  - intros start target. rewrite !localDay_Some. intros [= <-] [= <-].
    split; [apply roundDays_days|]. unfold msPerDay. lia.
Qed.

(** X26. For a clock reading from 1970 on and a due date the validator
    accepts:
    [isOverdue] holds exactly when [formatRelativeTime] says "Overdue",
    which is exactly when the due date is a valid date before the local
    midnight that begins today. For [null] the first is [false] and the
    second [null]. *)
Theorem overdue_label (c : Clock) (n : JsNum) :
  (0 <= nowMs c)%Z → validateDueDate (VNum n) = Valid →
  (isOverdue c (Some n) = true ↔ formatRelativeTime c (Some n) = Some (Text "Overdue")) ∧
  (isOverdue c (Some n) = true ↔
   ∃ due, Date_of (VNum n) = Some due ∧ (due < today_of c)%Z) ∧
  isOverdue c None = false ∧ formatRelativeTime c None = None.
Proof.
  intros _ _. split; [|split; [|done]].
  - unfold isOverdue, formatRelativeTime. cbv zeta.
    destruct (Date_of (VNum n)) as [due|]; [|done].
    destruct (day_distance c due) as (k & Hk & Hd).
    destruct (localDay c (Some due)) as [target|] eqn:Ht; [|done].
    destruct (localDay c (Some (nowMs c))) as [start|] eqn:Hs; [|done].
    destruct (Hd start target eq_refl eq_refl) as [-> Hlt].
    simpl. rewrite Z.ltb_lt, Hlt.
    destruct (k <? 0)%Z eqn:E; [apply Z.ltb_lt in E; done|].
    apply Z.ltb_ge in E. split; [lia|].
    repeat case_match; done.
  - unfold isOverdue. cbv zeta.
    destruct (Date_of (VNum n)) as [due|]; [|by split; [|intros (? & ? & _)]].
    destruct (day_distance c due) as (k & Hk & Hd).
    destruct (localDay c (Some due)) as [target|] eqn:Ht; [|done].
    destruct (localDay c (Some (nowMs c))) as [start|] eqn:Hs; [|done].
    destruct (Hd start target eq_refl eq_refl) as [_ Hlt].
    simpl. rewrite Z.ltb_lt, Hlt. split.
    + intros Hneg. exists due. split; [done|]. unfold msPerDay in *. lia.
    + intros (due' & [= <-] & Hdue). unfold msPerDay in *. lia.
Qed.

Lemma formatRelativeTime_days (c : Clock) (n : JsNum) (due : Z) :
  Date_of (VNum n) = Some due →
  ∃ k, (today_of c + k * msPerDay <= due < today_of c + (k + 1) * msPerDay)%Z ∧
       formatRelativeTime c (Some n)
       = Some (if (k <? 0)%Z then Text "Overdue"
               else if (k =? 0)%Z then Text "Today"
               else if (k =? 1)%Z then Text "Tomorrow"
               else if (k <=? 7)%Z then inDays k
               else LocaleDate (Some due)).
Proof.
  intros Hdue. destruct (day_distance c due) as (k & Hk & Hd). exists k. split; [done|].
  unfold formatRelativeTime. cbv zeta. rewrite Hdue.
  destruct (localDay c (Some due)) as [target|] eqn:Ht; [|done].
  destruct (localDay c (Some (nowMs c))) as [start|] eqn:Hs; [|done].
  destruct (Hd start target eq_refl eq_refl) as [-> _].
  by repeat case_match.
Qed.

(** X27. For a clock reading from 1970 on and a task whose due date is a
    number the validator accepts: in
    the Today view its label is "Overdue" or "Today", in the Upcoming view
    it is "Tomorrow" or "In k days" with [k] from 2 to 7; and an open task
    with a truthy due date labelled "Overdue" or "Today" is in the Today
    view. *)
Theorem view_labels (c : Clock) (tasks : Ref (list (Ref Obj))) (task : Ref Obj) (n : JsNum) :
  (0 <= nowMs c)%Z →
  field (target task) "dueDate" = VNum n → validateDueDate (VNum n) = Valid →
  (task ∈ todayTasks c tasks →
   formatRelativeTime c (Some n) = Some (Text "Overdue") ∨
   formatRelativeTime c (Some n) = Some (Text "Today")) ∧
  (task ∈ upcomingTasks c tasks →
   formatRelativeTime c (Some n) = Some (Text "Tomorrow") ∨
   ∃ k, (2 <= k <= 7)%Z ∧ formatRelativeTime c (Some n) = Some (inDays k)) ∧
  (task ∈ target tasks → truthy (VNum n) = true →
   truthy (field (target task) "completed") = false →
   formatRelativeTime c (Some n) = Some (Text "Overdue") ∨
   formatRelativeTime c (Some n) = Some (Text "Today") →
   task ∈ todayTasks c tasks).
Proof.
  intros _ Hn _. split; [|split].
  - rewrite todayTasks_elem, Hn. intros (_ & _ & _ & due & Hdue & Hlt).
    destruct (formatRelativeTime_days c n due Hdue) as (k & Hk & ->).
    assert (k <= 0)%Z by (unfold msPerDay in *; lia).
    destruct (k <? 0)%Z eqn:E; [by left|]. apply Z.ltb_ge in E.
    assert (k = 0)%Z as -> by lia. by right.
  - rewrite upcomingTasks_elem, Hn. intros (_ & _ & _ & due & Hdue & Hge & Hle).
    destruct (formatRelativeTime_days c n due Hdue) as (k & Hk & ->).
    assert (1 <= k <= 7)%Z by (unfold msPerDay in *; lia).
    destruct (k <? 0)%Z eqn:E0; [apply Z.ltb_lt in E0; lia|].
    destruct (k =? 0)%Z eqn:E1; [apply Z.eqb_eq in E1; lia|].
    destruct (k =? 1)%Z eqn:E2; [by left|]. apply Z.eqb_neq in E2.
    destruct (k <=? 7)%Z eqn:E3; [|apply Z.leb_gt in E3; lia].
    right. exists k. split; [lia|done].
  - intros Hin Htruthy Hopen Hlabel. rewrite todayTasks_elem, Hn.
    split; [done|]. split; [done|]. split; [done|].
    destruct (Date_of (VNum n)) as [due|] eqn:Hdue.
    + exists due. split; [done|].
      destruct (formatRelativeTime_days c n due Hdue) as (k & Hk & Hf).
      rewrite Hf in Hlabel.
      destruct (k <? 0)%Z eqn:E0; [apply Z.ltb_lt in E0; unfold msPerDay in *; lia|].
      destruct (k =? 0)%Z eqn:E1; [apply Z.eqb_eq in E1; unfold msPerDay in *; lia|].
      exfalso. unfold inDays in Hlabel.
      destruct Hlabel as [Hl|Hl]; repeat case_match; try discriminate Hl.
    + exfalso. unfold formatRelativeTime in Hlabel. cbv zeta in Hlabel.
      rewrite Hdue in Hlabel. simpl in Hlabel. destruct Hlabel as [Hl|Hl]; discriminate Hl.
Qed.

(** ** The dispatch queue *)

Lemma drainLoop_filter (queue sent : list JsVal) :
  drainLoop queue sent = sent ++ List.filter truthy queue.
Proof.
  revert sent. induction queue as [|a queue IH]; intros sent; simpl.
  - by rewrite app_nil_r.
  - rewrite IH. destruct (truthy a); [|done]. by rewrite <- app_assoc.
Qed.

Lemma batchLoop_filter (queue : list JsVal) (processed : nat) (sent : list JsVal) :
  let '(rest, sent') := batchLoop queue processed sent in
  sent' ++ List.filter truthy rest = sent ++ List.filter truthy queue ∧
  length rest ≤ length queue ∧
  (queue ≠ [] → processed < batchSize → length rest < length queue).
Proof.
  revert processed sent. induction queue as [|a queue IH]; intros processed sent; simpl.
  { split; [done|]. split; [done|]. by intros []. }
  destruct (processed <? batchSize) eqn:E.
  - destruct (truthy a) eqn:Ha.
    + specialize (IH (S processed) (sent ++ [a])).
      destruct (batchLoop queue (S processed) (sent ++ [a])) as [rest sent'].
      destruct IH as (Hf & Hl & _). rewrite Hf, <- app_assoc. simpl.
      split; [done|]. split; [lia|]. intros _ _. lia.
    + specialize (IH processed sent).
      destruct (batchLoop queue processed sent) as [rest sent'].
      destruct IH as (Hf & Hl & _). rewrite Hf.
      split; [done|]. split; [lia|]. intros _ _. lia.
  - simpl. split; [done|]. split; [done|]. intros _ Hlt. apply Nat.ltb_ge in E. lia.
Qed.

Lemma batchLoop_bound (queue : list JsVal) (processed : nat) (sent : list JsVal) :
  processed ≤ batchSize →
  length (snd (batchLoop queue processed sent)) + processed ≤ length sent + batchSize.
Proof.
  revert processed sent. induction queue as [|a queue IH]; intros processed sent Hp; simpl.
  { lia. }
  destruct (processed <? batchSize) eqn:E; [|simpl; lia].
  apply Nat.ltb_lt in E. destruct (truthy a).
  - specialize (IH (S processed) (sent ++ [a]) ltac:(lia)).
    rewrite length_app in IH. simpl in IH. lia.
  - by apply IH.
Qed.

Lemma provider_invariant_event (frames : bool) (all : list JsVal) (p : Provider) (e : Event) :
  provider_invariant frames all p →
  provider_invariant frames
    (all ++ match e with Dispatch action => [action] | Frame => [] end) (event frames p e).
Proof.
  intros Hinv. pose proof Hinv as (Hsent & Hbusy & Hsched & Hsync).
  destruct e as [a|]; simpl.
  - unfold dispatch, processQueue. simpl.
    rewrite length_app. simpl. replace (length (actionQueue p) + 1 =? 0) with false
      by (symmetry; apply Nat.eqb_neq; lia).
    rewrite orb_false_r.
    destruct (isProcessing p) eqn:Hp; simpl.
    + unfold provider_invariant. simpl. rewrite !List.filter_app, app_assoc, Hsent.
      split; [done|]. split; [done|]. split; [done|].
      intros ->. by destruct (Hsync eq_refl).
    + assert (Hq : actionQueue p = []).
      { destruct (actionQueue p); [done|]. by specialize (Hbusy ltac:(done)). }
      rewrite Hq in *. simpl in *. rewrite app_nil_r in Hsent.
      destruct frames; unfold provider_invariant; simpl.
      * rewrite !List.filter_app, <- Hsent, Hsched. simpl.
        split; [done|]. split; [done|]. split; [done|]. done.
      * rewrite !List.filter_app, <- Hsent, Hsched. simpl.
        destruct (truthy a); rewrite ?app_nil_r; by repeat split.
  - rewrite app_nil_r. destruct (scheduled p) as [|n] eqn:Hn; [exact Hinv|].
    destruct (isProcessing p) eqn:Hp; [|discriminate].
    injection Hsched as ->.
    unfold processBatch. simpl.
    pose proof (batchLoop_filter (actionQueue p) 0 (dispatched p)) as Hloop.
    destruct (batchLoop (actionQueue p) 0 (dispatched p)) as [rest sent].
    destruct Hloop as (Hf & Hl & _).
    destruct (0 <? length rest) eqn:E; unfold provider_invariant; simpl.
    + rewrite Hf. split; [done|]. split; [done|]. split; [done|].
      intros ->. by destruct (Hsync eq_refl).
    + apply Nat.ltb_ge in E. destruct rest; [|simpl in E; lia].
      rewrite Hf. split; [done|]. split; [done|]. split; [done|]. done.
Qed.

Lemma provider_invariant_play (frames : bool) (events : list Event) :
  provider_invariant frames (submitted events) (play frames events).
Proof.
  unfold play.
  induction events as [|e events IH] using rev_ind.
  { unfold provider_invariant. simpl. repeat split; done. }
  rewrite foldl_app. simpl. unfold submitted. rewrite omap_app. simpl.
  fold (submitted events).
  pose proof (provider_invariant_event frames _ _ e IH) as H.
  destruct e; simpl in *; [done|]. by rewrite app_nil_r in *.
Qed.

Lemma frames_drain (p : Provider) (n : nat) :
  scheduled p = 1 → isProcessing p = true → length (actionQueue p) ≤ n →
  actionQueue (foldl (event true) p (replicate n Frame)) = [].
Proof.
  revert p. induction n as [|n IH]; intros p Hs Hp Hlen.
  { simpl. destruct (actionQueue p); [done|simpl in Hlen; lia]. }
  simpl. rewrite Hs. unfold processBatch. simpl.
  pose proof (batchLoop_filter (actionQueue p) 0 (dispatched p)) as Hloop.
  destruct (batchLoop (actionQueue p) 0 (dispatched p)) as [rest sent].
  destruct Hloop as (_ & Hl & Hless).
  destruct (0 <? length rest) eqn:E.
  - apply IH; simpl; [done|done|].
    assert (actionQueue p ≠ []).
    { intros Hq. rewrite Hq in Hl. apply Nat.ltb_lt in E. simpl in Hl. lia. }
    specialize (Hless ltac:(done) ltac:(unfold batchSize; lia)). lia.
  - apply Nat.ltb_ge in E. destruct rest; [|simpl in E; lia].
    clear. induction n as [|n IH]; [done|]. simpl. exact IH.
Qed.

(** X28. Whatever the interleaving of dispatches and animation frames, the
    provider hands the truthy actions to [baseDispatch] in the order of
    their dispatch, none twice and none out of turn: the actions handed
    over followed by the truthy ones still queued are the truthy actions
    dispatched. Without animation frames the queue is empty after every
    dispatch. A queue that is not empty has exactly one [processBatch]
    scheduled, and after as many frames as actions are queued everything
    dispatched has been handed over. A frame hands over at most five
    actions. *)
Theorem dispatch_keeps_order (frames : bool) (events : list Event) :
  let p := play frames events in
  dispatched p ++ List.filter truthy (actionQueue p) = List.filter truthy (submitted events) ∧
  (frames = false → actionQueue p = [] ∧ scheduled p = 0) ∧
  (actionQueue p ≠ [] → isProcessing p = true ∧ scheduled p = 1) ∧
  dispatched (play frames (events ++ replicate (length (actionQueue p)) Frame))
  = List.filter truthy (submitted events) ∧
  length (dispatched (event frames p Frame)) ≤ length (dispatched p) + batchSize.
Proof.
  intros p. destruct (provider_invariant_play frames events) as (Hsent & Hbusy & Hsched & Hsync).
  fold p in Hsent, Hbusy, Hsched, Hsync.
  split; [done|]. split; [|split; [|split]]; cycle 3.
  { simpl. destruct (scheduled p) as [|n]; [lia|]. unfold processBatch. simpl.
    pose proof (batchLoop_bound (actionQueue p) 0 (dispatched p) ltac:(unfold batchSize; lia))
      as Hb.
    destruct (batchLoop (actionQueue p) 0 (dispatched p)) as [rest sent]. simpl in Hb.
    destruct (0 <? length rest); simpl; lia. }
  - intros Hf. destruct (Hsync Hf) as [Hq Hp]. by rewrite Hsched, Hp.
  - intros Hq. specialize (Hbusy Hq). by rewrite Hsched, Hbusy.
  - destruct (provider_invariant_play frames
                (events ++ replicate (length (actionQueue p)) Frame))
      as (Hsent' & _).
    assert (Hsub : submitted (events ++ replicate (length (actionQueue p)) Frame)
                   = submitted events).
    { unfold submitted. rewrite omap_app.
      assert (∀ n, omap (fun e => match e with Dispatch a => Some a | Frame => None end)
                     (replicate n Frame) = []) as ->
        by (induction n; [done|by simpl]).
      apply app_nil_r. }
    rewrite Hsub in Hsent'. rewrite <- Hsent'.
    assert (Hdrained : actionQueue (play frames
               (events ++ replicate (length (actionQueue p)) Frame)) = []).
    { unfold play. rewrite foldl_app. fold (play frames events). fold p.
      destruct (decide (actionQueue p = [])) as [Hq|Hq]; [by rewrite Hq|].
      assert (Hp : isProcessing p = true) by by apply Hbusy.
      destruct frames; [|by destruct (Hsync eq_refl)].
      apply frames_drain; [by rewrite Hsched, Hp|done|done]. }
    rewrite Hdrained. simpl. by rewrite app_nil_r.
Qed.

(** ** The error listeners *)

Lemma unsubscribe_cons (listener l : nat) (rest : list nat) :
  unsubscribe listener (l :: rest)
  = if l =? listener then rest else l :: unsubscribe listener rest.
Proof.
  unfold unsubscribe. simpl. destruct (l =? listener); [done|].
  by destruct (indexOf listener rest).
Qed.

Lemma unsubscribe_absent (listener : nat) (ls : list nat) :
  listener ∉ ls → unsubscribe listener ls = ls.
Proof.
  induction ls as [|l ls IH]; [done|]. rewrite not_elem_of_cons, unsubscribe_cons.
  intros [Hne Hout]. destruct (Nat.eqb_spec l listener); [congruence|]. by rewrite IH.
Qed.

(** X29. The function [subscribeToErrors] hands back removes one
    subscription of the listener, so the listeners are those from before
    the subscription, up to order. They are in the same order when the
    listener was not subscribed before, and a second call then changes
    nothing; when it was, what is removed is its oldest subscription, not
    the one just made. *)
Theorem unsubscribe_undoes_subscribe (listener : nat) (errorListeners : list nat) :
  unsubscribe listener (subscribeToErrors listener errorListeners) ≡ₚ errorListeners ∧
  (listener ∉ errorListeners →
   unsubscribe listener (subscribeToErrors listener errorListeners) = errorListeners ∧
   unsubscribe listener errorListeners = errorListeners) ∧
  (listener ∈ errorListeners →
   unsubscribe listener (subscribeToErrors listener errorListeners)
   = unsubscribe listener errorListeners ++ [listener]).
Proof.
  unfold subscribeToErrors.
  assert (Hin : listener ∈ errorListeners →
            unsubscribe listener (errorListeners ++ [listener])
            = unsubscribe listener errorListeners ++ [listener]).
  { induction errorListeners as [|l ls IH]; [by intros ?%elem_of_nil|].
    intros Hin. simpl. rewrite !unsubscribe_cons.
    destruct (Nat.eqb_spec l listener) as [->|Hne]; [done|].
    simpl. f_equal. apply IH. apply elem_of_cons in Hin as [->|Hin]; done. }
  assert (Hout : listener ∉ errorListeners →
            unsubscribe listener (errorListeners ++ [listener]) = errorListeners).
  { induction errorListeners as [|l ls IH].
    - intros _. simpl. by rewrite unsubscribe_cons, Nat.eqb_refl.
    - rewrite not_elem_of_cons. intros [Hne Hout]. simpl. rewrite unsubscribe_cons.
      destruct (Nat.eqb_spec l listener); [congruence|]. by rewrite IH. }
  split; [|split; [|done]].
  - destruct (decide (listener ∈ errorListeners)) as [H|H].
    + rewrite (Hin H). clear Hin Hout.
      induction errorListeners as [|l ls IH]; [by apply elem_of_nil in H|].
      rewrite unsubscribe_cons. destruct (Nat.eqb_spec l listener) as [->|Hne].
      * symmetry. apply Permutation_cons_append.
      * simpl. apply Permutation_skip. apply IH. apply elem_of_cons in H as [->|H]; done.
    + by rewrite (Hout H).
  - intros H. split; [by apply Hout|by apply unsubscribe_absent].
Qed.

(** ** Contrast thresholds *)

(** X30. A ratio that meets WCAG AAA meets WCAG AA, for normal and for
    large text; one that meets AA for normal text meets it for large text;
    AAA for large text is AA for normal text. The recommendation is
    "Insufficient contrast" exactly when AA fails and "Excellent contrast"
    exactly when AAA holds. *)
Theorem contrast_levels (ratio : JsNum) (isLargeText : bool) :
  (meetsWCAG_AAA ratio isLargeText = true → meetsWCAG_AA ratio isLargeText = true) ∧
  (meetsWCAG_AA ratio false = true → meetsWCAG_AA ratio true = true) ∧
  meetsWCAG_AAA ratio true = meetsWCAG_AA ratio false ∧
  (recommendation ratio isLargeText = "Insufficient contrast - needs improvement" ↔
   meetsWCAG_AA ratio isLargeText = false) ∧
  (recommendation ratio isLargeText = "Excellent contrast (WCAG AAA)" ↔
   meetsWCAG_AAA ratio isLargeText = true).
Proof.
  assert (Hmono : ∀ a b : Q, (a <= b)%Q →
            Num.geb ratio (Fin b) = true → Num.geb ratio (Fin a) = true).
  { intros a b Hab. destruct ratio as [| | |q]; try done. unfold Num.geb. simpl.
    rewrite !Qle_bool_iff. intros H. by apply (Qle_trans _ b). }
  assert (H1 : meetsWCAG_AAA ratio isLargeText = true → meetsWCAG_AA ratio isLargeText = true).
  { unfold meetsWCAG_AAA, meetsWCAG_AA. destruct isLargeText; apply Hmono; done. }
  split; [done|]. split; [apply Hmono; done|]. split; [done|].
  unfold recommendation.
  destruct (meetsWCAG_AAA ratio isLargeText) eqn:E3.
  - rewrite (H1 eq_refl). done.
  - destruct (meetsWCAG_AA ratio isLargeText); done.
Qed.

(** ** Further instances *)

(** X1 at work on an ADD_TASK. *)
Lemma validateAction_known_type_witness :
  validateAction (action "ADD_TASK" milk) = Valid ∧
  ∃ type, prop (action "ADD_TASK" milk) "type" = VStr type ∧ type ∈ action_types.
Proof.
  split; [reflexivity|].
  apply (validateAction_known_type (action "ADD_TASK" milk)). reflexivity.
Defined.


(** X7 at work: SET_VIEW and the task list. *)
Lemma action_frames_witness :
  prop (action "SET_VIEW" (VStr "today")) "type" = VStr "SET_VIEW" ∧
  tasks (reduce (world_at 4) three_task_state (action "SET_VIEW" (VStr "today")))
  = tasks three_task_state.
Proof.
  split; [reflexivity|].
  destruct (action_frames (world_at 4) three_task_state (action "SET_VIEW" (VStr "today"))
              "SET_VIEW" eq_refl) as (_ & Htasks & _).
  apply Htasks. apply list_elem_of_further, list_elem_of_here.
Defined.

(** X8 at work on the second of three tasks. *)
Lemma delete_task_removes_witness :
  validateTaskId (VStr id2) = Valid ∧ taskExists (tasks three_task_state) (VStr id2) = true ∧
  length (tasks (reduce (world_at 4) three_task_state (action "DELETE_TASK" (VStr id2))))
  < length (tasks three_task_state).
Proof.
  split; [reflexivity|]. split; [reflexivity|].
  destruct (delete_task_removes (world_at 4) three_task_state id2 eq_refl eq_refl)
    as (_ & _ & Hlen & _).
  exact Hlen.
Defined.

(** X9 at work: one id of a task, one of none. *)
Lemma batch_complete_marks_witness :
  Forall (fun i => validateTaskId (VStr i) = Valid) [id1; ghost] ∧
  batch_completed [id1; ghost] three_task_state
    (reduce (world_at 4) three_task_state (action "BATCH_COMPLETE" (id_array [id1; ghost]))).
Proof.
  assert (HP : Forall (fun i => validateTaskId (VStr i) = Valid) [id1; ghost])
    by repeat constructor.
  split; [exact HP|].
  destruct (batch_complete_marks (world_at 4) three_task_state [id1; ghost] HP) as [_ H].
  destruct H as [H _].
  - intros E. vm_compute in E. discriminate E.
  - exact H.
Defined.

(** X11 at work on the one task of [one_task_state]. *)
Lemma toggle_task_selection_twice_witness :
  validateTaskId (VStr id1) = Valid ∧ taskExists (tasks one_task_state) (VStr id1) = true ∧
  reduce (world_at 3)
    (reduce (world_at 2) one_task_state (action "TOGGLE_TASK_SELECTION" (VStr id1)))
    (action "TOGGLE_TASK_SELECTION" (VStr id1))
  = one_task_state.
Proof.
  split; [reflexivity|]. split; [reflexivity|].
  destruct (toggle_task_selection_twice (world_at 2) (world_at 3) one_task_state id1
              eq_refl eq_refl) as (_ & _ & _ & _ & H).
  exact H.
Defined.

(** X13 at work: the first of three tasks moved to the end and back. *)
Lemma reorder_round_trip_witness :
  0 < length (tasks three_task_state) ∧ 2 < length (tasks three_task_state) ∧
  reduce (world_at 5)
    (reduce (world_at 4) three_task_state (action "REORDER_TASKS" (move 0 2)))
    (action "REORDER_TASKS" (move 2 0))
  = three_task_state.
Proof.
  assert (H0 : 0 < length (tasks three_task_state)) by (vm_compute; lia).
  assert (H2 : 2 < length (tasks three_task_state)) by (vm_compute; lia).
  split; [exact H0|]. split; [exact H2|].
  exact (proj1 (reorder_round_trip (world_at 4) (world_at 5) three_task_state 0 2 H0 H2)).
Defined.

(** X16 at work: a second task added and deleted. *)
Lemma add_then_delete_witness :
  validateAction (action "ADD_TASK" bread) = Valid ∧
  Forall (fun task => field task "id" ≠ VStr (generateId (world_at 2))) (tasks one_task_state) ∧
  tasks (reduce (world_at 3)
           (reduce (world_at 2) one_task_state (action "ADD_TASK" bread))
           (action "DELETE_TASK" (VStr (generateId (world_at 2)))))
  = tasks one_task_state.
Proof.
  assert (Hv : validateAction (action "ADD_TASK" bread) = Valid) by reflexivity.
  assert (Hf : Forall (fun task => field task "id" ≠ VStr (generateId (world_at 2)))
                      (tasks one_task_state)).
  { constructor; [|constructor]. intros H. vm_compute in H. discriminate H. }
  split; [exact Hv|]. split; [exact Hf|].
  destruct (add_then_delete (world_at 2) (world_at 3) one_task_state bread Hv Hf)
    as (_ & _ & H & _).
  exact H.
Defined.

(** X15 at work on a payload with a priority and a tag. *)
Lemma add_task_stores_valid_input_witness :
  validateAction (action "ADD_TASK" eggs) = Valid ∧
  ∃ newTask,
    tasks (reduce (world_at 2) one_task_state (action "ADD_TASK" eggs))
    = tasks one_task_state ++ [newTask] ∧
    validateTaskInput (VObj newTask) = Valid.
Proof.
  assert (Hv : validateAction (action "ADD_TASK" eggs) = Valid) by reflexivity.
  split; [exact Hv|].
  destruct (add_task_stores_valid_input (world_at 2) one_task_state eggs Hv)
    as (newTask & Ht & _ & Hin & _).
  exists newTask. split; [exact Ht|exact Hin].
Defined.

Lemma add_select_delete_keeps_ids :
  Forall (fun wa => keeps_id (snd wa) ∧ is_str (prop (snd wa) "type") "BATCH_DELETE" = false)
         add_select_delete.
Proof.
  repeat (constructor; [split; [intros H; try discriminate H; reflexivity|reflexivity]|]).
  constructor.
Qed.

(** X17 at work on [add_select_delete]. *)
Lemma selection_names_tasks_witness :
  Forall (fun wa => keeps_id (snd wa)) add_select_delete ∧
  selection_exists (run (initialState VNull) add_select_delete).
Proof.
  assert (Hk : Forall (fun wa => keeps_id (snd wa)) add_select_delete).
  { eapply Forall_impl; [apply add_select_delete_keeps_ids|]. intros wa H. exact (proj1 H). }
  split; [exact Hk|].
  exact (selection_names_tasks VNull add_select_delete Hk).
Defined.

(** X18 at work on [add_select_delete]. *)
Lemma editing_names_task_witness :
  Forall (fun wa => keeps_id (snd wa) ∧ is_str (prop (snd wa) "type") "BATCH_DELETE" = false)
         add_select_delete ∧
  editing_exists (run (initialState VNull) add_select_delete).
Proof.
  split; [exact add_select_delete_keeps_ids|].
  exact (editing_names_task VNull add_select_delete add_select_delete_keeps_ids).
Defined.

(** X19 at work on [add_select_delete]. *)
Lemma ids_stay_distinct_witness :
  fresh_ids (initialState VNull) add_select_delete ∧
  ids_distinct (run (initialState VNull) add_select_delete).
Proof.
  assert (Hf : fresh_ids (initialState VNull) add_select_delete).
  { simpl. repeat split; try (intros H; discriminate H); try reflexivity.
    - intros _. constructor.
    - intros _. repeat constructor. intros H. vm_compute in H. discriminate H.
    - intros _. vm_compute.
      repeat (constructor; [intros H; discriminate H|]). constructor. }
  split; [exact Hf|].
  exact (ids_stay_distinct VNull add_select_delete Hf).
Defined.

(** X4 at work: a SET_VIEW with a view that does not exist. *)
Lemma validation_error_catalogue_witness :
  validateAction (action "SET_VIEW" (VStr "week")) = Invalid "Invalid view type" ∧
  mapValidationError "Invalid view type" ∈ shown_messages.
Proof.
  split; [reflexivity|].
  destruct (validation_error_catalogue (action "SET_VIEW" (VStr "week")) "Invalid view type"
              eq_refl) as [[_ H]|(type & Hty & Hnot & _)].
  - exact H.
  - exfalso. injection Hty as <-. apply Hnot. vm_compute.
    do 5 apply list_elem_of_further. apply list_elem_of_here.
Defined.

(** X5 at work: a negative due date. *)
Lemma due_date_rejection_message_witness :
  validateDueDate (VNum (num_of_Z (-1))) = Invalid "Due date cannot be negative" ∧
  appReducer (world_at 2) one_task_state
    (action "ADD_TASK" (due "Pay rent" (VNum (num_of_Z (-1)))))
  = (one_task_state, [Feedback "Something went wrong. Please try again" error]).
Proof.
  split; [reflexivity|].
  exact (due_date_rejection_message (world_at 2) one_task_state
           (due "Pay rent" (VNum (num_of_Z (-1)))) (VNum (num_of_Z (-1)))
           "Due date cannot be negative" eq_refl eq_refl eq_refl eq_refl eq_refl).
Defined.

(** X20 at work: the task due today at 23:00 is in the Today view and not
    in the Upcoming view. *)
Lemma today_view_window_witness :
  due_date_typed (target due_today) ∧
  due_today ∈ todayTasks sample_clock (tasksRef sample_snapshot) ∧
  due_today ∉ upcomingTasks sample_clock (tasksRef sample_snapshot).
Proof.
  assert (Htyped : due_date_typed (target due_today)).
  { right. right. eexists. reflexivity. }
  split; [exact Htyped|].
  destruct (today_view_window sample_clock (tasksRef sample_snapshot) due_today Htyped)
    as (_ & Hin & Hapart & _).
  assert (Htoday : due_today ∈ todayTasks sample_clock (tasksRef sample_snapshot)).
  { apply Hin. split; [by left|]. split; [reflexivity|].
    exists (num_of_Z (sample_today + 82800000)), (sample_today + 82800000)%Z.
    repeat split; reflexivity. }
  split; [exact Htoday|]. intros Hup. apply Hapart. by split.
Defined.

(** X22 at work: the Completed view before and after the task is completed,
    a month apart. *)
Lemma clock_free_views_up_to_date_witness :
  heap_consistent (map snd [(sample_clock, open_snapshot); (later_clock, done_snapshot)]) ∧
  map value
    (calls (fun _ => false) tasksRef completedTasks arrayEqualityFn emptyCache
       [(sample_clock, open_snapshot); (later_clock, done_snapshot)])
  = [Some (completedTasks sample_clock (tasksRef open_snapshot));
     Some (completedTasks later_clock (tasksRef done_snapshot))].
Proof.
  split; [exact open_done_heap|].
  destruct (clock_free_views_up_to_date
              [(sample_clock, open_snapshot); (later_clock, done_snapshot)] open_done_heap)
    as (_ & H & _).
  exact H.
Defined.

Lemma tagged_snapshot_arrays :
  Forall (fun task => isArray (field (target task) "tags") = true)
         (target (tasksRef tagged_snapshot)).
Proof. repeat constructor. Qed.

(** X24 at work: the Priority view filtered by the tag [shop]. *)
Lemma tasks_by_view_witness :
  Forall (fun task => isArray (field (target task) "tags") = true)
         (target (tasksRef tagged_snapshot)) ∧
  ∃ shown,
    fst (selectTasksByView emptyCaches sample_clock tagged_snapshot) = Some shown ∧
    sublist shown (highPriorityTasks sample_clock (tasksRef tagged_snapshot)).
Proof.
  split; [exact tagged_snapshot_arrays|].
  destruct (tasks_by_view sample_clock later_clock tagged_snapshot tagged_snapshot_arrays)
    as (shown & H1 & H2 & _).
  exists shown. split; [exact H1|exact H2].
Defined.

Lemma tagged_snapshot_typed : tags_typed (tasks (snapshot_state tagged_snapshot)).
Proof.
  repeat constructor; [by exists ["shop"; "food"]|by exists ["shop"]|by exists ["home"; "food"]].
Qed.

(** X25 at work on the tasks of [tagged_snapshot]. *)
Lemma selectAllTags_sorted_witness :
  tags_typed (tasks (snapshot_state tagged_snapshot)) ∧
  ∃ tags, selectAllTags (snapshot_state tagged_snapshot) = Some tags ∧ NoDup tags.
Proof.
  split; [exact tagged_snapshot_typed|].
  destruct (selectAllTags_sorted (snapshot_state tagged_snapshot) tagged_snapshot_typed)
    as (tags & H1 & _ & H2 & _).
  exists tags. split; [exact H1|exact H2].
Defined.

(** X26 at work: due a millisecond before today. *)
Lemma overdue_label_witness :
  (0 <= nowMs sample_clock)%Z ∧
  validateDueDate (VNum (num_of_Z (sample_today - 1))) = Valid ∧
  (isOverdue sample_clock (Some (num_of_Z (sample_today - 1))) = true ↔
   formatRelativeTime sample_clock (Some (num_of_Z (sample_today - 1)))
   = Some (Text "Overdue")).
Proof.
  assert (H0 : (0 <= nowMs sample_clock)%Z) by (vm_compute; discriminate).
  split; [exact H0|]. split; [reflexivity|].
  exact (proj1 (overdue_label sample_clock (num_of_Z (sample_today - 1)) H0 eq_refl)).
Defined.

(** X27 at work: the task due at the midnight that begins tomorrow. *)
Lemma view_labels_witness :
  (0 <= nowMs sample_clock)%Z ∧
  field (target due_tomorrow) "dueDate" = VNum (num_of_Z (sample_today + 86400000)) ∧
  validateDueDate (VNum (num_of_Z (sample_today + 86400000))) = Valid ∧
  (due_tomorrow ∈ upcomingTasks sample_clock (tasksRef sample_snapshot) →
   formatRelativeTime sample_clock (Some (num_of_Z (sample_today + 86400000)))
   = Some (Text "Tomorrow") ∨
   ∃ k, (2 <= k <= 7)%Z ∧
        formatRelativeTime sample_clock (Some (num_of_Z (sample_today + 86400000)))
        = Some (inDays k)).
Proof.
  assert (H0 : (0 <= nowMs sample_clock)%Z) by (vm_compute; discriminate).
  split; [exact H0|]. split; [reflexivity|]. split; [reflexivity|].
  destruct (view_labels sample_clock (tasksRef sample_snapshot) due_tomorrow
              (num_of_Z (sample_today + 86400000)) H0 eq_refl eq_refl) as (_ & H & _).
  exact H.
Defined.

(** X14 at work on [oat_milk_update]. *)
Lemma update_task_idempotent_witness :
  own_props (VObj (list_to_map [ ("description", VStr "Buy oat milk");
                                 ("completed", VBool true) ])) !! "id" = None ∧
  reduce (world_at 3)
    (reduce (world_at 2) one_task_state (action "UPDATE_TASK" (VObj oat_milk_update)))
    (action "UPDATE_TASK" (VObj oat_milk_update))
  = reduce (world_at 2) one_task_state (action "UPDATE_TASK" (VObj oat_milk_update)).
Proof.
  split; [reflexivity|].
  exact (update_task_idempotent (world_at 2) (world_at 3) one_task_state oat_milk_update id1
           (VObj (list_to_map [ ("description", VStr "Buy oat milk");
                                ("completed", VBool true) ]))
           eq_refl eq_refl eq_refl eq_refl eq_refl).
Defined.

(** X10 at work: two ids of tasks and one of none. *)
Lemma batch_delete_as_deletes_witness :
  Forall (fun i => validateTaskId (VStr i) = Valid) [id1; ghost; id3] ∧
  tasks (reduce (world_at 4) three_task_state (action "BATCH_DELETE" (id_array [id1; ghost; id3])))
  = tasks (run three_task_state
             [ (world_at 4, action "DELETE_TASK" (VStr id1));
               (world_at 4, action "DELETE_TASK" (VStr ghost));
               (world_at 4, action "DELETE_TASK" (VStr id3)) ]).
Proof.
  assert (HP : Forall (fun i => validateTaskId (VStr i) = Valid) [id1; ghost; id3])
    by repeat constructor.
  split; [exact HP|].
  exact (proj1 (batch_delete_as_deletes (world_at 4) three_task_state [id1; ghost; id3] HP)).
Defined.
